(** * Junkora world: gathering rolls, stamina, world grid, persistence, presence

    A shallow embedding of the simulation core of the Junkora farming game
    (item.js, mechanics.js, preloader.js) together with the properties its
    specification states about it.

    Conventions of the embedding.
    - Wall-clock values read from [Date.now()] are integers ([Z], in ms);
      values read from [performance.now()], frame deltas, growth timers and
      random draws are JavaScript numbers: binary64 values, carried as the
      rationals ([Q]) they denote. The sums and differences the script
      stores or accumulates (the quality weights of [rollQuality], a
      plant's [growthMs], a tile's [waterEndAt] and the remaining water
      duration of a save) are the correctly rounded ones of [JSNum]
      ([fadd], [fsub]), and a decimal literal entering them is the double
      nearest to it ([roundDouble]). The elapsed times that are only
      compared or divided (move cooldown, gather progress, velocity
      estimates) are taken as the rationals they are. Overflow to
      [Infinity] is outside the model: every clock value and timer of the
      game is far below 2^1024.
    - A random source ([Math.random] or an injected [rng]) is a state
      transformer [S -> Q * S]: every call returns a draw and the next state.
    - JavaScript objects that are shared by reference (the decorations kept in
      [Game.decor] and pointed to by [Game.gather.target]) live in an explicit
      object store indexed by references.
    - Dictionaries ([Game.inv.items], [Game.inv.gitems], ...) are [gmap]s with
      string keys; [m[k] || 0] is [default 0 (m !! k)]. *)

From Stdlib Require Import ZArith QArith Qround Qminmax Qabs String Ascii List Lia Lqa.
From stdpp Require Import base option list gmap strings pretty.

Import ListNotations.
Local Open Scope string_scope.
Local Open Scope Z_scope.

(* ===================================================================== *)
(** * Part I: the program *)
(* ===================================================================== *)

(** ** Strings as JavaScript uses them here *)

Module JSString.

(** The ASCII part of what [String.prototype.trim] and the regex class
    [\s] treat as white space: TAB, LF, VT, FF, CR and SPACE. *)
Definition is_space (c : ascii) : bool :=
  let n := nat_of_ascii c in
  ((9 <=? n)%nat && (n <=? 13)%nat) || (n =? 32)%nat.

Fixpoint ltrim (s : string) : string :=
  match s with
  | EmptyString => EmptyString
  | String c r => if is_space c then ltrim r else s
  end.

Fixpoint rtrim (s : string) : string :=
  match s with
  | EmptyString => EmptyString
  | String c r =>
      match rtrim r with
      | EmptyString => if is_space c then EmptyString else String c EmptyString
      | r' => String c r'
      end
  end.

(** [s.trim()] *)
Definition trim (s : string) : string := rtrim (ltrim s).

Definition lower_ascii (c : ascii) : ascii :=
  let n := nat_of_ascii c in
  if ((65 <=? n)%nat && (n <=? 90)%nat) then ascii_of_nat (n + 32) else c.

(** [s.toLowerCase()] on ASCII *)
Fixpoint toLowerCase (s : string) : string :=
  match s with
  | EmptyString => EmptyString
  | String c r => String (lower_ascii c) (toLowerCase r)
  end.

(** [s.endsWith(suf)] *)
Definition endsWith (s suf : string) : bool :=
  (String.length suf <=? String.length s)%nat
  && String.eqb (substring (String.length s - String.length suf)
                           (String.length suf) s) suf.

(** Last character of a string, if there is one. *)
Fixpoint last_char (s : string) : option ascii :=
  match s with
  | EmptyString => None
  | String c EmptyString => Some c
  | String _ r => last_char r
  end.

End JSString.

(** ** JavaScript numbers: comparisons and rounded arithmetic *)

Module JSNum.

(** [a < b] *)
Definition Qltb (a b : Q) : bool := if Qlt_le_dec a b then true else false.

(** [a >= b] *)
Definition Qgeb (a b : Q) : bool := if Qlt_le_dec a b then false else true.

(** The binary exponent of the positive rational [n / d]: the [l] with
    [2^l <= n / d < 2^(l+1)]. *)
Definition ilog2 (n d : Z) : Z :=
  let l := Z.log2 n - Z.log2 d in
  let above := if 0 <=? l then d * 2 ^ l <=? n else d <=? n * 2 ^ (- l) in
  if above then l else l - 1.

(** [x / y] rounded to the nearest integer, ties to the even one. *)
Definition roundHalfEven (x y : Z) : Z :=
  let fl := x / y in
  let r := x mod y in
  if 2 * r <? y then fl
  else if y <? 2 * r then fl + 1
  else if Z.even fl then fl else fl + 1.

(** The double nearest to the positive rational [n / d]: 53 significant
    bits, the unit in the last place never below 2^-1074 (subnormals). *)
Definition roundPos (n d : Z) : Q :=
  let e := Z.max (ilog2 n d - 52) (-1074) in
  if 0 <=? e then inject_Z (roundHalfEven n (d * 2 ^ e) * 2 ^ e)
  else Qmake (roundHalfEven (n * 2 ^ (- e)) d) (Z.to_pos (2 ^ (- e))).

(** The value a JavaScript number takes for the real [q]: round to nearest,
    ties to even, in lowest terms. *)
Definition roundDouble (q : Q) : Q :=
  match Qnum q with
  | Z0 => 0%Q
  | Zpos _ => Qred (roundPos (Qnum q) (Zpos (Qden q)))
  | Zneg _ => Qred (- roundPos (- Qnum q) (Zpos (Qden q)))
  end.

(** [a + b] and [a - b] on numbers *)
Definition fadd (a b : Q) : Q := roundDouble (a + b).
Definition fsub (a b : Q) : Q := roundDouble (a - b).

(** Half a unit in the last place, relative (normal range) and absolute
    (subnormal range). *)
Definition relErr : Q := 1 # 9007199254740992.
Definition absErr : Q := 1 # (2 ^ 1075).

End JSNum.

(** ** item.js: the item system (rarity and quality rolls, item names) *)

Module ItemSystem.
Import JSString.

Record RarityRow := { r_name : string; r_chance : Q; r_color : string }.
Record QualityRow := { q_name : string; q_weight : Q }.

(** Top-down cascade order (rarest to commonest). *)
Definition RARITIES : list RarityRow :=
  [ {| r_name := "Godlike";   r_chance := 0.0001; r_color := "#B44CFF" |};
    {| r_name := "Mythic";    r_chance := 0.01;   r_color := "#FF33AA" |};
    {| r_name := "Legendary"; r_chance := 0.10;   r_color := "#FF9900" |};
    {| r_name := "Rare";      r_chance := 0.25;   r_color := "#3399FF" |};
    {| r_name := "Uncommon";  r_chance := 0.50;   r_color := "#33CC66" |};
    {| r_name := "Common";    r_chance := 0.80;   r_color := "#BBBBBB" |} ].

(** Exact distribution (sums to 1.0). The weights are the decimal literals
    of the table; the number each one denotes is its [roundDouble]. *)
Definition QUALITIES : list QualityRow :=
  [ {| q_name := "Dull";      q_weight := 0.60 |};
    {| q_name := "Normal";    q_weight := 0.30 |};
    {| q_name := "Refined";   q_weight := 0.08 |};
    {| q_name := "Pristine";  q_weight := 0.015 |};
    {| q_name := "Exquisite"; q_weight := 0.005 |} ].

Definition FRUIT_TREES : list string :=
  ["Apple"; "Lemon"; "Mango"; "Orange"; "Peach"; "Coconut"].
Definition WOOD_TREES : list string :=
  ["Birch"; "Maple"; "Oak"; "Pine"; "Willow"; "Jacaranda"].
Definition BLOSSOM_TREES : list (string * string) :=
  [("Sakura", "Sakura Blossom")].

Definition set_has (l : list string) (x : string) : bool :=
  existsb (String.eqb x) l.

Fixpoint map_get (l : list (string * string)) (x : string) : option string :=
  match l with
  | [] => None
  | (k, v) :: rest => if String.eqb k x then Some v else map_get rest x
  end.

Section Rolls.
Context {S : Type}.
(** The random source: one call, one draw, one new state. *)
Variable rng : S -> Q * S.

(** The [for] loop of [rollRarityCascade] over the rows still to try. *)
Fixpoint rarity_loop (rows : list RarityRow) (s : S) : string * S :=
  match rows with
  | [] => ("Common", s)
  | r :: rest =>
      if String.eqb (r_name r) "Common" then ("Common", s)
      else
        let '(v, s') := rng s in
        if Qlt_le_dec v (r_chance r) then (r_name r, s')
        else rarity_loop rest s'
  end.

Definition rollRarityCascade (s : S) : string * S :=
  rarity_loop RARITIES s.

(** The [for ... of] loop of [rollQuality]: [None] when the loop ends
    without returning. [acc += q.weight] is an addition of numbers. *)
Fixpoint quality_loop (rows : list QualityRow) (roll acc : Q) : option string :=
  match rows with
  | [] => None
  | q :: rest =>
      let acc' := JSNum.fadd acc (JSNum.roundDouble (q_weight q)) in
      if Qlt_le_dec roll acc' then Some (q_name q)
      else quality_loop rest roll acc'
  end.

Definition last_quality_name : string :=
  q_name (List.last QUALITIES {| q_name := ""; q_weight := 0 |}).

Definition rollQuality (s : S) : string * S :=
  let '(roll, s') := rng s in
  (default last_quality_name (quality_loop QUALITIES roll 0), s').
End Rolls.

(** A source that returns the same value at every call. *)
Definition constRng (v : Q) : unit -> Q * unit := fun _ => (v, tt).

(** The quality roll as the specification words it: the categories with
    their cumulative weight sums, in table order, and the first one whose
    sum strictly exceeds the draw; the last category when there is none.
    The sums are sums of numbers, taken in table order. *)
Fixpoint cumulative (acc : Q) (rows : list QualityRow) : list (string * Q) :=
  match rows with
  | [] => []
  | q :: rest =>
      let acc' := JSNum.fadd acc (JSNum.roundDouble (q_weight q)) in
      (q_name q, acc') :: cumulative acc' rest
  end.

(** The five sums of the table, as the numbers they are:
    0.6, 0.8999999999999999, 0.9799999999999999, 0.9949999999999999 and
    0.9999999999999999. *)
Definition SUM_DULL : Q := 5404319552844595 # 9007199254740992.
Definition SUM_NORMAL : Q := 2026619832316723 # 2251799813685248.
Definition SUM_REFINED : Q := 8827055269646171 # 9007199254740992.
Definition SUM_PRISTINE : Q := 4481081629233643 # 4503599627370496.
Definition SUM_EXQUISITE : Q := 9007199254740991 # 9007199254740992.

Definition quality_by_cumulative (v : Q) : string :=
  match List.find (fun nc => JSNum.Qltb v (snd nc)) (cumulative 0 QUALITIES) with
  | Some nc => fst nc
  | None => "Exquisite"
  end.

(** [String(name || '').trim()] *)
Definition normalizeNodeName (name : string) : string := trim name.

(** [s.replace(/\s*(tree|Tree)$/g, '')]: a trailing "tree" or "Tree" is
    removed together with the white space in front of it. *)
Definition stripTreeSuffix (s : string) : string :=
  if endsWith s "tree" || endsWith s "Tree"
  then rtrim (substring 0 (String.length s - 4) s)
  else s.

Definition baseTreeName (nodeName : string) : string :=
  trim (stripTreeSuffix (normalizeNodeName nodeName)).

Definition inferTreeItem (nodeName : string) : string :=
  let base := baseTreeName nodeName in
  if set_has FRUIT_TREES base then base
  else match map_get BLOSSOM_TREES base with
       | Some item => item
       | None =>
           if set_has WOOD_TREES base then base ++ " Wood"
           else base ++ " Wood"
       end.

(** For flowers, the item is the flower itself. *)
Definition inferFlowerItem (nodeName : string) : string :=
  normalizeNodeName nodeName.

(** For minerals, the item is the node name as given. *)
Definition inferMineralItem (nodeName : string) : string :=
  normalizeNodeName nodeName.

Definition assetPath (category itemName : string) : string :=
  if String.eqb category "flower" then "assets/flower/" ++ itemName ++ ".png"
  else if String.eqb category "mineral" then "assets/minerals/" ++ itemName ++ ".png"
  else if String.eqb category "tree" then
    if set_has FRUIT_TREES itemName then "assets/tree/" ++ itemName ++ ".png"
    else if String.eqb itemName "Sakura Blossom" then "assets/tree/Sakura.png"
    else ""
  else "".

(** The object returned by [gather]; [id] and [createdAt] (derived from the
    clock and a counter) are left out. *)
Record Gathered := {
  g_category : string;
  g_source : string;
  g_name : string;
  g_rarity : string;
  g_quality : string;
  g_icon : string
}.

Inductive GatherError :=
| CategoryRequired
| NodeNameRequired
| UnknownCategory (category : string).

Definition inferItem (cat nodeName : string) : option string :=
  if String.eqb cat "tree" then Some (inferTreeItem nodeName)
  else if String.eqb cat "flower" then Some (inferFlowerItem nodeName)
  else if String.eqb cat "mineral" then Some (inferMineralItem nodeName)
  else None.

(** [gather(category, nodeName, {rng})]: the three [throw]s are the [inl]
    results; they happen before any draw. *)
Definition gather {S : Type} (rng : S -> Q * S)
    (category nodeName : string) (s : S) : (GatherError + Gathered) * S :=
  if String.eqb category "" then (inl CategoryRequired, s)
  else if String.eqb nodeName "" then (inl NodeNameRequired, s)
  else
    let cat := toLowerCase category in
    match inferItem cat nodeName with
    | None => (inl (UnknownCategory category), s)
    | Some itemName =>
        let '(rarity, s1) := rollRarityCascade rng s in
        let '(quality, s2) := rollQuality rng s1 in
        (inr {| g_category := cat;
                g_source := normalizeNodeName nodeName;
                g_name := itemName;
                g_rarity := rarity;
                g_quality := quality;
                g_icon := assetPath cat itemName |}, s2)
    end.

End ItemSystem.

(** ** itemlist.js and the gather system built on it

    The catalog of item tuples and the name resolution of
    [GatherSystem.harvest]; the game's own gather completion does not call
    into it (see [World.finishGathering]). *)

Module ItemList.
Import JSString.

(** A tuple [[itemID, name, imageLink]]. *)
Record Tuple := { itemID : string; name : string; imageLink : string }.

Inductive Category := trees | flowers | minerals | misc.

Record Catalog := {
  c_trees : list Tuple;
  c_flowers : list Tuple;
  c_minerals : list Tuple;
  c_misc : list Tuple
}.

Definition entries (c : Category) (cat : Catalog) : list Tuple :=
  match c with
  | trees => c_trees cat
  | flowers => c_flowers cat
  | minerals => c_minerals cat
  | misc => c_misc cat
  end.

(** [this[category].push(tuple)] *)
Definition add (c : Category) (t : Tuple) (cat : Catalog) : Catalog :=
  match c with
  | trees => {| c_trees := c_trees cat ++ [t]; c_flowers := c_flowers cat;
                c_minerals := c_minerals cat; c_misc := c_misc cat |}
  | flowers => {| c_trees := c_trees cat; c_flowers := c_flowers cat ++ [t];
                  c_minerals := c_minerals cat; c_misc := c_misc cat |}
  | minerals => {| c_trees := c_trees cat; c_flowers := c_flowers cat;
                   c_minerals := c_minerals cat ++ [t]; c_misc := c_misc cat |}
  | misc => {| c_trees := c_trees cat; c_flowers := c_flowers cat;
               c_minerals := c_minerals cat; c_misc := c_misc cat ++ [t] |}
  end.

Definition is_slug_char (c : ascii) : bool :=
  let n := nat_of_ascii c in
  ((97 <=? n)%nat && (n <=? 122)%nat) || ((48 <=? n)%nat && (n <=? 57)%nat).

(** [s.replace(/[^a-z0-9]+/g, "_")]; [inrun] tells that the previous
    character was already replaced. *)
Fixpoint squash (s : string) (inrun : bool) : string :=
  match s with
  | EmptyString => EmptyString
  | String c r =>
      if is_slug_char c then String c (squash r false)
      else if inrun then squash r true
      else String "_" (squash r true)
  end.

Fixpoint dropLeading (c : ascii) (s : string) : string :=
  match s with
  | EmptyString => EmptyString
  | String a r => if Ascii.eqb a c then dropLeading c r else s
  end.

Fixpoint dropTrailing (c : ascii) (s : string) : string :=
  match s with
  | EmptyString => EmptyString
  | String a r =>
      match dropTrailing c r with
      | EmptyString => if Ascii.eqb a c then EmptyString else String a EmptyString
      | r' => String a r'
      end
  end.

Definition slug (s : string) : string :=
  dropTrailing "_" (dropLeading "_" (squash (toLowerCase s) false)).

Definition makeId (prefix nm : string) : string := prefix ++ "_" ++ slug nm.

Definition findByName (c : Category) (nm : string) (cat : Catalog) : option Tuple :=
  let target := toLowerCase (trim nm) in
  List.find (fun e => String.eqb (toLowerCase (name e)) target) (entries c cat).

Definition TREE_FRUITS : list string :=
  ["Apple"; "Lemon"; "Mango"; "Orange"; "Peach"; "Coconut"].
Definition TREE_WOODS : list string :=
  ["Birch"; "Maple"; "Oak"; "Pine"; "Willow"; "Jacaranda"].
Definition FLOWERS : list string :=
  ["Daisy"; "Lotus"; "Orchid"; "Rose"; "Sunflower"; "Tulip"].

(** Mineral display names with the file names of their icons. *)
Definition MINERALS : list (string * string) :=
  map (fun n => (n, n))
      ["Adamantite"; "Amethyst"; "Basalt"; "Coal"; "Copper Ore"; "Diamond";
       "Emerald"; "Gold Ore"; "Granite"; "Iron Ore"; "Limestone"; "Marble";
       "Mooncrystal"; "Mythril"; "Obsidian"; "Opal"]
  ++ [("Rock", "rock")]
  ++ map (fun n => (n, n))
      ["Ruby"; "Sandstone"; "Sapphire"; "Silver Ore"; "Slate"; "Starstone";
       "Tin Ore"; "Topaz"].

Definition mkTuple (id nm img : string) : Tuple :=
  {| itemID := id; name := nm; imageLink := img |}.

(** The catalog as the script fills it when it is loaded; the [byId] index
    kept next to the arrays is left out. *)
Definition initialCatalog : Catalog :=
  {| c_trees :=
       map (fun n => mkTuple (makeId "tree_fruit" n) n
                       ("assets/tree/" ++ n ++ ".png")) TREE_FRUITS
       ++ map (fun n => mkTuple (makeId "tree_wood" (n ++ " Wood"))
                          (n ++ " Wood") "") TREE_WOODS
       ++ [mkTuple (makeId "tree_blossom" "Sakura Blossom") "Sakura Blossom"
                   "assets/tree/Sakura.png"];
     c_flowers :=
       map (fun n => mkTuple (makeId "flower_petals" (n ++ " Petals"))
                       (n ++ " Petals") ("assets/flower/" ++ n ++ ".png"))
           FLOWERS;
     c_minerals :=
       map (fun m => mkTuple (makeId "mineral" (fst m)) (fst m)
                       ("assets/minerals/" ++ snd m ++ ".png")) MINERALS;
     c_misc := [mkTuple (makeId "misc" "SEED") "SEED" ""] |}.

End ItemList.

Module GatherSystem.
Import JSString ItemList.

Definition normalizeName (nm : string) : string := trim nm.

(** [resolveFlowerTuple(nodeName)]: the catalog entry named
    ["<flower> Petals"], created on first encounter. *)
Definition resolveFlowerTuple (nodeName : string) (cat : Catalog) : Tuple * Catalog :=
  let base := normalizeName nodeName in
  let itemName := base ++ " Petals" in
  match findByName flowers itemName cat with
  | Some t => (t, cat)
  | None =>
      let t := {| itemID := makeId "flower_fallback" itemName; name := itemName;
                  imageLink := "assets/flower/" ++ base ++ ".png" |} in
      (t, add flowers t cat)
  end.

End GatherSystem.

(** ** mechanics.js: the stamina pool and its wall-clock regeneration *)

Module Mechanics.

(** [lastRegenAt] is absent ([None]) in saves written before regeneration
    existed; the code tests [typeof lastRegenAt !== 'number']. *)
Record Stamina := {
  stamina_max : Z;
  stamina_current : Z;
  lastRegenAt : option Z
}.

Definition set_current (c : Z) (st : Stamina) : Stamina :=
  {| stamina_max := stamina_max st; stamina_current := c;
     lastRegenAt := lastRegenAt st |}.

Definition set_lastRegenAt (t : Z) (st : Stamina) : Stamina :=
  {| stamina_max := stamina_max st; stamina_current := stamina_current st;
     lastRegenAt := Some t |}.

Definition drain (amount : Z) (st : Stamina) : Stamina :=
  set_current (Z.max 0 (stamina_current st - amount)) st.

Definition regen (amount : Z) (st : Stamina) : Stamina :=
  set_current (Z.min (stamina_max st) (stamina_current st + amount)) st.

(** 1 stamina per 5 minutes *)
Definition STAMINA_REGEN_INTERVAL_MS : Z := 5 * 60 * 1000.

(** [Mechanics.__applyStaminaCatchup], with [Date.now()] passed as [now]. *)
Definition applyStaminaCatchup (now : Z) (st : Stamina) : Stamina :=
  match lastRegenAt st with
  | None => set_lastRegenAt now st
  | Some last =>
      let elapsed := now - last in
      if elapsed <? STAMINA_REGEN_INTERVAL_MS then st
      else if stamina_max st <=? stamina_current st then
        (* already full: advance baseline so time does not accumulate *)
        set_lastRegenAt now st
      else
        let ticks := elapsed / STAMINA_REGEN_INTERVAL_MS in
        if 0 <? ticks then
          let room := Z.max 0 (stamina_max st - stamina_current st) in
          let add := Z.min ticks room in
          let st1 := if 0 <? add then regen add st else st in
          (* move baseline forward by consumed ticks *)
          set_lastRegenAt (last + ticks * STAMINA_REGEN_INTERVAL_MS) st1
        else st
  end.

(** The periodic [tick] closure of [Mechanics.__startStaminaRegen]. *)
Definition regenTick (now : Z) (st : Stamina) : Stamina :=
  let last := default now (lastRegenAt st) in
  let st0 := set_lastRegenAt last st in
  let delta := now - last in
  let ticks := delta / STAMINA_REGEN_INTERVAL_MS in
  if 0 <? ticks then
    let st1 :=
      if stamina_current st0 <? stamina_max st0 then
        let room := Z.max 0 (stamina_max st0 - stamina_current st0) in
        let add := Z.min ticks room in
        if 0 <? add then regen add st0 else st0
      else st0 in
    (* always advance baseline to avoid infinite backlog *)
    set_lastRegenAt (last + ticks * STAMINA_REGEN_INTERVAL_MS) st1
  else st0.

End Mechanics.

(** ** preloader.js: the world, the player, gathering, persistence *)

Module World.
Import JSString JSNum.

(** *** Constants and configuration *)

Definition TILE_SIZE : Z := 32.
Definition WORLD_W : Z := 256.
Definition WORLD_H : Z := 120.
Definition MOVE_COOLDOWN_MS : Q := 120.
Definition WATER_DURATION_MS : Q := 60000.
Definition GATHER_TIME_MS : Q := 1500.

Inductive Tool := Hoe | Water | Hand.
Inductive Dir := Up | Down | Left | Right.

(** The keys of [CROPS]. *)
Inductive CropKind := turnip | wheat | corn.

Record CropDef := {
  display : string;
  seedPrice : Z;
  sellPrice : Z;
  stageMs : list Q;      (* time required to progress from a stage to the next *)
  colors : list string
}.

Definition CROPS (k : CropKind) : CropDef :=
  match k with
  | turnip => {| display := "Turnip"; seedPrice := 10; sellPrice := 25;
                 stageMs := [8000; 12000; 0]%Q;
                 colors := ["#7a552e"; "#7fc96b"; "#4ea24d"] |}
  | wheat => {| display := "Wheat"; seedPrice := 12; sellPrice := 20;
                stageMs := [12000; 18000; 0]%Q;
                colors := ["#7a552e"; "#8bbf6f"; "#d2b84c"] |}
  | corn => {| display := "Corn"; seedPrice := 20; sellPrice := 40;
               stageMs := [16000; 22000; 0]%Q;
               colors := ["#7a552e"; "#6bbf59"; "#f1c40f"] |}
  end.

(** Tileset ids ([TILE]). *)
Definition TILE_Grass : Z := 0.
Definition TILE_Soil : Z := 1.
Definition TILE_Path : Z := 2.
Definition TILE_Water : Z := 3.

(** *** Tiles and the grid *)

Record Plant := {
  p_type : CropKind;
  stage : Z;
  growthMs : Q
}.

Record Tile := {
  tileId : Z;
  tilled : bool;
  watered : bool;
  waterEndAt : Q;          (* [performance.now()] instant when watering expires *)
  plant : option Plant;
  coord : Z * Z;
  walkable : bool
}.

Definition makeTile (x y baseId : Z) : Tile :=
  {| tileId := baseId; tilled := false; watered := false; waterEndAt := 0;
     plant := None; coord := (x, y);
     walkable := negb (baseId =? TILE_Water) |}.

(** [Game.world]: an array of [WORLD_H] rows of [WORLD_W] tiles. *)
Abbreviation Grid := (list (list Tile)).

(** The shape [generateWorld] and [deserializeWorld] build. *)
Definition grid_ok (w : Grid) : Prop :=
  length w = Z.to_nat WORLD_H /\
  Forall (fun row => length row = Z.to_nat WORLD_W) w.

Definition inBounds (x y : Z) : bool :=
  (0 <=? x) && (0 <=? y) && (x <? WORLD_W) && (y <? WORLD_H).

(** [tileAt(x, y)]: [null] outside the world, [Game.world[y][x]] inside.
    On a grid of the right shape the array accesses cannot miss; a miss is
    rendered as [None] as well. *)
Definition tileAt (w : Grid) (x y : Z) : option Tile :=
  if inBounds x y then
    row ← w !! Z.to_nat y; row !! Z.to_nat x
  else None.

(** In-place mutation [f] of the tile object returned by [tileAt(x, y)]. *)
Definition mutTile (f : Tile -> Tile) (x y : Z) (w : Grid) : Grid :=
  if inBounds x y then
    alter (alter f (Z.to_nat x)) (Z.to_nat y) w
  else w.

Definition set_walkable (b : bool) (t : Tile) : Tile :=
  {| tileId := tileId t; tilled := tilled t; watered := watered t;
     waterEndAt := waterEndAt t; plant := plant t; coord := coord t;
     walkable := b |}.

Definition set_water (b : bool) (e : Q) (t : Tile) : Tile :=
  {| tileId := tileId t; tilled := tilled t; watered := b;
     waterEndAt := e; plant := plant t; coord := coord t;
     walkable := walkable t |}.

Definition set_plant (p : option Plant) (t : Tile) : Tile :=
  {| tileId := tileId t; tilled := tilled t; watered := watered t;
     waterEndAt := waterEndAt t; plant := p; coord := coord t;
     walkable := walkable t |}.

(** *** Decorations *)

(** A decoration object. [d_type] is ['Trees'], ['flowers'], ['minerals'] or
    ['npc']; harvest counters are [None] while they are not numbers (before
    [ensureDecorHarvestCounters] has run); an absent [kind] is [""]. *)
Record Decor := {
  d_x : Z;
  d_y : Z;
  d_type : string;
  kind : string;
  animOffset : Z;
  maxHarvests : option Z;
  remainingHarvests : option Z
}.

Definition set_remainingHarvests (n : Z) (d : Decor) : Decor :=
  {| d_x := d_x d; d_y := d_y d; d_type := d_type d; kind := kind d;
     animOffset := animOffset d; maxHarvests := maxHarvests d;
     remainingHarvests := Some n |}.

(** References to decoration objects. *)
Definition ref := nat.

(** *** Inventory, skills, player, gather state *)

Record LastSeen := {
  ls_rarity : string;
  ls_quality : string;
  ls_category : string;
  ls_source : string
}.

Record ItemMeta := {
  total : Z;
  countsByRarity : gmap string Z;
  countsByQuality : gmap string Z;
  last : option LastSeen
}.

Record Inventory := {
  items : gmap string Z;        (* legacy aggregate: itemName -> count *)
  gitems : gmap string Z;       (* by identity: name__rarity__quality -> count *)
  itemMeta : gmap string ItemMeta
}.

Record Skill := { level : Z; exp : Z }.

Inductive SkillKey := mining | flower | harvesting.

Record Skills := {
  sk_mining : Skill;
  sk_flower : Skill;
  sk_harvesting : Skill
}.

Record Player := {
  p_x : Z;
  p_y : Z;
  facing : Dir;
  lastMoveAt : Q
}.

Record Gather := {
  active : bool;
  target : option ref;
  startAt : Q;
  duration : Q;
  progress : Q
}.

(** An entry of [floaties], pushed by [showFloatingText]. *)
Record Floaty := {
  f_text : string;
  f_x : Z;
  f_y : Z;
  f_color : string
}.

(** The state of [Math.random]: the sequence it will produce and how many
    draws were consumed. *)
Record Rand := { draws : nat -> Q; consumed : nat }.

Definition random (r : Rand) : Q * Rand :=
  (draws r (consumed r), {| draws := draws r; consumed := Datatypes.S (consumed r) |}).

(** *** Remote players *)

Record View := {
  rx : Q; ry : Q;          (* rendered position *)
  tx : Z; ty : Z;          (* authoritative target *)
  vx : Q; vy : Q;          (* estimated velocity, tiles per second *)
  v_facing : Dir;
  lastUpdate : Q
}.

Record Other := {
  o_x : Z;
  o_y : Z;
  username : string;
  lastSeen : Z
}.

(** *** The [Game] singleton

    DOM updates, the [localStorage] write of [save()] and the network calls
    have no effect on the fields below and are left out. *)
Record Game := {
  tool : Tool;
  stamina : Mechanics.Stamina;
  inv : Inventory;
  world : Grid;
  objs : gmap ref Decor;     (* the decoration objects *)
  decor : list ref;          (* [Game.decor] *)
  player : Player;
  gather : Gather;
  floaties : list Floaty;
  skills : Skills;
  rand : Rand;
  others : gmap string Other;
  othersView : gmap string View
}.

(** Field updates of the [Game] record. *)
Definition set_tool (v : Tool) (g : Game) : Game :=
  {| tool := v; stamina := stamina g; inv := inv g; world := world g;
     objs := objs g; decor := decor g; player := player g;
     gather := gather g; floaties := floaties g; skills := skills g;
     rand := rand g; others := others g; othersView := othersView g |}.

Definition set_stamina (v : Mechanics.Stamina) (g : Game) : Game :=
  {| tool := tool g; stamina := v; inv := inv g; world := world g;
     objs := objs g; decor := decor g; player := player g;
     gather := gather g; floaties := floaties g; skills := skills g;
     rand := rand g; others := others g; othersView := othersView g |}.

Definition set_inv (v : Inventory) (g : Game) : Game :=
  {| tool := tool g; stamina := stamina g; inv := v; world := world g;
     objs := objs g; decor := decor g; player := player g;
     gather := gather g; floaties := floaties g; skills := skills g;
     rand := rand g; others := others g; othersView := othersView g |}.

Definition set_world (v : Grid) (g : Game) : Game :=
  {| tool := tool g; stamina := stamina g; inv := inv g; world := v;
     objs := objs g; decor := decor g; player := player g;
     gather := gather g; floaties := floaties g; skills := skills g;
     rand := rand g; others := others g; othersView := othersView g |}.

Definition set_objs (v : gmap ref Decor) (g : Game) : Game :=
  {| tool := tool g; stamina := stamina g; inv := inv g; world := world g;
     objs := v; decor := decor g; player := player g; gather := gather g;
     floaties := floaties g; skills := skills g; rand := rand g;
     others := others g; othersView := othersView g |}.

Definition set_decor (v : list ref) (g : Game) : Game :=
  {| tool := tool g; stamina := stamina g; inv := inv g; world := world g;
     objs := objs g; decor := v; player := player g; gather := gather g;
     floaties := floaties g; skills := skills g; rand := rand g;
     others := others g; othersView := othersView g |}.

Definition set_player (v : Player) (g : Game) : Game :=
  {| tool := tool g; stamina := stamina g; inv := inv g; world := world g;
     objs := objs g; decor := decor g; player := v; gather := gather g;
     floaties := floaties g; skills := skills g; rand := rand g;
     others := others g; othersView := othersView g |}.

Definition set_gather (v : Gather) (g : Game) : Game :=
  {| tool := tool g; stamina := stamina g; inv := inv g; world := world g;
     objs := objs g; decor := decor g; player := player g; gather := v;
     floaties := floaties g; skills := skills g; rand := rand g;
     others := others g; othersView := othersView g |}.

Definition set_floaties (v : list Floaty) (g : Game) : Game :=
  {| tool := tool g; stamina := stamina g; inv := inv g; world := world g;
     objs := objs g; decor := decor g; player := player g;
     gather := gather g; floaties := v; skills := skills g; rand := rand g;
     others := others g; othersView := othersView g |}.

Definition set_skills (v : Skills) (g : Game) : Game :=
  {| tool := tool g; stamina := stamina g; inv := inv g; world := world g;
     objs := objs g; decor := decor g; player := player g;
     gather := gather g; floaties := floaties g; skills := v; rand := rand g;
     others := others g; othersView := othersView g |}.

Definition set_rand (v : Rand) (g : Game) : Game :=
  {| tool := tool g; stamina := stamina g; inv := inv g; world := world g;
     objs := objs g; decor := decor g; player := player g;
     gather := gather g; floaties := floaties g; skills := skills g;
     rand := v; others := others g; othersView := othersView g |}.

Definition set_others (v : gmap string Other) (g : Game) : Game :=
  {| tool := tool g; stamina := stamina g; inv := inv g; world := world g;
     objs := objs g; decor := decor g; player := player g;
     gather := gather g; floaties := floaties g; skills := skills g;
     rand := rand g; others := v; othersView := othersView g |}.

Definition set_othersView (v : gmap string View) (g : Game) : Game :=
  {| tool := tool g; stamina := stamina g; inv := inv g; world := world g;
     objs := objs g; decor := decor g; player := player g;
     gather := gather g; floaties := floaties g; skills := skills g;
     rand := rand g; others := others g; othersView := v |}.

(** *** Floating text *)

Definition showFloatingText (text : string) (gx gy : Z) (color : string)
    (g : Game) : Game :=
  set_floaties
    (floaties g ++ [ {| f_text := text;
                        f_x := gx * TILE_SIZE + TILE_SIZE / 2;
                        f_y := gy * TILE_SIZE + TILE_SIZE / 2;
                        f_color := color |} ]) g.

(** *** Decoration lookup and blocking *)

(** [Game.decor.find(d => d.x === x && d.y === y)]: the first decoration
    listed at the tile. *)
Fixpoint findDecor (os : gmap ref Decor) (l : list ref) (x y : Z) : option ref :=
  match l with
  | [] => None
  | r :: rest =>
      match os !! r with
      | Some d =>
          if (d_x d =? x) && (d_y d =? y) then Some r
          else findDecor os rest x y
      | None => findDecor os rest x y
      end
  end.

Definition decorAt (g : Game) (x y : Z) : option ref :=
  findDecor (objs g) (decor g) x y.

(** [d.type === 'Trees' || d.type === 'minerals'] *)
Definition blocksMovement (d : Decor) : bool :=
  String.eqb (d_type d) "Trees" || String.eqb (d_type d) "minerals".

Definition isBlocked (g : Game) (x y : Z) : bool :=
  if negb (inBounds x y) then true
  else
    match tileAt (world g) x y with
    | None => true
    | Some t =>
        if negb (walkable t) then true
        else
          match decorAt g x y ≫= (fun r => objs g !! r) with
          | Some d => blocksMovement d
          | None => false
          end
    end.

(** *** Player movement *)

Definition dirDelta (d : Dir) : Z * Z :=
  match d with
  | Up => (0, -1)
  | Down => (0, 1)
  | Left => (-1, 0)
  | Right => (1, 0)
  end.

Definition set_facing (d : Dir) (p : Player) : Player :=
  {| p_x := p_x p; p_y := p_y p; facing := d; lastMoveAt := lastMoveAt p |}.

(** [stepPlayer(dt)], with [performance.now()] and the direction asked for
    by the keys ([desiredDirFromKeys()]) passed in. *)
Definition stepPlayer (now : Q) (desired : option Dir) (g : Game) : Game :=
  (* lock movement while gathering *)
  if active (gather g) then g
  else
    match desired with
    | None => g
    | Some dir =>
        if Qlt_le_dec (now - lastMoveAt (player g)) MOVE_COOLDOWN_MS then
          (* allow turning without stepping *)
          set_player (set_facing dir (player g)) g
        else
          let '(dx, dy) := dirDelta dir in
          let nx := p_x (player g) + dx in
          let ny := p_y (player g) + dy in
          let g1 := set_player (set_facing dir (player g)) g in
          if negb (isBlocked g1 nx ny) then
            set_player {| p_x := nx; p_y := ny; facing := dir;
                          lastMoveAt := now |} g1
          else g1
    end.

(** *** Gathering: start *)

Definition isGatherType (d : Decor) : bool :=
  String.eqb (d_type d) "Trees" || String.eqb (d_type d) "flowers"
  || String.eqb (d_type d) "minerals".

Definition isDecorGatherable (d : Decor) : bool :=
  let hasHarvests :=
    match remainingHarvests d with
    | None => true
    | Some n => 0 <? n
    end in
  hasHarvests && isGatherType d.

(** [startGathering({ d })] with [d] the object behind reference [r]. *)
Definition startGathering (now : Q) (r : ref) (g : Game) : Game :=
  match objs g !! r with
  | None => g
  | Some d =>
      let depleted :=
        match remainingHarvests d with
        | Some n => n <=? 0
        | None => false
        end in
      if depleted then showFloatingText "Depleted" (d_x d) (d_y d) "#ef476f" g
      else
        (* stamina check: require at least 1 to start gathering decor *)
        if Mechanics.stamina_current (stamina g) <? 1 then
          showFloatingText "Out of stamina" (d_x d) (d_y d) "#ef476f" g
        else
          set_tool Hand
            (set_gather {| active := true; target := Some r; startAt := now;
                           duration := GATHER_TIME_MS; progress := 0 |} g)
  end.

(** *** Skills *)

(** Simple linear EXP curve per level: 10, 20, 30, ... *)
Definition expNeededFor (lv : Z) : Z := 10 + (Z.max 1 lv - 1) * 10.

(** The [while (s.exp >= expNeededFor(s.level))] loop of [awardSkillExp];
    every iteration takes at least 10 from [exp], so [exp] iterations are
    more than enough. *)
Fixpoint levelUpLoop (fuel : nat) (s : Skill) (leveled : bool) : Skill * bool :=
  match fuel with
  | O => (s, leveled)
  | Datatypes.S n =>
      if expNeededFor (level s) <=? exp s then
        levelUpLoop n {| level := level s + 1;
                         exp := exp s - expNeededFor (level s) |} true
      else (s, leveled)
  end.

Definition getSkill (k : SkillKey) (sk : Skills) : Skill :=
  match k with
  | mining => sk_mining sk
  | flower => sk_flower sk
  | harvesting => sk_harvesting sk
  end.

Definition setSkill (k : SkillKey) (s : Skill) (sk : Skills) : Skills :=
  match k with
  | mining => {| sk_mining := s; sk_flower := sk_flower sk;
                 sk_harvesting := sk_harvesting sk |}
  | flower => {| sk_mining := sk_mining sk; sk_flower := s;
                 sk_harvesting := sk_harvesting sk |}
  | harvesting => {| sk_mining := sk_mining sk; sk_flower := sk_flower sk;
                     sk_harvesting := s |}
  end.

(** Experience the levels [lo], ..., [hi - 1] cost in total. *)
Definition spent (lo hi : Z) : Z :=
  fold_right Z.add 0 (map expNeededFor (seqZ lo (hi - lo))).

(** [key.charAt(0).toUpperCase() + key.slice(1)] *)
Definition capitalized (k : SkillKey) : string :=
  match k with
  | mining => "Mining"
  | flower => "Flower"
  | harvesting => "Harvesting"
  end.

Definition awardSkillExp (k : SkillKey) (amount : Z) (g : Game) : Game :=
  let s := getSkill k (skills g) in
  let s1 := {| level := level s; exp := exp s + Z.max 0 amount |} in
  let '(s2, leveled) := levelUpLoop (Z.to_nat (exp s1)) s1 false in
  let g1 := set_skills (setSkill k s2 (skills g)) g in
  if leveled then
    showFloatingText (capitalized k ++ " Lv " ++ pretty (level s2) ++ "!")
      (p_x (player g1)) (p_y (player g1)) "#7a5fa3" g1
  else g1.

(** *** Gathering: completion *)

(** [m[k] = (m[k] || 0) + 1] *)
Definition bump (k : string) (m : gmap string Z) : gmap string Z :=
  <[k := default 0 (m !! k) + 1]> m.

Definition categoryOf (d : Decor) : string :=
  if String.eqb (d_type d) "Trees" then "tree"
  else if String.eqb (d_type d) "flowers" then "flower"
  else "mineral".

(** [category === 'tree' ? `${d.kind} Tree` : (d.kind || 'Unknown')]: the
    template literal renders an absent kind as "undefined". *)
Definition nodeNameOf (d : Decor) : string :=
  if String.eqb (categoryOf d) "tree"
  then (if String.eqb (kind d) "" then "undefined" else kind d) ++ " Tree"
  else if String.eqb (kind d) "" then "Unknown" else kind d.

(** The per-identity key [`${name}__${rarity}__${quality}`]. *)
Definition gkeyOf (name rarity quality : string) : string :=
  name ++ "__" ++ rarity ++ "__" ++ quality.

Definition emptyMeta : ItemMeta :=
  {| total := 0; countsByRarity := ∅; countsByQuality := ∅; last := None |}.

(** The inventory part of [finishGathering]: legacy stack, per-identity
    stack, tooltip metadata. *)
Definition recordGather (gathered : ItemSystem.Gathered)
    (category nodeName : string) (iv : Inventory) : Inventory :=
  let name := ItemSystem.g_name gathered in
  let rarity := ItemSystem.g_rarity gathered in
  let quality := ItemSystem.g_quality gathered in
  let mm := default emptyMeta (itemMeta iv !! name) in
  let mm' :=
    {| total := total mm + 1;
       countsByRarity := bump rarity (countsByRarity mm);
       countsByQuality := bump quality (countsByQuality mm);
       last := Some {| ls_rarity := rarity; ls_quality := quality;
                       ls_category := category; ls_source := nodeName |} |} in
  {| items := bump name (items iv);
     gitems := bump (gkeyOf name rarity quality) (gitems iv);
     itemMeta := <[name := mm']> (itemMeta iv) |}.

Definition set_gitems (m : gmap string Z) (iv : Inventory) : Inventory :=
  {| items := items iv; gitems := m; itemMeta := itemMeta iv |}.

(** 2% chance to also drop a resource-specific Seed (Trees/Flowers only);
    the draw comes from [Math.random]. *)
Definition bonusSeed (category : string) (d : Decor) (g : Game) : Game :=
  if String.eqb category "tree" || String.eqb category "flower" then
    let '(v, s') := random (rand g) in
    let g1 := set_rand s' g in
    if Qltb v 0.02 then
      let base := trim (kind d) in
      if String.eqb base "" then g1
      else
        let seedName := base ++ " Seed" in
        let seedKey := seedName ++ "__Unknown__Unknown" in
        showFloatingText ("+1 " ++ seedName) (d_x d) (d_y d) "#a3e635"
          (set_inv (set_gitems (bump seedKey (gitems (inv g1))) (inv g1)) g1)
    else g1
  else g.

Definition skillOf (category : string) : option SkillKey :=
  if String.eqb category "mineral" then Some mining
  else if String.eqb category "flower" then Some flower
  else if String.eqb category "tree" then Some harvesting
  else None.

(** [Game.decor.indexOf(d)] followed by [splice(idx, 1)]. *)
Fixpoint removeFirst (r : ref) (l : list ref) : list ref :=
  match l with
  | [] => []
  | a :: rest => if Nat.eqb a r then rest else a :: removeFirst r rest
  end.

(** Decrement remaining harvests and despawn if depleted. *)
Definition depleteDecor (r : ref) (gx gy : Z) (g : Game) : Game :=
  match objs g !! r with
  | None => g
  | Some d =>
      match remainingHarvests d with
      | None => g
      | Some n =>
          let n' := Z.max 0 (n - 1) in
          let g1 := set_objs (<[r := set_remainingHarvests n' d]> (objs g)) g in
          if n' =? 0 then
            (* free tile and remove from decor *)
            let g2 := set_world (mutTile (set_walkable true) gx gy (world g1)) g1 in
            let g3 := set_decor (removeFirst r (decor g2)) g2 in
            showFloatingText "Resource depleted" gx gy "#ef476f" g3
          else g1
      end
  end.

Definition finishGathering (g : Game) : Game :=
  match target (gather g) with
  | None => g
  | Some r =>
      match objs g !! r with
      | None => g
      | Some d =>
          let category := categoryOf d in
          let nodeName := nodeNameOf d in
          let gx := d_x d in
          let gy := d_y d in
          match ItemSystem.gather random category nodeName (rand g) with
          | (inl _, s') =>
              showFloatingText "Gather failed" gx gy "#ef476f" (set_rand s' g)
          | (inr gathered, s') =>
              let g1 := set_inv (recordGather gathered category nodeName (inv g))
                          (set_rand s' g) in
              let g2 := bonusSeed category d g1 in
              let text := "+1 " ++ ItemSystem.g_name gathered ++ " ("
                          ++ ItemSystem.g_rarity gathered ++ ", "
                          ++ ItemSystem.g_quality gathered ++ ")" in
              let g3 := showFloatingText text gx gy "#22c55e" g2 in
              let g4 := match skillOf category with
                        | Some k => awardSkillExp k 1 g3
                        | None => g3
                        end in
              (* drain 1 stamina for a successful decor gather *)
              let g5 := set_stamina (Mechanics.drain 1 (stamina g4)) g4 in
              depleteDecor r gx gy g5
          end
      end
  end.



(** *** Growth (real time) *)

(** [def.stageMs[plant.stage] || 0] *)
Definition stageNeeded (def : CropDef) (st : Z) : Q :=
  if st <? 0 then 0%Q else nth (Z.to_nat st) (stageMs def) 0%Q.

(** Water evaporation: [if (t.watered && now >= t.waterEndAt)]. *)
Definition evaporate (now : Q) (t : Tile) : Tile :=
  if watered t && Qgeb now (waterEndAt t) then set_water false 0 t else t.

(** Plant growth (only while watered); the flag tells whether the stage
    advanced. [plant.growthMs = (plant.growthMs || 0) + dtMs] is an addition
    of numbers. *)
Definition growPlant (dt : Q) (t : Tile) : Tile * bool :=
  match plant t with
  | Some p =>
      if watered t then
        let def := CROPS (p_type p) in
        let gm := JSNum.fadd (growthMs p) dt in
        let needed := stageNeeded def (stage p) in
        let canAdvance :=
          (stage p <? Z.of_nat (length (colors def)) - 1) && Qltb 0 needed in
        if canAdvance && Qgeb gm needed then
          (set_plant (Some {| p_type := p_type p; stage := stage p + 1;
                              growthMs := 0 |}) t, true)
        else
          (set_plant (Some {| p_type := p_type p; stage := stage p;
                              growthMs := gm |}) t, false)
      else (t, false)
  | None => (t, false)
  end.

(** What one pass of the loop body does to the tile object. *)
Definition tickTile (dt now : Q) (t : Tile) : Tile :=
  fst (growPlant dt (evaporate now t)).

(** The body of the two nested loops of [tickWorld] at [(x, y)]. *)
Definition tickAt (dt now : Q) (y : Z) (g : Game) (x : Z) : Game :=
  match tileAt (world g) x y with
  | None => g
  | Some t =>
      let '(t', grew) := growPlant dt (evaporate now t) in
      let g1 := set_world (mutTile (fun _ => t') x y (world g)) g in
      if grew then showFloatingText "+Growth" x y "#a3e635" g1 else g1
  end.

Definition tickWorld (dt now : Q) (g : Game) : Game :=
  fold_left
    (fun g y => fold_left (tickAt dt now y) (seqZ 0 WORLD_W) g)
    (seqZ 0 WORLD_H) g.

(** *** Save / load of the world grid *)

Record SerPlant := { pl_ty : CropKind; pl_st : Z; pl_gm : Z }.

(** One serialized tile: [{ i, ti, wa, wr, pl, w }]. *)
Record SerTile := {
  ser_i : Z;
  ser_ti : Z;
  ser_wa : Z;
  ser_wr : Z;                 (* remaining water ms *)
  ser_pl : option SerPlant;
  ser_w : Z
}.

Definition flag (b : bool) : Z := if b then 1 else 0.

(** [!!n] for a number [n] *)
Definition truthy (n : Z) : bool := negb (n =? 0).

Definition serializeTile (now : Q) (t : Tile) : SerTile :=
  {| ser_i := tileId t;
     ser_ti := flag (tilled t);
     ser_wa := flag (watered t);
     ser_wr := if watered t
               then Z.max 0 (Qfloor (fsub (waterEndAt t) now)) else 0;
     ser_pl := match plant t with
               | Some p => Some {| pl_ty := p_type p; pl_st := stage p;
                                   pl_gm := Qfloor (growthMs p) |}
               | None => None
               end;
     ser_w := flag (walkable t) |}.

(** [serializeWorld()]: [None] stands for the [TypeError] raised when
    [tileAt] returns [null] inside the loops. *)
Definition serializeWorld (now : Q) (w : Grid) : option (list (list SerTile)) :=
  mapM (fun y =>
          mapM (fun x => serializeTile now <$> tileAt w x y) (seqZ 0 WORLD_W))
       (seqZ 0 WORLD_H).

Definition deserializeTile (now : Q) (x y : Z) (r : SerTile) : Tile :=
  let t := makeTile x y (ser_i r) in
  let wat := truthy (ser_wa r) in
  {| tileId := tileId t;
     tilled := truthy (ser_ti r);
     watered := wat;
     waterEndAt := if wat then fadd now (inject_Z (ser_wr r)) else 0%Q;
     plant := match ser_pl r with
              | Some sp => Some {| p_type := pl_ty sp; stage := pl_st sp;
                                   growthMs := inject_Z (pl_gm sp) |}
              | None => None
              end;
     coord := coord t;
     walkable := truthy (ser_w r) |}.

(** [deserializeWorld(rows)]: absent [rows] keep the current world; [None]
    stands for the [TypeError] raised when [rows[y][x]] is missing. *)
Definition deserializeWorld (now : Q) (rows : option (list (list SerTile)))
    (current : Grid) : option Grid :=
  match rows with
  | None => Some current
  | Some rows =>
      mapM (fun y =>
              mapM (fun x =>
                      r ← (row ← rows !! Z.to_nat y; row !! Z.to_nat x);
                      Some (deserializeTile now x y r))
                   (seqZ 0 WORLD_W))
           (seqZ 0 WORLD_H)
  end.

(** *** Realtime presence: reconciliation of remote-player views *)

Definition mkView (rx' ry' : Q) (tx' ty' : Z) (vx' vy' : Q) (f : Dir)
    (lu : Q) : View :=
  {| rx := rx'; ry := ry'; tx := tx'; ty := ty'; vx := vx'; vy := vy';
     v_facing := f; lastUpdate := lu |}.

(** [ensureOtherView(uid, o)]: the view kept for [uid], or a fresh one at
    [o]; [created] is the [performance.now()] read when a view is made. *)
Definition ensureOtherView (created : Q) (uid : string) (ox oy : Z) (f : Dir)
    (views : gmap string View) : View :=
  match views !! uid with
  | Some v => v
  | None => mkView (inject_Z ox) (inject_Z oy) ox oy 0 0 f created
  end.

(** The update of one view in the presence [sync] handler. *)
Definition syncView (now : Q) (ox oy : Z) (v : View) : View :=
  let dtSec := Qmax 0.001 ((now - lastUpdate v) / 1000) in
  let dx := ox - tx v in
  let dy := oy - ty v in
  (* set new target from server; estimate velocity, ignore large teleports *)
  let v1 :=
    if (Z.abs dx <=? 3) && (Z.abs dy <=? 3) then
      mkView (rx v) (ry v) ox oy (inject_Z dx / dtSec) (inject_Z dy / dtSec)
             (v_facing v) (lastUpdate v)
    else
      (* snap to target on teleport *)
      mkView (inject_Z ox) (inject_Z oy) ox oy 0 0 (v_facing v) (lastUpdate v) in
  (* update facing based on server delta *)
  let f :=
    if Z.abs dy <=? Z.abs dx then
      if 0 <? dx then Right else if dx <? 0 then Left else v_facing v1
    else
      if 0 <? dy then Down else if dy <? 0 then Up else v_facing v1 in
  mkView (rx v1) (ry v1) (tx v1) (ty v1) (vx v1) (vy v1) f now.

(** The update of one view in the [movement] broadcast handler. *)
Definition movementView (now : Q) (ox oy : Z) (pf : option Dir) (v : View) : View :=
  let lu := if Qeq_bool (lastUpdate v) 0 then now else lastUpdate v in
  let dtSec := Qmax 0.001 ((now - lu) / 1000) in
  let dx := ox - tx v in
  let dy := oy - ty v in
  let v1 :=
    if (Z.abs dx <=? 3) && (Z.abs dy <=? 3) then
      mkView (rx v) (ry v) ox oy (inject_Z dx / dtSec) (inject_Z dy / dtSec)
             (v_facing v) (lastUpdate v)
    else
      mkView (inject_Z ox) (inject_Z oy) ox oy 0 0 (v_facing v) (lastUpdate v) in
  mkView (rx v1) (ry v1) (tx v1) (ty v1) (vx v1) (vy v1)
         (default (v_facing v1) pf) now.

(** A presence meta [{ x, y, facing, username, ts }] and a movement payload
    [{ uid, x, y, facing, username, ts }]; absent strings are [""], an
    absent [ts] is [0]. *)
Record Meta := {
  m_x : Q;
  m_y : Q;
  m_username : string;
  m_ts : Z
}.

Record Payload := {
  pay_uid : string;
  pay_x : Q;
  pay_y : Q;
  pay_facing : option Dir;
  pay_username : string;
  pay_ts : Z
}.

Definition orString (a b : string) : string :=
  if String.eqb a "" then b else a.

Definition orDate (ts dateNow : Z) : Z := if ts =? 0 then dateNow else ts.

(** One iteration of the loop over [Object.entries(state)] in the [sync]
    handler; [self] is [__Presence.uid || 'anon']. *)
Definition syncPeer (self : string) (now created : Q) (dateNow : Z)
    (acc : gmap string Other * gmap string View)
    (entry : string * list Meta) : gmap string Other * gmap string View :=
  let '(os, views) := acc in
  let '(uid, metas) := entry in
  if String.eqb uid self then acc
  else
    match List.last (map Some metas) None with
    | None => acc
    | Some meta =>
        let ox := Qfloor (m_x meta) in
        let oy := Qfloor (m_y meta) in
        let o := {| o_x := ox; o_y := oy;
                    username := orString (m_username meta) "Player";
                    lastSeen := orDate (m_ts meta) dateNow |} in
        let v := ensureOtherView created uid ox oy Down views in
        (<[uid := o]> os, <[uid := syncView now ox oy v]> views)
    end.

Definition onPresenceSync (self : string) (now created : Q) (dateNow : Z)
    (state : list (string * list Meta)) (g : Game) : Game :=
  let '(os, views) :=
    fold_left (syncPeer self now created dateNow) state (∅, othersView g) in
  (* assign new others set; GC stale views not present anymore *)
  set_othersView (filter (fun kv => is_Some (os !! kv.1)) views)
    (set_others os g).

Definition onMovement (self : string) (now created : Q) (dateNow : Z)
    (payload : option Payload) (g : Game) : Game :=
  match payload with
  | None => g
  | Some p =>
      let uid := pay_uid p in
      if String.eqb uid "" then g
      else if String.eqb uid self then g
      else
        let ox := Qfloor (pay_x p) in
        let oy := Qfloor (pay_y p) in
        let prevName :=
          match others g !! uid with
          | Some o => orString (username o) "Player"
          | None => "Player"
          end in
        let o := {| o_x := ox; o_y := oy;
                    username := orString (pay_username p) prevName;
                    lastSeen := orDate (pay_ts p) dateNow |} in
        let v := ensureOtherView created uid ox oy
                   (default Down (pay_facing p)) (othersView g) in
        set_othersView
          (<[uid := movementView now ox oy (pay_facing p) v]> (othersView g))
          (set_others (<[uid := o]> (others g)) g)
  end.

(** *** Runs and well-formedness *)




(** *** A small concrete world

    Grass everywhere; a rose at (5,5), an oak at (6,5) and copper ore at
    (7,5), the last two on tiles made non-walkable as [generateWorld] does;
    the player stands at (5,6) with full stamina. *)
Definition grassWorld : Grid :=
  (fun y => (fun x => makeTile x y TILE_Grass) <$> seqZ 0 WORLD_W)
    <$> seqZ 0 WORLD_H.

Definition mkDecor (x y : Z) (ty kd : string) (n : Z) : Decor :=
  {| d_x := x; d_y := y; d_type := ty; kind := kd; animOffset := 0;
     maxHarvests := Some n; remainingHarvests := Some n |}.

Definition defaultSkills : Skills :=
  {| sk_mining := {| level := 1; exp := 0 |};
     sk_flower := {| level := 1; exp := 0 |};
     sk_harvesting := {| level := 1; exp := 0 |} |}.

Definition demoGame : Game :=
  {| tool := Hoe;
     stamina := {| Mechanics.stamina_max := 100;
                   Mechanics.stamina_current := 100;
                   Mechanics.lastRegenAt := Some 0 |};
     inv := {| items := ∅; gitems := ∅; itemMeta := ∅ |};
     world := mutTile (set_walkable false) 7 5
                (mutTile (set_walkable false) 6 5 grassWorld);
     objs := <[0%nat := mkDecor 5 5 "flowers" "Rose" 1]>
               (<[1%nat := mkDecor 6 5 "Trees" "Oak" 3]>
                  (<[2%nat := mkDecor 7 5 "minerals" "Copper Ore" 2]> ∅));
     decor := [0; 1; 2]%nat;
     player := {| p_x := 5; p_y := 6; facing := Up; lastMoveAt := 0 |};
     gather := {| active := false; target := None; startAt := 0;
                  duration := GATHER_TIME_MS; progress := 0 |};
     floaties := [];
     skills := defaultSkills;
     rand := {| draws := fun _ => 0.5%Q; consumed := 0 |};
     others := ∅;
     othersView := ∅ |}.

(** A watered turnip seedling, 10 ms short of its first stage, at (0,0). *)
Definition seedlingTile : Tile :=
  {| tileId := TILE_Soil; tilled := true; watered := true;
     waterEndAt := 60000;
     plant := Some {| p_type := turnip; stage := 0; growthMs := 7990 |};
     coord := (0, 0); walkable := true |}.

Definition farmGame : Game :=
  set_world (mutTile (fun _ => seedlingTile) 0 0 (world demoGame)) demoGame.

(** The same game while a gather on decoration [r] is in progress. *)
Definition gatheringGame (r : ref) : Game :=
  set_gather {| active := true; target := Some r; startAt := 0;
                duration := GATHER_TIME_MS; progress := 0 |} demoGame.


(** A tile watered until 1000 ms on the frame clock, and a grid with it at
    (0,0). *)
Definition overdueTile : Tile :=
  {| tileId := TILE_Soil; tilled := true; watered := true;
     waterEndAt := 1000; plant := None; coord := (0, 0); walkable := true |}.

Definition overdueWorld : Grid := mutTile (fun _ => overdueTile) 0 0 grassWorld.


End World.

(** ** preloader.js: the deterministic generator behind [Game.rng] *)

Module Rng.

(** [ToInt32] and [ToUint32] of an integral JavaScript number. *)
Definition toInt32 (z : Z) : Z := (z + 2 ^ 31) mod 2 ^ 32 - 2 ^ 31.
Definition toUint32 (z : Z) : Z := z mod 2 ^ 32.

(** [Math.imul(a, b)] *)
Definition imul (a b : Z) : Z := toInt32 (toInt32 a * toInt32 b).

(** [a ^ b] and [a | b] *)
Definition bxor (a b : Z) : Z := Z.lxor (toInt32 a) (toInt32 b).
Definition bor (a b : Z) : Z := Z.lor (toInt32 a) (toInt32 b).

(** [a >>> n] *)
Definition ushr (a n : Z) : Z := Z.shiftr (toUint32 a) n.

(** One call of the closure returned by [mulberry32(seed)]: the draw and
    the value left in the captured [seed] (a number that the code never
    wraps; it is an exact integer). *)
Definition mulberry32 (seed : Z) : Q * Z :=
  let seed' := seed + 0x6D2B79F5 in
  let t := seed' in
  let t := imul (bxor t (ushr t 15)) (bor t 1) in
  let t := bxor t (t + imul (bxor t (ushr t 7)) (bor t 61)) in
  ((inject_Z (ushr (bxor t (ushr t 14)) 0) / 4294967296)%Q, seed').

(** [Math.floor(rand() * n)] *)
Definition index (v : Q) (n : Z) : Z := Qfloor (v * inject_Z n).

End Rng.

(** ** preloader.js and mechanics.js: farming, the shop, the seller, helpers

    The part of the [Game] singleton that farming and trading use on top
    of [World.Game]: the generator state of [Game.rng], the legacy [coins]
    and the [currencies] object (absent until [Mechanics.init] or a sale
    creates it), the equipped seed, the seed and crop stacks of [Game.inv]
    (objects keyed by crop type) and the [name] property that decoration
    objects of type ['npc'] carry. *)

Module Farm.
Import JSString JSNum World.

Record Currencies := { cash : Z; junk : Z; ada : Z }.

Record Session := {
  game : Game;
  rngSeed : Z;
  coins : Z;
  currencies : option Currencies;
  equippedSeed : option CropKind;
  seeds : gmap string Z;
  crops : gmap string Z;
  names : gmap ref string
}.

Definition set_game (v : Game) (st : Session) : Session :=
  {| game := v; rngSeed := rngSeed st; coins := coins st;
     currencies := currencies st; equippedSeed := equippedSeed st;
     seeds := seeds st; crops := crops st; names := names st |}.

Definition set_rngSeed (v : Z) (st : Session) : Session :=
  {| game := game st; rngSeed := v; coins := coins st;
     currencies := currencies st; equippedSeed := equippedSeed st;
     seeds := seeds st; crops := crops st; names := names st |}.

Definition set_money (c : Z) (cur : option Currencies) (st : Session) : Session :=
  {| game := game st; rngSeed := rngSeed st; coins := c;
     currencies := cur; equippedSeed := equippedSeed st;
     seeds := seeds st; crops := crops st; names := names st |}.

Definition set_seeds (v : gmap string Z) (st : Session) : Session :=
  {| game := game st; rngSeed := rngSeed st; coins := coins st;
     currencies := currencies st; equippedSeed := equippedSeed st;
     seeds := v; crops := crops st; names := names st |}.

Definition set_crops (v : gmap string Z) (st : Session) : Session :=
  {| game := game st; rngSeed := rngSeed st; coins := coins st;
     currencies := currencies st; equippedSeed := equippedSeed st;
     seeds := seeds st; crops := v; names := names st |}.

Definition set_names (v : gmap ref string) (st : Session) : Session :=
  {| game := game st; rngSeed := rngSeed st; coins := coins st;
     currencies := currencies st; equippedSeed := equippedSeed st;
     seeds := seeds st; crops := crops st; names := v |}.

(** A mutation of the [World.Game] part. *)
Definition onGame (f : Game -> Game) (st : Session) : Session :=
  set_game (f (game st)) st.

(** The keys every object literal inherits from [Object.prototype]: a
    lookup [table[key]] in [CROPS], or in a dictionary such as
    [Game.othersView], is not [undefined] for them. *)
Definition inheritedKeys : list string :=
  ["constructor"; "__proto__"; "hasOwnProperty"; "isPrototypeOf";
   "propertyIsEnumerable"; "toLocaleString"; "toString"; "valueOf";
   "__defineGetter__"; "__defineSetter__"; "__lookupGetter__";
   "__lookupSetter__"].

Definition inheritedKey (s : string) : bool :=
  existsb (String.eqb s) inheritedKeys.

(** No stack under an inherited key. *)
Definition plainStacks (m : gmap string Z) : Prop :=
  forall k, inheritedKey k = true -> m !! k = None.

(** The keys of [CROPS] as the strings they are. *)
Definition cropKey (k : CropKind) : string :=
  match k with
  | turnip => "turnip"
  | wheat => "wheat"
  | corn => "corn"
  end.

(** [CROPS[type]], absent for any other string. *)
Definition cropOfKey (s : string) : option CropKind :=
  if String.eqb s "turnip" then Some turnip
  else if String.eqb s "wheat" then Some wheat
  else if String.eqb s "corn" then Some corn
  else None.

(** *** mechanics.js: currencies *)

(** [Mechanics.addCurrency(type, amount)]: only an own property of the
    currencies object is touched. *)
Definition addCurrency (type : string) (amount : Z) (c : Currencies) : Currencies :=
  if String.eqb type "cash" then
    {| cash := cash c + amount; junk := junk c; ada := ada c |}
  else if String.eqb type "junk" then
    {| cash := cash c; junk := junk c + amount; ada := ada c |}
  else if String.eqb type "ada" then
    {| cash := cash c; junk := junk c; ada := ada c + amount |}
  else c.

(** [Game.currencies], created from the legacy [coins] when absent:
    [{ cash: Game.coins ?? 0, junk: 0, ada: 0 }]. *)
Definition ensureCurrencies (st : Session) : Currencies :=
  default {| cash := coins st; junk := 0; ada := 0 |} (currencies st).

Definition withCash (v : Z) (c : Currencies) : Currencies :=
  {| cash := v; junk := junk c; ada := ada c |}.

(** *** Harvest counters of decorations *)

(** [initialHarvestCountersForType(category)]; the draw comes from
    [Game.rng]. *)
Definition initialHarvestCountersForType (category : string) (seed : Z)
    : (Z * Z) * Z :=
  if String.eqb category "flowers" then ((1, 1), seed)
  else if String.eqb category "Trees" then
    let '(v, seed') := Rng.mulberry32 seed in
    let mx := Rng.index v 3 + 3 in          (* 3-5 *)
    ((mx, mx), seed')
  else if String.eqb category "minerals" then
    let '(v, seed') := Rng.mulberry32 seed in
    let mx := Rng.index v 3 + 1 in          (* 1-3 *)
    ((mx, mx), seed')
  else ((1, 1), seed).

Definition set_counters (mx rem : Z) (d : Decor) : Decor :=
  {| d_x := d_x d; d_y := d_y d; d_type := d_type d; kind := kind d;
     animOffset := animOffset d; maxHarvests := Some mx;
     remainingHarvests := Some rem |}.

(** The body of the loop of [ensureDecorHarvestCounters] for the entry
    [r] of [Game.decor]. *)
Definition ensureCountersAt (acc : gmap ref Decor * Z) (r : ref)
    : gmap ref Decor * Z :=
  let '(os, seed) := acc in
  match os !! r with
  | None => acc
  | Some d =>
      match maxHarvests d, remainingHarvests d with
      | Some _, Some _ => acc
      | _, rem0 =>
          let '((mx, rem), seed') := initialHarvestCountersForType (d_type d) seed in
          let rem' := match rem0 with
                      | Some n => Z.max 0 (Z.min n mx)
                      | None => rem
                      end in
          (<[r := set_counters mx rem' d]> os, seed')
      end
  end.

Definition ensureDecorHarvestCounters (st : Session) : Session :=
  let '(os, seed) :=
    fold_left ensureCountersAt (decor (game st)) (objs (game st), rngSeed st) in
  set_rngSeed seed (onGame (set_objs os) st).

(** What [ensureDecorHarvestCounters] makes of a decoration [d]: one that
    has both counters is left alone; any other gets a maximum fit for its
    type (flowers 1, trees 3 to 5, minerals 1 to 3, anything else 1) and
    remaining harvests equal to it, or its old number clamped into
    [0, maximum]. *)
Definition countersEnsured (d d' : Decor) : Prop :=
  match maxHarvests d, remainingHarvests d with
  | Some _, Some _ => d' = d
  | _, rem0 =>
      exists mx rem,
        d' = set_counters mx rem d
        /\ 1 <= mx <= 5 /\ 0 <= rem <= mx
        /\ (d_type d = "flowers" -> mx = 1)
        /\ (d_type d = "Trees" -> 3 <= mx <= 5)
        /\ (d_type d = "minerals" -> 1 <= mx <= 3)
        /\ (rem0 = None -> rem = mx)
        /\ (forall n, rem0 = Some n -> rem = Z.max 0 (Z.min n mx))
  end.

Definition hasCounters (d : Decor) : Prop :=
  is_Some (maxHarvests d) /\ is_Some (remainingHarvests d).

(** *** Tools *)

Definition setTool (t : Tool) (st : Session) : Session := onGame (set_tool t) st.

Definition frontTileCoords (g : Game) : Z * Z :=
  let '(dx, dy) := dirDelta (facing (player g)) in
  (p_x (player g) + dx, p_y (player g) + dy).

Definition isMature (p : Plant) : bool :=
  Z.of_nat (length (colors (CROPS (p_type p)))) - 1 <=? stage p.

Definition set_tilled (b : bool) (t : Tile) : Tile :=
  {| tileId := tileId t; tilled := b; watered := watered t;
     waterEndAt := waterEndAt t; plant := plant t; coord := coord t;
     walkable := walkable t |}.

Definition hasPlant (t : Tile) : bool :=
  match plant t with Some _ => true | None => false end.

(** Tiles that agree on every field but the ones named. *)
Definition sameButTilled (t t' : Tile) : Prop :=
  tileId t' = tileId t /\ watered t' = watered t
  /\ waterEndAt t' = waterEndAt t /\ plant t' = plant t
  /\ coord t' = coord t /\ walkable t' = walkable t.

Definition sameButWater (t t' : Tile) : Prop :=
  tileId t' = tileId t /\ tilled t' = tilled t /\ plant t' = plant t
  /\ coord t' = coord t /\ walkable t' = walkable t.

Definition sameButPlant (t t' : Tile) : Prop :=
  tileId t' = tileId t /\ tilled t' = tilled t /\ watered t' = watered t
  /\ waterEndAt t' = waterEndAt t /\ coord t' = coord t
  /\ walkable t' = walkable t.

Definition sameButPlantTilled (t t' : Tile) : Prop :=
  tileId t' = tileId t /\ watered t' = watered t
  /\ waterEndAt t' = waterEndAt t /\ coord t' = coord t
  /\ walkable t' = walkable t.

(** *** The Prophecy Seller *)

Definition rarityMult (r : string) : Q :=
  let r := toLowerCase (orString r "Unknown") in
  if String.eqb r "common" then 1
  else if String.eqb r "uncommon" then 1.5
  else if String.eqb r "rare" then 3
  else if String.eqb r "epic" then 6
  else if String.eqb r "legendary" then 12
  else if String.eqb r "mythic" then 20
  else if String.eqb r "godlike" then 40
  else 0.75.

Definition qualityMult (q : string) : Q :=
  let q := toLowerCase (orString q "Unknown") in
  if String.eqb q "poor" then 0.6
  else if String.eqb q "common" then 1
  else if String.eqb q "good" then 1.25
  else if String.eqb q "excellent" then 1.75
  else if String.eqb q "pristine" then 2.25
  else if String.eqb q "dull" then 0.6
  else if String.eqb q "normal" then 1
  else if String.eqb q "refined" then 1.5
  else if String.eqb q "exquisite" then 3
  else 1.

(** [__categoryBase(name)], read off the metadata of the last gather. *)
Definition categoryBase (iv : Inventory) (name : string) : Z :=
  let cat := toLowerCase
               (default "" (ls_category <$> (itemMeta iv !! name ≫= last))) in
  if String.eqb cat "mineral" || String.eqb cat "minerals" then 15
  else if String.eqb cat "tree" || String.eqb cat "wood" || String.eqb cat "fruit"
  then 12
  else if String.eqb cat "flower" || String.eqb cat "flowers" then 8
  else 10.

(** [Math.round] *)
Definition jsRound (q : Q) : Z := Qfloor (q + 0.5).

Definition computeProphecyPrice (iv : Inventory) (baseName rarity quality : string)
    : Z :=
  let base := categoryBase iv baseName in
  Z.max 1 (jsRound (inject_Z base * rarityMult rarity * qualityMult quality)).

(** [key.split('__')]: the first part and the parts after it. *)
Fixpoint splitKey (s : string) : string * list string :=
  match s with
  | EmptyString => (EmptyString, [])
  | String c s' =>
      match s' with
      | String c' r =>
          if Ascii.eqb c "_" && Ascii.eqb c' "_" then
            (EmptyString, let '(h, t) := splitKey r in h :: t)
          else
            let '(h, t) := splitKey s' in (String c h, t)
      | EmptyString => (String c EmptyString, [])
      end
  end.

(** The parts as [sellAllToProphecySeller] reads them: [parts[0] || 'Item'],
    [parts[1] || 'Unknown'], [parts[2] || 'Unknown']. *)
Definition parseKey (key : string) : string * string * string :=
  let '(h, t) := splitKey key in
  (orString h "Item", orString (nth 0 t "") "Unknown",
   orString (nth 1 t "") "Unknown").

(** The strings without an underscore: item names, rarities and qualities
    as [ItemSystem] produces them are of this kind. *)
Fixpoint noUnderscore (s : string) : bool :=
  match s with
  | EmptyString => true
  | String c s' => negb (Ascii.eqb c "_") && noUnderscore s'
  end.

(** One of the four loops of [sellAllToProphecySeller] over the entries of
    a stack object: what the positive stacks bring and how many items they
    hold. *)
Definition sellStacks (price : string -> Z) (m : gmap string Z) : Z * Z :=
  map_fold (fun k c acc =>
              if 0 <? c then (fst acc + price k * c, snd acc + c) else acc)
           (0, 0) m.

(** ... and the stacks after it: [m[k] = 0] for the positive ones. *)
Definition emptied (m : gmap string Z) : gmap string Z :=
  (fun c => if 0 <? c then 0 else c) <$> m.

Definition gitemPrice (iv : Inventory) (key : string) : Z :=
  let '(baseName, rarity, quality) := parseKey key in
  computeProphecyPrice iv baseName rarity quality.

Definition itemPrice (iv : Inventory) (baseName : string) : Z :=
  let lst := itemMeta iv !! baseName ≫= last in
  computeProphecyPrice iv baseName
    (orString (default "" (ls_rarity <$> lst)) "Unknown")
    (orString (default "" (ls_quality <$> lst)) "Unknown").

(** [def ? def.sellPrice : 5] with [def = CROPS[type]]. For a key of
    [inheritedKeys], [def] is an inherited member without a [sellPrice] and
    the price is not a number: the properties below that depend on it
    exclude such crop stacks ([plainStacks]). *)
Definition cropPrice (type : string) : Z :=
  match cropOfKey type with
  | Some k => sellPrice (CROPS k)
  | None => 5
  end.

(** Seeds sell at 50% of the seed price; for an inherited member,
    [def.seedPrice || 0] is 0 and the price [Math.max(1, 0)]. *)
Definition seedSalePrice (type : string) : Z :=
  match cropOfKey type with
  | Some k => Z.max 1 (jsRound (inject_Z (seedPrice (CROPS k)) * 0.5))
  | None => if inheritedKey type then 1 else 2
  end.

(** [sellAllToProphecySeller()]: [(totalCash, totalItems)] and the state
    it leaves. *)
Definition sellAllToProphecySeller (st : Session) : (Z * Z) * Session :=
  let iv := inv (game st) in
  let '(c1, n1) := sellStacks (gitemPrice iv) (gitems iv) in
  let '(c2, n2) := sellStacks (itemPrice iv) (items iv) in
  let '(c3, n3) := sellStacks cropPrice (crops st) in
  let '(c4, n4) := sellStacks seedSalePrice (seeds st) in
  let totalCash := c1 + c2 + c3 + c4 in
  let totalItems := n1 + n2 + n3 + n4 in
  let cur := ensureCurrencies st in
  let cash' := cash cur + totalCash in
  let iv' := {| items := emptied (items iv); gitems := emptied (gitems iv);
                itemMeta := itemMeta iv |} in
  ((totalCash, totalItems),
   {| game := set_inv iv' (game st); rngSeed := rngSeed st;
      coins := cash'; currencies := Some (withCash cash' cur);
      equippedSeed := equippedSeed st;
      seeds := emptied (seeds st); crops := emptied (crops st);
      names := names st |}).

(** *** [interactFront] *)

(** The seller's branch. *)
Definition npcInteract (r : ref) (x y : Z) (st : Session) : Session :=
  let '((totalCash, totalItems), st1) := sellAllToProphecySeller st in
  let npcName := orString (default "" (names st !! r)) "Prophecy Seller" in
  if 0 <? totalItems then
    onGame (showFloatingText (npcName ++ ": +" ++ pretty totalCash ++ "c")
              x y "#ffd166") st1
  else
    onGame (showFloatingText (npcName ++ ": Nothing to buy") x y "#ef476f") st1.

(** Harvest of a mature plant with the hand. *)
Definition harvestCrop (p : Plant) (x y : Z) (st : Session) : Session :=
  let g := game st in
  (* stamina check: require at least 1 to harvest crops *)
  if Mechanics.stamina_current (stamina g) <? 1 then
    onGame (showFloatingText "Out of stamina" x y "#ef476f") st
  else
    let type := p_type p in
    (* the tile remains tilled after harvest *)
    let g1 := set_world
                (mutTile (fun t => set_tilled true (set_plant None t)) x y (world g))
                g in
    let g2 := showFloatingText ("+1 " ++ display (CROPS type)) x y "#ffd166" g1 in
    let g3 := awardSkillExp harvesting 1 g2 in
    (* drain 1 stamina for a successful crop harvest *)
    let g4 := set_stamina (Mechanics.drain 1 (stamina g3)) g3 in
    set_crops (bump (cropKey type) (crops st)) (set_game g4 st).

(** Planting of the equipped seed on a tilled tile without a plant. *)
Definition plantSeed (seed : CropKind) (x y : Z) (st : Session) : Session :=
  let n := default 0 (seeds st !! cropKey seed) in
  if 0 <? n then
    let g := game st in
    let g1 := set_world
                (mutTile (set_plant (Some {| p_type := seed; stage := 0;
                                             growthMs := 0 |})) x y (world g))
                g in
    let g2 := showFloatingText ("Planted " ++ display (CROPS seed)) x y
                "#7bd389" g1 in
    set_seeds (<[cropKey seed := n - 1]> (seeds st)) (set_game g2 st)
  else
    onGame (showFloatingText "No seeds" x y "#ef476f") st.

(** The tool behaviours on the tile [t] in front. *)
Definition useTool (now : Q) (x y : Z) (t : Tile) (st : Session) : Session :=
  match tool (game st) with
  | Hoe =>
      (* only on soil base *)
      if (tileId t =? TILE_Soil) && negb (tilled t) && negb (hasPlant t) then
        onGame (fun g =>
                  showFloatingText "Tilled" x y "#d5b895"
                    (set_world (mutTile (set_tilled true) x y (world g)) g)) st
      else st
  | Water =>
      if tilled t then
        onGame (fun g =>
                  showFloatingText "Watered" x y "#79c0ff"
                    (set_world
                       (mutTile (set_water true (fadd now WATER_DURATION_MS)) x y
                          (world g)) g)) st
      else st
  | Hand =>
      match plant t with
      | Some p =>
          (* harvest if mature *)
          if isMature p then harvestCrop p x y st else st
      | None =>
          (* plant if we have a seed equipped *)
          match equippedSeed st with
          | Some seed => if tilled t then plantSeed seed x y st else st
          | None => st
          end
      end
  end.

Definition isHand (t : Tool) : bool :=
  match t with Hand => true | _ => false end.

(** [interactFront()], with [performance.now()] passed in. A missing tile
    object inside the bounds (no grid of the game's shape has one) makes
    the tool branches raise before they change anything. *)
Definition interactFront (now : Q) (st : Session) : Session :=
  let g := game st in
  let '(x, y) := frontTileCoords g in
  if negb (inBounds x y) then st
  else
    let viaTool :=
      match tileAt (world g) x y with
      | Some t => useTool now x y t st
      | None => st
      end in
    match decorAt g x y with
    | Some r =>
        match objs g !! r with
        | Some d =>
            if String.eqb (d_type d) "npc" then npcInteract r x y st
            else if isHand (tool g) && isGatherType d then
              if active (gather g) then st
              else onGame (startGathering now r) st
            else viaTool
        | None => viaTool
        end
    | None => viaTool
    end.

(** The decoration [decorAt] finds in front, if any, is no seller, and no
    gatherable one while the hand is the tool: [interactFront] then comes
    to the tool behaviours. *)
Definition frontIsPlain (g : Game) (x y : Z) : Prop :=
  forall r d, decorAt g x y = Some r -> objs g !! r = Some d ->
    d_type d <> "npc" /\ (tool g = Hand -> isGatherType d = false).



(** [g'] differs from [g] in the tiles and the floating texts at most, and
    its grid has the game's shape if that of [g] has. *)
Definition sameButTiles (g g' : Game) : Prop :=
  tool g' = tool g /\ stamina g' = stamina g /\ inv g' = inv g
  /\ objs g' = objs g /\ decor g' = decor g /\ player g' = player g
  /\ gather g' = gather g /\ skills g' = skills g /\ rand g' = rand g
  /\ others g' = others g /\ othersView g' = othersView g
  /\ (grid_ok (world g) -> grid_ok (world g')).

(** [st'] differs from [st] in the game state at most. *)
Definition sameButGame (st st' : Session) : Prop :=
  rngSeed st' = rngSeed st /\ coins st' = coins st
  /\ currencies st' = currencies st /\ equippedSeed st' = equippedSeed st
  /\ seeds st' = seeds st /\ crops st' = crops st /\ names st' = names st.

(** *** The shop *)

(** The click handler of a "Buy 1 seeds" button. *)
Definition buySeed (k : CropKind) (st : Session) : Session :=
  let cashNow := match currencies st with
                 | Some c => cash c
                 | None => coins st
                 end in
  if seedPrice (CROPS k) <=? cashNow then
    let cur := ensureCurrencies st in
    set_seeds (bump (cropKey k) (seeds st))
      (set_money (coins st)
         (Some (withCash (cash cur - seedPrice (CROPS k)) cur)) st)
  else st.

(** The click handler of a "Sell 1" button. *)
Definition sellCrop (k : CropKind) (st : Session) : Session :=
  let n := default 0 (crops st !! cropKey k) in
  if 0 <? n then
    let cur := ensureCurrencies st in
    set_crops (<[cropKey k := n - 1]> (crops st))
      (set_money (coins st)
         (Some (withCash (cash cur + sellPrice (CROPS k)) cur)) st)
  else st.

(** The click handler of a "Sell All" button. *)
Definition sellAllCrop (k : CropKind) (st : Session) : Session :=
  let c := default 0 (crops st !! cropKey k) in
  if 0 <? c then
    let cur := ensureCurrencies st in
    set_crops (<[cropKey k := 0]> (crops st))
      (set_money (coins st)
         (Some (withCash (cash cur + sellPrice (CROPS k) * c) cur)) st)
  else st.

(** *** Gather candidates *)

(** [decorAt(x, y)] when [isDecorGatherable] accepts it. *)
Definition gatherableAt (g : Game) (x y : Z) : option ref :=
  match decorAt g x y with
  | Some r =>
      match objs g !! r with
      | Some d => if isDecorGatherable d then Some r else None
      | None => None
      end
  | None => None
  end.

(** [findGatherCandidate()]: the front tile first, then the player's own
    tile, then the four neighbours in the order of the two loops. *)
Definition findGatherCandidate (g : Game) : option ref :=
  let '(fx, fy) := frontTileCoords g in
  let px := p_x (player g) in
  let py := p_y (player g) in
  match gatherableAt g fx fy with
  | Some r => Some r
  | None =>
      match gatherableAt g px py with
      | Some r => Some r
      | None =>
          List.fold_left
            (fun acc dxy =>
               match acc with
               | Some r => Some r
               | None => gatherableAt g (px + fst dxy) (py + snd dxy)
               end)
            [(0, -1); (-1, 0); (1, 0); (0, 1)] None
      end
  end.

(** The click handler of the gather icon, [cand] being the candidate that
    [updateGatherUI] stored last. *)
Definition onGatherIconClick (now : Q) (cand : option ref) (g : Game) : Game :=
  match cand with
  | Some r => if active (gather g) then g else startGathering now r g
  | None => g
  end.

(** *** Customization: decorations added and removed at run time *)

(** The script declares [CUSTOM_TILESET], then [CUSTOM_DECORATIONS], whose
    initializer reads [tileSize] in the [points] of its [rock] entry. No
    script declares [tileSize], so evaluating the script stops there with a
    ReferenceError: [CUSTOM_DECORATIONS] and the [const]s after it stay
    uninitialised and [window.Customization] is never assigned, while the
    function declarations of the script, which are hoisted, exist.

    [getCustomDecoration(decorType).walkable !== false] in that state: the
    NPC special case reads [CUSTOM_TILESET.npc], which is not walkable;
    every other type reaches [CUSTOM_DECORATIONS[decorType]], which throws
    ([None]). *)
Definition getCustomDecoration (decorType : string) : option bool :=
  if String.eqb decorType "npc" then Some false else None.

(** [addCustomDecoration(x, y, decorType, name)] with a string (or no)
    name: a new decoration object at the end of [Game.decor]; then, if
    there is a tile at [(x, y)], its [walkable] is set after the type's
    definition. The flag tells whether the call threw; what it did before
    stays done. *)
Definition addCustomDecoration (x y : Z) (decorType name : string)
    (st : Session) : Session * bool :=
  let g := game st in
  let r := fresh (dom (objs g)) in
  let d := {| d_x := x; d_y := y; d_type := decorType; kind := "";
              animOffset := 0; maxHarvests := None;
              remainingHarvests := None |} in
  let g1 := set_decor (decor g ++ [r]) (set_objs (<[r := d]> (objs g)) g) in
  let nm := if String.eqb name "" then names st else <[r := name]> (names st) in
  match tileAt (world g1) x y with
  | None => (set_names nm (set_game g1 st), false)
  | Some _ =>
      match getCustomDecoration decorType with
      | Some w =>
          (set_names nm
             (set_game
                (set_world (mutTile (set_walkable w) x y (world g1)) g1) st),
           false)
      | None => (set_names nm (set_game g1 st), true)
      end
  end.

(** [spawnNPC(x, y, name)]: the call of [addCustomDecoration] sits in a
    [try] whose [catch] only logs. *)
Definition spawnNPC (x y : Z) (name : string) (st : Session) : Session :=
  fst (addCustomDecoration x y "npc" name st).

Definition standsAt (os : gmap ref Decor) (x y : Z) (r : ref) : bool :=
  match os !! r with
  | Some d => (d_x d =? x) && (d_y d =? y)
  | None => false
  end.

(** [removeCustomDecoration(x, y)] *)
Definition removeCustomDecoration (x y : Z) (g : Game) : Game :=
  set_world (mutTile (set_walkable true) x y (world g))
    (set_decor (List.filter (fun r => negb (standsAt (objs g) x y r)) (decor g)) g).

(** *** Presence: a peer leaves *)

Definition onPresenceLeave (key : string) (g : Game) : Game :=
  if String.eqb key "" then g
  else set_othersView (delete key (othersView g))
         (set_others (delete key (others g)) g).

(** Every peer has a view and every view a peer, and a view's target is
    its peer's tile. *)
Definition viewsTrack (g : Game) : Prop :=
  forall uid,
    (is_Some (others g !! uid) <-> is_Some (othersView g !! uid))
    /\ (forall o v, others g !! uid = Some o -> othersView g !! uid = Some v ->
          tx v = o_x o /\ ty v = o_y o).

(** No peer under an inherited key: for such a key [Game.othersView[uid]]
    and [others[id]] are inherited members, not entries. *)
Definition plainPeers (state : list (string * list Meta)) : Prop :=
  Forall (fun e => inheritedKey (fst e) = false) state.

Definition demoPeers : list (string * list Meta) :=
  [("u1", [{| m_x := 3; m_y := 4; m_username := "Ann"; m_ts := 1 |}]);
   ("me", [{| m_x := 5; m_y := 6; m_username := "Me"; m_ts := 2 |}])].

(** The concrete world with one peer, "u1" on the tile (3,4), and the view
    kept for it; a movement broadcast of that peer. *)
Definition peeredGame : Game :=
  set_othersView (<["u1" := mkView 3 4 3 4 0 0 Down 1000]> ∅)
    (set_others (<["u1" := {| o_x := 3; o_y := 4; username := "Ann";
                              lastSeen := 1 |}]> ∅) demoGame).

Definition demoPayload : Payload :=
  {| pay_uid := "u1"; pay_x := 4.5; pay_y := 4; pay_facing := Some Right;
     pay_username := ""; pay_ts := 7 |}.

(** *** Runs of the stamina poll *)

(** The poll of [__startStaminaRegen] at the instants [ts], in order. *)
Definition pollAt (ts : list Z) (st : Mechanics.Stamina) : Mechanics.Stamina :=
  fold_left (fun s t => Mechanics.regenTick t s) ts st.

(** *** A small concrete session

    The concrete world with the player at (5,6) facing the soil tile (5,7):
    bare soil with the hoe in hand ([fieldSession]), tilled and watered
    with the hand and turnip seeds ([sownSession]), and bearing a mature
    turnip ([ripeSession]). *)
Definition fieldGame : Game :=
  set_player {| p_x := 5; p_y := 6; facing := Down; lastMoveAt := 0 |}
    (set_world (mutTile (fun _ => makeTile 5 7 TILE_Soil) 5 7 (world demoGame))
       demoGame).

Definition fieldSession : Session :=
  {| game := fieldGame; rngSeed := 1337; coins := 50; currencies := None;
     equippedSeed := Some turnip; seeds := {[ "turnip" := 2 ]}; crops := ∅;
     names := ∅ |}.

Definition tilledTile : Tile :=
  {| tileId := TILE_Soil; tilled := true; watered := false; waterEndAt := 0;
     plant := None; coord := (5, 7); walkable := true |}.

Definition wateredTile : Tile :=
  {| tileId := TILE_Soil; tilled := true; watered := true;
     waterEndAt := 60000; plant := None; coord := (5, 7); walkable := true |}.

Definition ripeTile : Tile :=
  {| tileId := TILE_Soil; tilled := true; watered := true;
     waterEndAt := 60000;
     plant := Some {| p_type := turnip; stage := 2; growthMs := 0 |};
     coord := (5, 7); walkable := true |}.

(** The field tilled, with the watering can in hand. *)
Definition tilledSession : Session :=
  onGame (fun g =>
            set_tool Water
              (set_world (mutTile (fun _ => tilledTile) 5 7 (world g)) g))
    fieldSession.

Definition sownSession : Session :=
  onGame (fun g =>
            set_tool Hand
              (set_world (mutTile (fun _ => wateredTile) 5 7 (world g)) g))
    fieldSession.

Definition ripeSession : Session :=
  onGame (fun g =>
            set_world (mutTile (fun _ => ripeTile) 5 7 (world g)) g)
    sownSession.

End Farm.

(** ** The gather system: the other resolvers and [harvest]

    [GatherSystem.baseTreeName] has the text of [ItemSystem.baseTreeName],
    which stands for it here; [instanceId] and [createdAt] (clock and
    counter) are left out as in [ItemSystem.Gathered]. *)

Module Harvest.
Import JSString JSNum ItemList GatherSystem.

(** The shape of a slug: lower-case letters and digits, with single
    underscores between them; [afterUnderscore] tells that no underscore may
    come first. *)
Fixpoint slugShape (s : string) (afterUnderscore : bool) : bool :=
  match s with
  | EmptyString => true
  | String c r =>
      if is_slug_char c then slugShape r false
      else Ascii.eqb c "_" && negb afterUnderscore && slugShape r true
  end.

(** [findByName(category, itemName)], and the fallback entry added when it
    finds nothing. *)
Definition findOrAdd (c : Category) (prefix itemName icon : string)
    (cat : Catalog) : Tuple * Catalog :=
  match findByName c itemName cat with
  | Some t => (t, cat)
  | None =>
      let t := {| itemID := makeId prefix itemName; name := itemName;
                  imageLink := icon |} in
      (t, add c t cat)
  end.

(** [resolveTreeTuple(nodeName)]; priority: Sakura Blossom, fruit, wood. *)
Definition resolveTreeTuple (nodeName : string) (cat : Catalog) : Tuple * Catalog :=
  let base := ItemSystem.baseTreeName nodeName in
  let sakura := String.eqb (toLowerCase base) "sakura" in
  let fallback (itemName : string) :=
    findOrAdd trees "tree_fallback" itemName
      (if String.eqb itemName "Sakura Blossom" then "assets/tree/Sakura.png"
       else "") cat in
  if sakura then fallback "Sakura Blossom"
  else
    match findByName trees base cat with
    | Some fruit => (fruit, cat)
    | None => fallback (base ++ " Wood")
    end.

(** [resolveMineralTuple(nodeName)] *)
Definition resolveMineralTuple (nodeName : string) (cat : Catalog) : Tuple * Catalog :=
  let base := normalizeName nodeName in
  findOrAdd minerals "mineral_fallback" base
    ("assets/minerals/" ++ base ++ ".png") cat.

(** [resolveResourceSeedTuple(cat, nodeName)]: [None] for a category that
    is neither "tree" nor "flower". *)
Definition resolveResourceSeedTuple (c nodeName : string) (cat : Catalog)
    : option Tuple * Catalog :=
  if String.eqb c "tree" then
    let '(t, cat') := findOrAdd misc "misc"
                        (ItemSystem.baseTreeName nodeName ++ " Seed") "" cat in
    (Some t, cat')
  else if String.eqb c "flower" then
    let '(t, cat') := findOrAdd misc "misc"
                        (normalizeName nodeName ++ " Seed") "" cat in
    (Some t, cat')
  else (None, cat).

Record Harvested := {
  h_itemID : string;
  h_name : string;
  h_imageLink : string;
  h_category : string;
  h_source : string;
  h_rarity : string;
  h_quality : string;
  h_bonusItems : list Tuple
}.

Inductive HarvestError :=
| CategoryRequired
| NodeNameRequired
| UnknownCategory.

(** [harvest(category, nodeName)]; the rolls and the bonus draw read
    [Math.random], here [rng]. The three [throw]s are the [inl] results. *)
Definition harvest {S : Type} (rng : S -> Q * S)
    (category nodeName : string) (cat0 : Catalog) (s : S)
    : (HarvestError + Harvested) * Catalog * S :=
  let cat := toLowerCase category in
  let source := normalizeName nodeName in
  if String.eqb cat "" then (inl CategoryRequired, cat0, s)
  else if String.eqb source "" then (inl NodeNameRequired, cat0, s)
  else
    let resolved :=
      if String.eqb cat "tree" then Some (resolveTreeTuple source cat0)
      else if String.eqb cat "flower" then Some (resolveFlowerTuple source cat0)
      else if String.eqb cat "mineral" then Some (resolveMineralTuple source cat0)
      else None in
    match resolved with
    | None => (inl UnknownCategory, cat0, s)
    | Some (tuple, cat1) =>
        let '(rarity, s1) := ItemSystem.rollRarityCascade rng s in
        let '(quality, s2) := ItemSystem.rollQuality rng s1 in
        (* 2% chance bonus: resource-specific seed (trees and flowers only) *)
        let '(bonus, cat2, s3) :=
          if String.eqb cat "tree" || String.eqb cat "flower" then
            let '(v, s3) := rng s2 in
            if Qlt_le_dec v 0.02 then
              let '(seed, cat2) := resolveResourceSeedTuple cat source cat1 in
              (match seed with Some t => [t] | None => [] end, cat2, s3)
            else ([], cat1, s3)
          else ([], cat1, s2) in
        (inr {| h_itemID := itemID tuple; h_name := name tuple;
                h_imageLink := imageLink tuple; h_category := cat;
                h_source := source; h_rarity := rarity; h_quality := quality;
                h_bonusItems := bonus |}, cat2, s3)
    end.

End Harvest.

(* ===================================================================== *)
(** * Part II: the properties *)
(* ===================================================================== *)

(** ** Rounded arithmetic of JavaScript numbers *)

Section Doubles.
Import JSNum.

Lemma roundHalfEven_near x y :
  0 < y ->
  2 * (roundHalfEven x y * y - x) <= y /\ 2 * (x - roundHalfEven x y * y) <= y.
Proof.
  intros Hy. unfold roundHalfEven.
  pose proof (Z.div_mod x y ltac:(lia)) as E.
  pose proof (Z.mod_pos_bound x y Hy) as B.
  set (fl := x / y) in *. set (r := x mod y) in *.
  destruct (Z.ltb_spec (2 * r) y); [nia |].
  destruct (Z.ltb_spec y (2 * r)); [nia |].
  destruct (Z.even fl); nia.
Qed.

Lemma roundHalfEven_ge x y K : 0 < y -> K * y <= x -> K <= roundHalfEven x y.
Proof.
  intros Hy H. destruct (roundHalfEven_near x y Hy) as [_ B].
  destruct (Z_lt_le_dec (roundHalfEven x y) K) as [Hlt | ]; [| assumption].
  exfalso. nia.
Qed.

Lemma roundHalfEven_le x y K : 0 < y -> x <= K * y -> roundHalfEven x y <= K.
Proof.
  intros Hy H. destruct (roundHalfEven_near x y Hy) as [B _].
  destruct (Z_lt_le_dec K (roundHalfEven x y)) as [Hlt | ]; [| assumption].
  exfalso. nia.
Qed.

Lemma pow2_pos e : 0 < 2 ^ e \/ e < 0.
Proof. destruct (Z_lt_le_dec e 0); [now right | left; now apply Z.pow_pos_nonneg]. Qed.

Lemma ilog2_lower n d :
  0 < n -> 0 < d ->
  (0 <= ilog2 n d -> d * 2 ^ ilog2 n d <= n)
  /\ (ilog2 n d < 0 -> d <= n * 2 ^ (- ilog2 n d)).
Proof.
  intros Hn Hd. unfold ilog2.
  pose proof (Z.log2_spec n Hn) as [Ln _].
  pose proof (Z.log2_spec d Hd) as [_ Ld].
  pose proof (Z.log2_nonneg n) as An. pose proof (Z.log2_nonneg d) as Ad.
  set (a := Z.log2 n) in *. set (b := Z.log2 d) in *.
  cbv zeta.
  destruct (Z.leb_spec 0 (a - b)) as [Hl | Hl].
  - destruct (Z.leb_spec (d * 2 ^ (a - b)) n) as [Ht | Ht].
    + split; [auto | lia].
    + (* l = a - b - 1 *)
      assert (Hab : a - b = 0 \/ 1 <= a - b) by lia.
      destruct Hab as [E0 | E1].
      * rewrite E0 in *. cbn in Ht. split; [lia |]. intros _.
        replace (- (0 - 1)) with 1 by lia.
        replace (a) with b in * by lia.
        replace (Z.succ b) with (b + 1) in Ld by lia.
        rewrite Z.pow_add_r in Ld by lia. cbn in Ld |- *. lia.
      * split; [| lia]. intros _.
        replace (Z.succ b) with (b + 1) in Ld by lia.
        assert (E : 2 ^ a = 2 ^ (b + 1) * 2 ^ (a - b - 1)).
        { rewrite <- Z.pow_add_r by lia. f_equal. lia. }
        assert (0 < 2 ^ (a - b - 1)) by (apply Z.pow_pos_nonneg; lia).
        nia.
  - destruct (Z.leb_spec d (n * 2 ^ (- (a - b)))) as [Ht | Ht].
    + split; [lia | auto].
    + split; [lia |]. intros _.
      replace (Z.succ b) with (b + 1) in Ld by lia.
      assert (E : 2 ^ (b + 1) = 2 ^ a * 2 ^ (- (a - b - 1))).
      { rewrite <- Z.pow_add_r by lia. f_equal. lia. }
      nia.
Qed.

Lemma roundPos_cases n d :
  0 < n -> 0 < d ->
  (exists e m, 0 <= e /\ roundPos n d = inject_Z (m * 2 ^ e)
      /\ m = roundHalfEven n (d * 2 ^ e) /\ d * 2 ^ e * 2 ^ 52 <= n)
  \/ (exists k m, 0 < k /\ roundPos n d = Qmake m (Z.to_pos (2 ^ k))
      /\ m = roundHalfEven (n * 2 ^ k) d
      /\ (d * 2 ^ 52 <= n * 2 ^ k \/ k = 1074)).
Proof.
  intros Hn Hd. unfold roundPos.
  destruct (ilog2_lower n d Hn Hd) as [Lp Ln].
  set (l := ilog2 n d) in *. cbv zeta.
  destruct (Z.leb_spec 0 (Z.max (l - 52) (-1074))) as [He | He].
  - left. assert (El : Z.max (l - 52) (-1074) = l - 52) by lia.
    rewrite El in *. exists (l - 52), (roundHalfEven n (d * 2 ^ (l - 52))).
    split; [lia |]. split; [reflexivity |]. split; [reflexivity |].
    assert (E : 2 ^ l = 2 ^ (l - 52) * 2 ^ 52).
    { rewrite <- Z.pow_add_r by lia. f_equal. lia. }
    specialize (Lp ltac:(lia)). rewrite E in Lp. lia.
  - right. set (e := Z.max (l - 52) (-1074)) in *.
    exists (- e), (roundHalfEven (n * 2 ^ (- e)) d).
    split; [lia |]. split; [reflexivity |]. split; [reflexivity |].
    destruct (Z.max_spec (l - 52) (-1074)) as [[_ E] | [_ E]]; fold e in E.
    + right. lia.
    + left. rewrite E.
      destruct (Z_lt_le_dec l 0) as [Hneg | Hnn].
      * specialize (Ln Hneg).
        assert (E2 : 2 ^ (- (l - 52)) = 2 ^ (- l) * 2 ^ 52).
        { rewrite <- Z.pow_add_r by lia. f_equal. lia. }
        rewrite E2. nia.
      * specialize (Lp Hnn).
        assert (E2 : 2 ^ 52 = 2 ^ l * 2 ^ (- (l - 52))).
        { rewrite <- Z.pow_add_r by lia. f_equal. lia. }
        assert (0 < 2 ^ (- (l - 52))) by (apply Z.pow_pos_nonneg; lia).
        rewrite E2. nia.
Qed.

Lemma Zpos_to_pos_pow k : 0 <= k -> Zpos (Z.to_pos (2 ^ k)) = 2 ^ k.
Proof. intros H. apply Z2Pos.id. apply Z.pow_pos_nonneg; lia. Qed.

Lemma roundPos_ge_int n d N :
  0 < n -> 0 < d -> 1 <= N <= 2 ^ 53 -> N * d <= n ->
  (inject_Z N <= roundPos n d)%Q.
Proof.
  intros Hn Hd HN H.
  destruct (roundPos_cases n d Hn Hd)
    as [(e & m & He & -> & Hm & Hlow) | (k & m & Hk & -> & Hm & _)].
  - rewrite <- Zle_Qle.
    assert (Hpe : 0 < 2 ^ e) by (apply Z.pow_pos_nonneg; lia).
    assert (Hbig : 2 ^ 52 <= m).
    { subst m. apply roundHalfEven_ge; [nia | lia]. }
    destruct (Z.eq_dec e 0) as [-> | Hne].
    + cbn [Z.pow] in *. rewrite Z.mul_1_r in *.
      assert (N <= m); [| lia]. subst m. apply roundHalfEven_ge; lia.
    + assert (2 <= 2 ^ e).
      { change 2 with (2 ^ 1) at 1. apply Z.pow_le_mono_r; lia. }
      change (2 ^ 53) with (2 ^ 52 * 2) in HN. nia.
  - assert (Hpk : 0 < 2 ^ k) by (apply Z.pow_pos_nonneg; lia).
    unfold Qle. cbn [Qnum Qden inject_Z]. rewrite Zpos_to_pos_pow by lia.
    assert (N * 2 ^ k <= m); [| lia].
    subst m. apply roundHalfEven_ge; [lia | nia].
Qed.

Lemma roundPos_le_int n d N :
  0 < n -> 0 < d -> 0 <= N < 2 ^ 53 -> n <= N * d ->
  (roundPos n d <= inject_Z N)%Q.
Proof.
  intros Hn Hd HN H.
  destruct (roundPos_cases n d Hn Hd)
    as [(e & m & He & -> & Hm & Hlow) | (k & m & Hk & -> & Hm & _)].
  - rewrite <- Zle_Qle.
    assert (Hpe : 0 < 2 ^ e) by (apply Z.pow_pos_nonneg; lia).
    assert (E0 : e = 0).
    { destruct (Z.eq_dec e 0) as [| Hne]; [assumption | exfalso].
      assert (2 <= 2 ^ e).
      { change 2 with (2 ^ 1) at 1. apply Z.pow_le_mono_r; lia. }
      change (2 ^ 53) with (2 ^ 52 * 2) in HN. nia. }
    subst e. cbn [Z.pow] in *. rewrite Z.mul_1_r in *.
    subst m. apply roundHalfEven_le; lia.
  - assert (Hpk : 0 < 2 ^ k) by (apply Z.pow_pos_nonneg; lia).
    unfold Qle. cbn [Qnum Qden inject_Z]. rewrite Zpos_to_pos_pow by lia.
    assert (m <= N * 2 ^ k); [| lia].
    subst m. apply roundHalfEven_le; [lia | nia].
Qed.

Lemma roundPos_nonneg n d : 0 < n -> 0 < d -> (0 <= roundPos n d)%Q.
Proof.
  intros Hn Hd.
  destruct (roundPos_cases n d Hn Hd)
    as [(e & m & He & -> & Hm & Hlow) | (k & m & Hk & -> & Hm & _)].
  - change 0%Q with (inject_Z 0). rewrite <- Zle_Qle.
    assert (Hpe : 0 < 2 ^ e) by (apply Z.pow_pos_nonneg; lia).
    assert (0 <= m); [| nia]. subst m. apply roundHalfEven_ge; [nia | lia].
  - assert (Hpk : 0 < 2 ^ k) by (apply Z.pow_pos_nonneg; lia).
    unfold Qle. cbn [Qnum Qden]. rewrite Z.mul_1_r.
    assert (0 <= m); [| lia]. subst m. apply roundHalfEven_ge; [lia | nia].
Qed.

Ltac q2z :=
  cbv [Qle Qminus Qplus Qopp Qmult relErr absErr Qnum Qden inject_Z];
  rewrite ?Z.mul_1_r, ?Pos.mul_1_l, ?Pos.mul_1_r, ?Pos2Z.inj_mul.

Lemma roundPos_error n (d : positive) :
  0 < n ->
  (Qabs (roundPos n (Zpos d) - (n # d)) <= (n # d) * relErr + absErr)%Q.
Proof.
  intros Hn.
  assert (Hd : 0 < Zpos d) by lia.
  assert (T1 : (0 <= (n # d) * relErr)%Q) by (unfold Qle; cbn; lia).
  assert (T2 : (0 <= absErr)%Q) by (unfold Qle; cbn; lia).
  destruct (roundPos_cases n (Zpos d) Hn Hd)
    as [(e & m & He & -> & Hm & Hlow) | (k & m & Hk & -> & Hm & Hlow)].
  - assert (Hpe : 0 < 2 ^ e) by (apply Z.pow_pos_nonneg; lia).
    destruct (roundHalfEven_near n (Zpos d * 2 ^ e) ltac:(nia)) as [B1 B2].
    rewrite <- Hm in B1, B2. clear Hm.
    apply (Qle_trans _ ((n # d) * relErr)); [| lra].
    change (2 ^ 52) with 4503599627370496 in Hlow.
    apply Qabs_Qle_condition. split; q2z.
    + clear T1 T2. remember (2 ^ e) as a eqn:Ea. clear Ea He.
      remember (Zpos d) as D eqn:ED. clear ED.
      pose proof (Z.mul_le_mono_nonneg_r _ _ (D * 4503599627370496) ltac:(lia) B2).
      nia.
    + clear T1 T2. remember (2 ^ e) as a eqn:Ea. clear Ea He.
      remember (Zpos d) as D eqn:ED. clear ED.
      pose proof (Z.mul_le_mono_nonneg_r _ _ (D * 4503599627370496) ltac:(lia) B1).
      nia.
  - assert (Hpk : 0 < 2 ^ k) by (apply Z.pow_pos_nonneg; lia).
    destruct (roundHalfEven_near (n * 2 ^ k) (Zpos d) Hd) as [B1 B2].
    rewrite <- Hm in B1, B2. clear Hm.
    destruct Hlow as [Hlow | ->].
    + apply (Qle_trans _ ((n # d) * relErr)); [| lra].
      change (2 ^ 52) with 4503599627370496 in Hlow.
      apply Qabs_Qle_condition. split; q2z; rewrite Zpos_to_pos_pow by lia.
      * clear T1 T2. remember (2 ^ k) as a eqn:Ea. clear Ea Hk.
        remember (Zpos d) as D eqn:ED. clear ED.
        pose proof (Z.mul_le_mono_nonneg_r _ _ (D * 4503599627370496) ltac:(lia) B2).
        nia.
      * clear T1 T2. remember (2 ^ k) as a eqn:Ea. clear Ea Hk.
        remember (Zpos d) as D eqn:ED. clear ED.
        pose proof (Z.mul_le_mono_nonneg_r _ _ (D * 4503599627370496) ltac:(lia) B1).
        nia.
    + apply (Qle_trans _ absErr); [| lra].
      assert (E : Zpos (2 ^ 1075) = 2 * 2 ^ 1074) by reflexivity.
      apply Qabs_Qle_condition. split; q2z; rewrite Zpos_to_pos_pow, ?E by lia.
      * clear T1 T2 E Hk. remember (2 ^ 1074) as a eqn:Ea. clear Ea.
        remember (Zpos d) as D eqn:ED. clear ED. nia.
      * clear T1 T2 E Hk. remember (2 ^ 1074) as a eqn:Ea. clear Ea.
        remember (Zpos d) as D eqn:ED. clear ED. nia.
Qed.

(** Rounding never crosses an integer below 2^53, keeps the sign, and is
    off by at most half a unit in the last place. *)
Lemma roundDouble_ge_int (N : Z) (q : Q) :
  1 <= N <= 2 ^ 53 -> (inject_Z N <= q)%Q -> (inject_Z N <= roundDouble q)%Q.
Proof.
  intros HN H. destruct q as [n d]. unfold Qle in H. cbn [Qnum Qden inject_Z] in H.
  unfold roundDouble. cbn [Qnum Qden].
  destruct n as [| p | p]; try lia.
  rewrite Qred_correct. apply roundPos_ge_int; lia.
Qed.

Lemma roundDouble_nonneg (q : Q) : (0 <= q)%Q -> (0 <= roundDouble q)%Q.
Proof.
  intros H. destruct q as [n d]. unfold Qle in H. cbn [Qnum Qden] in H.
  unfold roundDouble. cbn [Qnum Qden].
  destruct n as [| p | p]; try lia; [apply Qle_refl |].
  rewrite Qred_correct. apply roundPos_nonneg; lia.
Qed.

Lemma roundDouble_nonpos (q : Q) : (q <= 0)%Q -> (roundDouble q <= 0)%Q.
Proof.
  intros H. destruct q as [n d]. unfold Qle in H. cbn [Qnum Qden] in H.
  unfold roundDouble. cbn [Qnum Qden].
  destruct n as [| p | p]; try lia; [apply Qle_refl |].
  rewrite Qred_correct.
  pose proof (roundPos_nonneg (- Z.neg p) (Zpos d) ltac:(lia) ltac:(lia)). lra.
Qed.

Lemma roundDouble_le_int (N : Z) (q : Q) :
  0 <= N < 2 ^ 53 -> (q <= inject_Z N)%Q -> (roundDouble q <= inject_Z N)%Q.
Proof.
  intros HN H.
  assert (H0 : (0 <= inject_Z N)%Q)
    by (change 0%Q with (inject_Z 0); rewrite <- Zle_Qle; lia).
  destruct (Qlt_le_dec 0 q) as [Hpos | Hneg].
  - destruct q as [n d]. unfold Qle in H. unfold Qlt in Hpos.
    cbn [Qnum Qden inject_Z] in H, Hpos.
    unfold roundDouble. cbn [Qnum Qden].
    destruct n as [| p | p]; try lia.
    rewrite Qred_correct. apply roundPos_le_int; lia.
  - pose proof (roundDouble_nonpos q Hneg). lra.
Qed.

Lemma roundDouble_error (q : Q) :
  (Qabs (roundDouble q - q) <= Qabs q * relErr + absErr)%Q.
Proof.
  destruct q as [n d]. unfold roundDouble. cbn [Qnum Qden].
  destruct n as [| p | p].
  - unfold Qle; cbn; lia.
  - rewrite Qred_correct.
    assert (E : (Qabs (Zpos p # d) == Zpos p # d)%Q) by reflexivity.
    rewrite E. apply roundPos_error. lia.
  - rewrite Qred_correct.
    assert (E : (Qabs (Z.neg p # d) == Zpos p # d)%Q) by reflexivity.
    rewrite E.
    assert (E2 : (- roundPos (- Z.neg p) (Zpos d) - (Z.neg p # d)
                  == - (roundPos (Zpos p) (Zpos d) - (Zpos p # d)))%Q).
    { change (- Z.neg p) with (Zpos p).
      change (Z.neg p # d) with (- (Zpos p # d))%Q. ring. }
    rewrite E2, Qabs_opp. apply roundPos_error. lia.
Qed.

Lemma roundDouble_ge_nat (N : Z) (q : Q) :
  0 <= N <= 2 ^ 53 -> (inject_Z N <= q)%Q -> (inject_Z N <= roundDouble q)%Q.
Proof.
  intros HN H. destruct (Z.eq_dec N 0) as [-> | Hne].
  - apply roundDouble_nonneg. exact H.
  - apply roundDouble_ge_int; [lia | exact H].
Qed.

(** Adding zero rounds the number itself. *)
Lemma fadd_0_r (q : Q) : fadd q 0 = roundDouble q.
Proof.
  destruct q as [n d]. unfold fadd, Qplus. cbn [Qnum Qden].
  rewrite Z.mul_1_r, Z.add_0_r, Pos.mul_1_r. reflexivity.
Qed.

(** The sums the scripts compute on the values used in the examples. *)
Example fadd_tenth : fadd (roundDouble 7999.9) (roundDouble 0.1) = 8000%Q.
Proof. vm_compute. reflexivity. Qed.

Example fadd_weights :
  fadd (roundDouble 0.60) (roundDouble 0.30)
  = (2026619832316723 # 2251799813685248)%Q.
Proof. vm_compute. reflexivity. Qed.

End Doubles.

(** ** Rarity and quality rolls *)

Section RollProperties.
Import ItemSystem JSNum.

Example baseTreeName_apple : baseTreeName "Apple Tree" = "Apple".
Proof. reflexivity. Qed.

Example inferTree_oak : inferTreeItem " Oak   tree " = "Oak Wood".
Proof. reflexivity. Qed.

Example inferTree_sakura : inferTreeItem "Sakura Tree" = "Sakura Blossom".
Proof. reflexivity. Qed.

Lemma Qltb_lt (a b : Q) : Qltb a b = true <-> (a < b)%Q.
Proof.
  unfold Qltb. destruct (Qlt_le_dec a b) as [H | H]; split; intros H'; try easy.
  exfalso. apply (Qle_not_lt _ _ H H').
Qed.

Lemma Qgeb_le (a b : Q) : Qgeb a b = true <-> (b <= a)%Q.
Proof.
  unfold Qgeb. destruct (Qlt_le_dec a b) as [H | H]; split; intros H'; try easy.
  exfalso. apply (Qle_not_lt _ _ H' H).
Qed.

Lemma Qgeb_false (a b : Q) : Qgeb a b = false <-> (a < b)%Q.
Proof.
  unfold Qgeb. destruct (Qlt_le_dec a b) as [H | H]; split; intros H'; try easy.
  exfalso. apply (Qle_not_lt _ _ H H').
Qed.

(** Two strict comparisons against equal bounds choose the same branch. *)
Lemma Qlt_le_dec_if {A : Type} (v a b : Q) (x y : A) :
  (a == b)%Q ->
  (if Qlt_le_dec v a then x else y) = (if Qlt_le_dec v b then x else y).
Proof.
  intros E. destruct (Qlt_le_dec v a), (Qlt_le_dec v b); try reflexivity;
    exfalso; lra.
Qed.

(** The cascade, unfolded over the five draws it may take. *)
Lemma rollRarityCascade_unfold {S : Type} (rng : S -> Q * S) (s0 : S) :
  let t1 := rng s0 in
  let t2 := rng (snd t1) in
  let t3 := rng (snd t2) in
  let t4 := rng (snd t3) in
  let t5 := rng (snd t4) in
  rollRarityCascade rng s0 =
    (if Qlt_le_dec (fst t1) 0.0001 then ("Godlike", snd t1)
     else if Qlt_le_dec (fst t2) 0.01 then ("Mythic", snd t2)
     else if Qlt_le_dec (fst t3) 0.10 then ("Legendary", snd t3)
     else if Qlt_le_dec (fst t4) 0.25 then ("Rare", snd t4)
     else if Qlt_le_dec (fst t5) 0.50 then ("Uncommon", snd t5)
     else ("Common", snd t5)).
Proof.
  unfold rollRarityCascade. cbn [rarity_loop RARITIES r_name r_chance].
  simpl String.eqb.
  destruct (rng s0) as [v1 s1]; cbn [fst snd].
  destruct (Qlt_le_dec v1 0.0001); [reflexivity |].
  destruct (rng s1) as [v2 s2]; cbn [fst snd].
  destruct (Qlt_le_dec v2 0.01); [reflexivity |].
  destruct (rng s2) as [v3 s3]; cbn [fst snd].
  destruct (Qlt_le_dec v3 0.10); [reflexivity |].
  destruct (rng s3) as [v4 s4]; cbn [fst snd].
  destruct (Qlt_le_dec v4 0.25); [reflexivity |].
  destruct (rng s4) as [v5 s5]; cbn [fst snd].
  destruct (Qlt_le_dec v5 0.50); reflexivity.
Qed.

(** C2. The rarity roll tries Godlike (0.0001), Mythic (0.01), Legendary
    (0.10), Rare (0.25), Uncommon (0.50) in this order; each trial takes one
    fresh draw from the source and succeeds iff the draw is strictly below its
    threshold; the first success is the result, and after five failures the
    result is Common. A source that always returns 0 gives Godlike, one that
    always returns 0.99 gives Common. *)
Theorem rollRarityCascade_ordered_trials :
  forall (S : Type) (rng : S -> Q * S) (s0 : S),
    let t1 := rng s0 in
    let t2 := rng (snd t1) in
    let t3 := rng (snd t2) in
    let t4 := rng (snd t3) in
    let t5 := rng (snd t4) in
    rollRarityCascade rng s0 =
      (if Qlt_le_dec (fst t1) 0.0001 then ("Godlike", snd t1)
       else if Qlt_le_dec (fst t2) 0.01 then ("Mythic", snd t2)
       else if Qlt_le_dec (fst t3) 0.10 then ("Legendary", snd t3)
       else if Qlt_le_dec (fst t4) 0.25 then ("Rare", snd t4)
       else if Qlt_le_dec (fst t5) 0.50 then ("Uncommon", snd t5)
       else ("Common", snd t5))
    /\ fst (rollRarityCascade (constRng 0) tt) = "Godlike"
    /\ fst (rollRarityCascade (constRng 0.99) tt) = "Common".
Proof.
  intros S rng s0. split; [apply rollRarityCascade_unfold | split; reflexivity].
Qed.

(** The quality loop against the specification's reading, for any table
    and any running sum. *)
Lemma quality_loop_find (rows : list QualityRow) (roll acc : Q) :
  quality_loop rows roll acc
  = option_map fst
      (List.find (fun nc => Qltb roll (snd nc)) (cumulative acc rows)).
Proof.
  revert acc. induction rows as [| q rest IH]; intros acc; [reflexivity |].
  cbn [quality_loop cumulative List.find snd]. unfold Qltb at 1.
  destruct (Qlt_le_dec roll _); [reflexivity | apply IH].
Qed.

Lemma rollQuality_unfold {S : Type} (rng : S -> Q * S) (s0 : S) :
  rollQuality rng s0 = (quality_by_cumulative (fst (rng s0)), snd (rng s0)).
Proof.
  unfold rollQuality, quality_by_cumulative.
  destruct (rng s0) as [roll s1]; cbn [fst snd]. f_equal.
  rewrite quality_loop_find.
  destruct (List.find _ _) as [nc |]; reflexivity.
Qed.

(** The cumulative sums of the table, computed. *)
Lemma cumulative_QUALITIES :
  cumulative 0 QUALITIES
  = [ ("Dull", SUM_DULL); ("Normal", SUM_NORMAL); ("Refined", SUM_REFINED);
      ("Pristine", SUM_PRISTINE); ("Exquisite", SUM_EXQUISITE) ].
Proof. vm_compute. reflexivity. Qed.

Lemma quality_by_cumulative_thresholds (v : Q) :
  quality_by_cumulative v =
    (if Qlt_le_dec v SUM_DULL then "Dull"
     else if Qlt_le_dec v SUM_NORMAL then "Normal"
     else if Qlt_le_dec v SUM_REFINED then "Refined"
     else if Qlt_le_dec v SUM_PRISTINE then "Pristine"
     else "Exquisite").
Proof.
  unfold quality_by_cumulative. rewrite cumulative_QUALITIES.
  cbn [List.find fst snd]. unfold Qltb.
  repeat (destruct (Qlt_le_dec v _); [reflexivity |]).
  reflexivity.
Qed.

(** Each sum lies at most 2^-52 below the decimal sum of the weights and
    never above it, so the roll differs from the one with the decimal
    thresholds 0.6, 0.9, 0.98 and 0.995 only for a draw inside one of these
    four gaps; the sum of all five weights stays below 1, which is when
    the loop ends without returning. *)
Lemma sums_below_decimals :
  (SUM_DULL < 0.60 /\ 0.60 - SUM_DULL <= 2 * relErr)%Q
  /\ (SUM_NORMAL < 0.90 /\ 0.90 - SUM_NORMAL <= 2 * relErr)%Q
  /\ (SUM_REFINED < 0.98 /\ 0.98 - SUM_REFINED <= 2 * relErr)%Q
  /\ (SUM_PRISTINE < 0.995 /\ 0.995 - SUM_PRISTINE <= 2 * relErr)%Q
  /\ (SUM_EXQUISITE < 1 /\ 1 - SUM_EXQUISITE <= 2 * relErr)%Q.
Proof. repeat split; vm_compute; first [reflexivity | discriminate]. Qed.

Lemma quality_decimal_thresholds (v : Q) :
  ~ (SUM_DULL <= v < 0.60)%Q -> ~ (SUM_NORMAL <= v < 0.90)%Q ->
  ~ (SUM_REFINED <= v < 0.98)%Q -> ~ (SUM_PRISTINE <= v < 0.995)%Q ->
  quality_by_cumulative v =
    (if Qlt_le_dec v 0.60 then "Dull"
     else if Qlt_le_dec v 0.90 then "Normal"
     else if Qlt_le_dec v 0.98 then "Refined"
     else if Qlt_le_dec v 0.995 then "Pristine"
     else "Exquisite").
Proof.
  intros G1 G2 G3 G4. rewrite quality_by_cumulative_thresholds.
  destruct sums_below_decimals as ((A1 & _) & (A2 & _) & (A3 & _) & (A4 & _) & _).
  assert (O1 : (0.60 < SUM_NORMAL)%Q) by (vm_compute; reflexivity).
  assert (O2 : (0.90 < SUM_REFINED)%Q) by (vm_compute; reflexivity).
  assert (O3 : (0.98 < SUM_PRISTINE)%Q) by (vm_compute; reflexivity).
  destruct (Qlt_le_dec v SUM_DULL), (Qlt_le_dec v SUM_NORMAL),
    (Qlt_le_dec v SUM_REFINED), (Qlt_le_dec v SUM_PRISTINE),
    (Qlt_le_dec v 0.60), (Qlt_le_dec v 0.90), (Qlt_le_dec v 0.98),
    (Qlt_le_dec v 0.995); try reflexivity; exfalso;
    first [ apply G1; split; assumption | apply G2; split; assumption
          | apply G3; split; assumption | apply G4; split; assumption
          | lra ].
Qed.

(** C7. The quality roll takes a single draw and returns the first category,
    in the order Dull (0.60), Normal (0.30), Refined (0.08), Pristine (0.015),
    Exquisite (0.005), whose cumulative weight sum is strictly above the draw,
    and Exquisite when no sum is. The sums are the ones the loop accumulates
    ([acc += q.weight] on numbers): 0.6, 0.8999999999999999,
    0.9799999999999999, 0.9949999999999999 and 0.9999999999999999. A draw
    equal to a cumulative sum belongs to the next category, and a draw equal
    to the last sum takes the fallback; 0 gives Dull and 0.999 gives
    Exquisite. *)
Theorem rollQuality_single_draw_cumulative :
  forall (S : Type) (rng : S -> Q * S) (s0 : S),
    let v := fst (rng s0) in
    rollQuality rng s0 = (quality_by_cumulative v, snd (rng s0))
    /\ cumulative 0 QUALITIES
       = [ ("Dull", SUM_DULL); ("Normal", SUM_NORMAL); ("Refined", SUM_REFINED);
           ("Pristine", SUM_PRISTINE); ("Exquisite", SUM_EXQUISITE) ]
    /\ quality_by_cumulative v =
         (if Qlt_le_dec v SUM_DULL then "Dull"
          else if Qlt_le_dec v SUM_NORMAL then "Normal"
          else if Qlt_le_dec v SUM_REFINED then "Refined"
          else if Qlt_le_dec v SUM_PRISTINE then "Pristine"
          else "Exquisite")
    /\ fst (rollQuality (constRng 0) tt) = "Dull"
    /\ fst (rollQuality (constRng (roundDouble 0.999)) tt) = "Exquisite"
    /\ fst (rollQuality (constRng SUM_DULL) tt) = "Normal"
    /\ fst (rollQuality (constRng SUM_NORMAL) tt) = "Refined"
    /\ fst (rollQuality (constRng SUM_REFINED) tt) = "Pristine"
    /\ fst (rollQuality (constRng SUM_PRISTINE) tt) = "Exquisite"
    /\ fst (rollQuality (constRng SUM_EXQUISITE) tt) = "Exquisite"
    /\ quality_loop QUALITIES SUM_EXQUISITE 0 = None
    /\ fst (rollQuality (constRng (roundDouble 0.60)) tt) = "Normal"
    /\ fst (rollQuality (constRng (roundDouble 0.90)) tt) = "Refined"
    /\ fst (rollQuality (constRng (roundDouble 0.98)) tt) = "Pristine"
    /\ fst (rollQuality (constRng (roundDouble 0.995)) tt) = "Exquisite".
Proof.
  intros S rng s0 v.
  split; [apply rollQuality_unfold |].
  split; [apply cumulative_QUALITIES |].
  split; [apply quality_by_cumulative_thresholds |].
  repeat split; vm_compute; reflexivity.
Qed.

End RollProperties.

(** ** Stamina catch-up *)

Section StaminaProperties.
Import Mechanics.

Lemma interval_value : STAMINA_REGEN_INTERVAL_MS = 300000.
Proof. reflexivity. Qed.

(** The elapsed whole intervals of a catch-up at [now] from baseline [last]. *)
Lemma elapsed_intervals (now last : Z) :
  STAMINA_REGEN_INTERVAL_MS <= now - last ->
  let k := (now - last) / STAMINA_REGEN_INTERVAL_MS in
  1 <= k /\
  last + k * STAMINA_REGEN_INTERVAL_MS <= now
    < last + k * STAMINA_REGEN_INTERVAL_MS + STAMINA_REGEN_INTERVAL_MS.
Proof.
  rewrite interval_value. intros H k. subst k.
  pose proof (Z.div_mod (now - last) 300000 ltac:(lia)).
  pose proof (Z.mod_pos_bound (now - last) 300000 ltac:(lia)).
  lia.
Qed.

(** C4, as stated, fails when the pool is already full: with max = current
    = 100, baseline 0 and now = 450000 (one and a half intervals), the
    baseline becomes 450000, not 0 + 1 * 300000. *)
Lemma applyStaminaCatchup_full_jumps_to_now :
  let st := {| stamina_max := 100; stamina_current := 100;
               lastRegenAt := Some 0 |} in
  let now := 450000 in
  STAMINA_REGEN_INTERVAL_MS <= now - 0
  /\ (now - 0) / STAMINA_REGEN_INTERVAL_MS = 1
  /\ lastRegenAt (applyStaminaCatchup now st) = Some 450000
  /\ lastRegenAt (applyStaminaCatchup now st)
       <> Some (0 + (now - 0) / STAMINA_REGEN_INTERVAL_MS
                      * STAMINA_REGEN_INTERVAL_MS).
Proof.
  cbv zeta. repeat split; try reflexivity; vm_compute; congruence.
Qed.

(** The periodic poll, on the same full pool, advances the baseline by the
    whole intervals only. *)
Example regenTick_full_keeps_remainder :
  lastRegenAt (regenTick 450000 {| stamina_max := 100; stamina_current := 100;
                                   lastRegenAt := Some 0 |})
    = Some 300000.
Proof. reflexivity. Qed.

(** C4 (amended). With at least one whole 5-minute interval elapsed since
    [lastRegenAt]: when the pool is below its maximum, catch-up raises
    [current] by min(elapsedIntervals, max - current), never above [max], and
    advances [lastRegenAt] by exactly elapsedIntervals * interval, which
    leaves less than one interval between the new baseline and [now]; when the
    pool is already full, [current] is unchanged and [lastRegenAt] is set to
    [now]. With three intervals elapsed and current = max - 1 the result is
    current = max and the baseline advanced by exactly 3 * interval. *)
Theorem applyStaminaCatchup_whole_intervals :
  forall (st : Stamina) (now last : Z),
    lastRegenAt st = Some last ->
    STAMINA_REGEN_INTERVAL_MS <= now - last ->
    let k := (now - last) / STAMINA_REGEN_INTERVAL_MS in
    let st' := applyStaminaCatchup now st in
    stamina_max st' = stamina_max st
    /\ (stamina_current st < stamina_max st ->
          stamina_current st'
            = stamina_current st + Z.min k (stamina_max st - stamina_current st)
          /\ stamina_current st' <= stamina_max st
          /\ lastRegenAt st' = Some (last + k * STAMINA_REGEN_INTERVAL_MS)
          /\ last + k * STAMINA_REGEN_INTERVAL_MS <= now
               < last + k * STAMINA_REGEN_INTERVAL_MS + STAMINA_REGEN_INTERVAL_MS)
    /\ (stamina_max st <= stamina_current st ->
          stamina_current st' = stamina_current st
          /\ lastRegenAt st' = Some now)
    /\ (now - last = 3 * STAMINA_REGEN_INTERVAL_MS ->
        stamina_current st = stamina_max st - 1 ->
          stamina_current st' = stamina_max st
          /\ lastRegenAt st' = Some (last + 3 * STAMINA_REGEN_INTERVAL_MS)).
Proof.
  intros st now last Hlast Hel k st'.
  destruct (elapsed_intervals now last Hel) as [Hk Hbase]. fold k in Hk, Hbase.
  subst st'. unfold applyStaminaCatchup. rewrite Hlast.
  destruct (now - last <? STAMINA_REGEN_INTERVAL_MS) eqn:E1;
    [apply Z.ltb_lt in E1; lia |].
  fold k.
  destruct (stamina_max st <=? stamina_current st) eqn:E2.
  - apply Z.leb_le in E2. cbn. repeat split; try lia.
  - apply Z.leb_gt in E2.
    destruct (0 <? k) eqn:E3; [| apply Z.ltb_ge in E3; lia].
    destruct (0 <? Z.min k (Z.max 0 (stamina_max st - stamina_current st))) eqn:E4;
      [| apply Z.ltb_ge in E4; lia].
    cbn.
    split; [reflexivity |].
    split; [intros _; repeat split; try lia |].
    split; [lia |].
    intros H3 Hc.
    assert (k = 3) by (subst k; rewrite H3; apply Z.div_mul;
                       rewrite interval_value; lia).
    split; [lia | f_equal; lia].
Qed.

Lemma applyStaminaCatchup_whole_intervals_witness :
  let st := {| stamina_max := 100; stamina_current := 99;
               lastRegenAt := Some 0 |} in
  stamina_current (applyStaminaCatchup 900000 st) = 100
  /\ lastRegenAt (applyStaminaCatchup 900000 st) = Some 900000.
Proof.
  intros st.
  pose proof (applyStaminaCatchup_whole_intervals st 900000 0 eq_refl) as H.
  assert (Hel : STAMINA_REGEN_INTERVAL_MS <= 900000 - 0) by (vm_compute; congruence).
  specialize (H Hel). cbv zeta in H.
  destruct H as (_ & _ & _ & H).
  apply H; reflexivity.
Defined.

End StaminaProperties.

(** ** The concrete world behaves as the game does *)

Section DemoChecks.
Import World.

Example demo_blocked_oak : isBlocked demoGame 6 5 = true.
Proof. vm_compute. reflexivity. Qed.

Example demo_free_rose : isBlocked demoGame 5 5 = false.
Proof. vm_compute. reflexivity. Qed.

Example demo_step_up :
  p_y (player (stepPlayer 1000 (Some Up) demoGame)) = 5.
Proof. vm_compute. reflexivity. Qed.

Example demo_finish_decor :
  decor (finishGathering (gatheringGame 0%nat)) = [1; 2]%nat.
Proof. vm_compute. reflexivity. Qed.

End DemoChecks.

(** ** Gathering: rejected starts *)

Section StartGathering.
Import World.

(** C9. Starting a gather with stamina below 1, or on a decoration whose
    [remainingHarvests] is 0 or less, is rejected: the only effect is one
    floating text at the decoration ("Depleted", or else "Out of stamina");
    the gather state stays as it was (so it stays idle), and stamina,
    inventory, decorations, world, skills, player and tool are unchanged. The
    function is total: no exception leaves it. *)
Theorem startGathering_rejected_changes_nothing :
  forall (now : Q) (r : ref) (g : Game) (d : Decor),
    objs g !! r = Some d ->
    (Mechanics.stamina_current (stamina g) < 1
     \/ exists n, remainingHarvests d = Some n /\ n <= 0) ->
    let g' := startGathering now r g in
    let text :=
      match remainingHarvests d with
      | Some n => if n <=? 0 then "Depleted" else "Out of stamina"
      | None => "Out of stamina"
      end in
    g' = showFloatingText text (d_x d) (d_y d) "#ef476f" g
    /\ floaties g' =
         (floaties g ++ [ {| f_text := text;
                             f_x := d_x d * TILE_SIZE + TILE_SIZE / 2;
                             f_y := d_y d * TILE_SIZE + TILE_SIZE / 2;
                             f_color := "#ef476f" |} ])%list
    /\ gather g' = gather g
    /\ (active (gather g) = false -> active (gather g') = false)
    /\ stamina g' = stamina g
    /\ inv g' = inv g
    /\ objs g' = objs g
    /\ decor g' = decor g
    /\ world g' = world g
    /\ skills g' = skills g
    /\ player g' = player g
    /\ tool g' = tool g
    /\ rand g' = rand g.
Proof.
  intros now r g d Hd Hrej g' text.
  assert (E : g' = showFloatingText text (d_x d) (d_y d) "#ef476f" g).
  { subst g' text. unfold startGathering. rewrite Hd.
    destruct (remainingHarvests d) as [n |] eqn:Hn.
    - destruct (n <=? 0) eqn:E0; [reflexivity |].
      apply Z.leb_gt in E0.
      destruct Hrej as [Hs | (m & Hm & Hle)].
      + apply Z.ltb_lt in Hs. now rewrite Hs.
      + injection Hm as <-. lia.
    - destruct Hrej as [Hs | (m & Hm & _)]; [| discriminate].
      apply Z.ltb_lt in Hs. now rewrite Hs. }
  rewrite E. repeat split. intros H. exact H.
Qed.

Lemma startGathering_rejected_changes_nothing_witness :
  let g := set_stamina {| Mechanics.stamina_max := 100;
                          Mechanics.stamina_current := 0;
                          Mechanics.lastRegenAt := Some 0 |} demoGame in
  active (gather (startGathering 10 0%nat g)) = false
  /\ stamina (startGathering 10 0%nat g) = stamina g
  /\ inv (startGathering 10 0%nat g) = inv g.
Proof.
  intros g.
  assert (Hd : objs g !! 0%nat = Some (mkDecor 5 5 "flowers" "Rose" 1))
    by (vm_compute; reflexivity).
  assert (Hrej : Mechanics.stamina_current (stamina g) < 1
                 \/ exists n, remainingHarvests (mkDecor 5 5 "flowers" "Rose" 1) = Some n
                              /\ n <= 0)
    by (left; vm_compute; reflexivity).
  pose proof (startGathering_rejected_changes_nothing 10 0%nat g _ Hd Hrej) as H.
  cbv zeta in H.
  destruct H as (_ & _ & _ & Ha & Hs & Hi & _).
  split; [apply Ha; reflexivity | split; assumption].
Defined.

End StartGathering.

(** ** Player movement never enters a blocked tile *)

Section Movement.
Import World.

Lemma findDecor_Some os l x y r :
  findDecor os l x y = Some r ->
  r ∈ l /\ exists d, os !! r = Some d /\ d_x d = x /\ d_y d = y.
Proof.
  induction l as [| a l IH]; cbn; [discriminate |].
  destruct (os !! a) as [d |] eqn:Ha.
  - destruct ((d_x d =? x) && (d_y d =? y)) eqn:E.
    + intros [= <-]. apply andb_true_iff in E as [Ex Ey].
      apply Z.eqb_eq in Ex, Ey. split; [left | eauto].
    + intros H. destruct (IH H) as [Hin Hd]. split; [right; exact Hin | exact Hd].
  - intros H. destruct (IH H) as [Hin Hd]. split; [right; exact Hin | exact Hd].
Qed.











End Movement.

(** ** Gathering: what a completed gather yields *)

Section GatherCompletion.
Import JSString JSNum ItemSystem World.

Lemma append_nonempty_r (a b : string) : b <> "" -> (a ++ b)%string <> "".
Proof.
  intros Hb. destruct a; cbn; [exact Hb | discriminate].
Qed.

Lemma categoryOf_cases d :
  (d_type d = "Trees" /\ categoryOf d = "tree")
  \/ (d_type d = "flowers" /\ categoryOf d = "flower")
  \/ (d_type d <> "Trees" /\ d_type d <> "flowers" /\ categoryOf d = "mineral").
Proof.
  unfold categoryOf.
  destruct (String.eqb_spec (d_type d) "Trees"); [auto |].
  destruct (String.eqb_spec (d_type d) "flowers"); auto.
Qed.

Lemma nodeNameOf_nonempty d : String.eqb (nodeNameOf d) "" = false.
Proof.
  apply String.eqb_neq. unfold nodeNameOf.
  destruct (String.eqb (categoryOf d) "tree").
  - apply append_nonempty_r. discriminate.
  - destruct (String.eqb_spec (kind d) ""); [discriminate | assumption].
Qed.

(** The names a roll can return. *)
Lemma rollRarity_names {S : Type} (rng : S -> Q * S) (s : S) :
  In (fst (rollRarityCascade rng s))
     ["Godlike"; "Mythic"; "Legendary"; "Rare"; "Uncommon"; "Common"].
Proof.
  rewrite rollRarityCascade_unfold.
  repeat (destruct (Qlt_le_dec _ _); [cbn; tauto |]). cbn; tauto.
Qed.

Lemma rollQuality_names {S : Type} (rng : S -> Q * S) (s : S) :
  In (fst (rollQuality rng s))
     ["Dull"; "Normal"; "Refined"; "Pristine"; "Exquisite"].
Proof.
  rewrite rollQuality_unfold, quality_by_cumulative_thresholds. cbn [fst].
  repeat (destruct (Qlt_le_dec _ _); [cbn; tauto |]). cbn; tauto.
Qed.

(** On the arguments [finishGathering] passes, [ItemSystem.gather] never
    throws: it rolls rarity, then quality, and names the item after the
    category's rule. *)
Lemma gather_on_decor d (s : Rand) :
  exists gathered s',
    ItemSystem.gather random (categoryOf d) (nodeNameOf d) s = (inr gathered, s')
    /\ g_category gathered = categoryOf d
    /\ inferItem (categoryOf d) (nodeNameOf d) = Some (g_name gathered)
    /\ g_rarity gathered = fst (rollRarityCascade random s)
    /\ g_quality gathered
         = fst (rollQuality random (snd (rollRarityCascade random s)))
    /\ s' = snd (rollQuality random (snd (rollRarityCascade random s))).
Proof.
  unfold ItemSystem.gather. rewrite nodeNameOf_nonempty.
  destruct (categoryOf_cases d) as [[_ ->] | [[_ ->] | (_ & _ & ->)]].
  - change (toLowerCase "tree") with "tree".
    change (inferItem "tree" (nodeNameOf d))
      with (Some (inferTreeItem (nodeNameOf d))).
    change (String.eqb "tree" "") with false. cbv iota.
    destruct (rollRarityCascade random s) as [rar s1]; cbn [fst snd].
    destruct (rollQuality random s1) as [qual s2]; cbn [fst snd].
    do 2 eexists. repeat split.
  - change (toLowerCase "flower") with "flower".
    change (inferItem "flower" (nodeNameOf d))
      with (Some (inferFlowerItem (nodeNameOf d))).
    change (String.eqb "flower" "") with false. cbv iota.
    destruct (rollRarityCascade random s) as [rar s1]; cbn [fst snd].
    destruct (rollQuality random s1) as [qual s2]; cbn [fst snd].
    do 2 eexists. repeat split.
  - change (toLowerCase "mineral") with "mineral".
    change (inferItem "mineral" (nodeNameOf d))
      with (Some (inferMineralItem (nodeNameOf d))).
    change (String.eqb "mineral" "") with false. cbv iota.
    destruct (rollRarityCascade random s) as [rar s1]; cbn [fst snd].
    destruct (rollQuality random s1) as [qual s2]; cbn [fst snd].
    do 2 eexists. repeat split.
Qed.

(** *** What each step of the completion leaves alone *)

Lemma bonusSeed_frame c d g :
  let g' := bonusSeed c d g in
  tool g' = tool g /\ stamina g' = stamina g
  /\ items (inv g') = items (inv g) /\ itemMeta (inv g') = itemMeta (inv g)
  /\ world g' = world g /\ objs g' = objs g /\ decor g' = decor g
  /\ player g' = player g /\ gather g' = gather g /\ skills g' = skills g
  /\ (gitems (inv g') = gitems (inv g)
      \/ exists base, base <> ""
           /\ gitems (inv g')
              = bump ((base ++ " Seed") ++ "__Unknown__Unknown")%string
                     (gitems (inv g))).
Proof.
  cbv zeta. unfold bonusSeed.
  destruct (_ || _); [| repeat split; left; reflexivity].
  destruct (random (rand g)) as [v s'].
  destruct (Qltb v 0.02); [| repeat split; left; reflexivity].
  destruct (String.eqb_spec (trim (kind d)) "") as [E | E];
    [repeat split; left; reflexivity |].
  repeat split. right. exists (trim (kind d)). split; [exact E | reflexivity].
Qed.

Lemma awardSkillExp_frame k a g :
  let g' := awardSkillExp k a g in
  tool g' = tool g /\ stamina g' = stamina g /\ inv g' = inv g
  /\ world g' = world g /\ objs g' = objs g /\ decor g' = decor g
  /\ player g' = player g /\ gather g' = gather g /\ rand g' = rand g
  /\ skills g' =
       setSkill k
         (fst (levelUpLoop
                 (Z.to_nat (exp (getSkill k (skills g)) + Z.max 0 a))
                 {| level := level (getSkill k (skills g));
                    exp := exp (getSkill k (skills g)) + Z.max 0 a |} false))
         (skills g).
Proof.
  cbv zeta. unfold awardSkillExp. cbn [exp].
  destruct (levelUpLoop _ _ _) as [s2 []]; repeat split.
Qed.

Lemma depleteDecor_frame r x y g :
  let g' := depleteDecor r x y g in
  tool g' = tool g /\ stamina g' = stamina g /\ inv g' = inv g
  /\ player g' = player g /\ gather g' = gather g /\ rand g' = rand g
  /\ skills g' = skills g.
Proof.
  cbv zeta. unfold depleteDecor.
  destruct (objs g !! r) as [d |]; [| repeat split].
  destruct (remainingHarvests d) as [n |]; [| repeat split].
  destruct (Z.max 0 (n - 1) =? 0); repeat split.
Qed.

(** The completion as the chain of its steps. *)
Lemma finishGathering_steps g r d gathered s' :
  target (gather g) = Some r ->
  objs g !! r = Some d ->
  ItemSystem.gather random (categoryOf d) (nodeNameOf d) (rand g)
    = (inr gathered, s') ->
  let g1 := set_inv (recordGather gathered (categoryOf d) (nodeNameOf d) (inv g))
              (set_rand s' g) in
  let g2 := bonusSeed (categoryOf d) d g1 in
  let g3 := showFloatingText
              ("+1 " ++ g_name gathered ++ " (" ++ g_rarity gathered ++ ", "
               ++ g_quality gathered ++ ")")%string
              (d_x d) (d_y d) "#22c55e" g2 in
  let g4 := match skillOf (categoryOf d) with
            | Some k => awardSkillExp k 1 g3
            | None => g3
            end in
  finishGathering g
    = depleteDecor r (d_x d) (d_y d)
        (set_stamina (Mechanics.drain 1 (stamina g4)) g4).
Proof.
  intros Ht Hd Hg. cbv zeta. unfold finishGathering. now rewrite Ht, Hd, Hg.
Qed.

(** The legacy stack after a completed gather: the gathered name, and only
    it, went up by one. *)
Lemma finishGathering_items g r d gathered s' :
  target (gather g) = Some r ->
  objs g !! r = Some d ->
  ItemSystem.gather random (categoryOf d) (nodeNameOf d) (rand g)
    = (inr gathered, s') ->
  items (inv (finishGathering g)) = bump (g_name gathered) (items (inv g)).
Proof.
  intros Ht Hd Hg. rewrite (finishGathering_steps g r d gathered s' Ht Hd Hg).
  match goal with
  | |- items (inv (depleteDecor ?r ?x ?y ?h)) = _ =>
      destruct (depleteDecor_frame r x y h) as (_ & _ & -> & _)
  end.
  cbn [inv set_stamina].
  match goal with
  | |- items (inv (match ?o with Some k => awardSkillExp k 1 ?h | None => _ end)) = _ =>
      assert (E : inv (match o with Some k => awardSkillExp k 1 h | None => h end)
                  = inv h)
        by (destruct o as [k |];
            [apply (awardSkillExp_frame k 1 h) | reflexivity]);
      rewrite E; clear E
  end.
  cbn [inv showFloatingText set_floaties].
  match goal with
  | |- items (inv (bonusSeed ?c ?d ?h)) = _ =>
      destruct (bonusSeed_frame c d h) as (_ & _ & -> & _)
  end.
  reflexivity.
Qed.

Lemma bump_lookup k (m : gmap string Z) :
  bump k m !! k = Some (default 0 (m !! k) + 1).
Proof. unfold bump. apply lookup_insert_eq. Qed.

Lemma bump_lookup_ne k k' (m : gmap string Z) :
  k <> k' -> bump k m !! k' = m !! k'.
Proof. intros H. unfold bump. now apply lookup_insert_ne. Qed.

Example resolveFlowerTuple_rose_id :
  ItemList.itemID (fst (GatherSystem.resolveFlowerTuple "Rose" ItemList.initialCatalog))
    = "flower_petals_rose_petals".
Proof. reflexivity. Qed.

Example resolveFlowerTuple_rose :
  ItemList.name (fst (GatherSystem.resolveFlowerTuple "Rose" ItemList.initialCatalog))
    = "Rose Petals".
Proof. reflexivity. Qed.

(** C1, as stated, fails: the completed gather of the rose of the concrete
    world adds to the stack "Rose"; no stack "Rose Petals" exists
    afterwards, and the item [ItemSystem.gather] returns is named "Rose". *)
Lemma finishGathering_rose_is_not_rose_petals :
  let g := gatheringGame 0%nat in
  (objs g !! 0%nat) = Some (mkDecor 5 5 "flowers" "Rose" 1)
  /\ target (gather g) = Some 0%nat
  /\ items (inv (finishGathering g)) !! "Rose" = Some 1
  /\ items (inv (finishGathering g)) !! ("Rose" ++ " Petals")%string = None
  /\ (g_name <$> match fst (ItemSystem.gather random "flower" "Rose" (rand g)) with
                 | inr gathered => Some gathered
                 | inl _ => None
                 end) = Some "Rose".
Proof. cbv zeta. repeat split; vm_compute; reflexivity. Qed.

(** C1 (amended). For every flower decoration, the item that a completed
    gather yields, through [ItemSystem.gather] as [finishGathering] calls it,
    is named by the flower's own name, trimmed, with nothing appended
    (gathering a 'Rose' yields 'Rose'; a flower without a kind counts as
    'Unknown'): that name's legacy stack goes up by one and no other legacy
    stack changes. *)
Theorem finishGathering_flower_named_after_flower :
  forall (g : Game) (r : ref) (d : Decor),
    target (gather g) = Some r ->
    objs g !! r = Some d ->
    d_type d = "flowers" ->
    let flowerName := if String.eqb (kind d) "" then "Unknown" else kind d in
    let itemName := trim flowerName in
    (exists gathered s',
        ItemSystem.gather random "flower" flowerName (rand g) = (inr gathered, s')
        /\ g_name gathered = itemName)
    /\ items (inv (finishGathering g)) !! itemName
         = Some (default 0 (items (inv g) !! itemName) + 1)
    /\ (forall k, k <> itemName ->
          items (inv (finishGathering g)) !! k = items (inv g) !! k).
Proof.
  intros g r d Ht Hd Hty flowerName itemName.
  assert (Hc : categoryOf d = "flower") by (unfold categoryOf; now rewrite Hty).
  assert (Hn : nodeNameOf d = flowerName) by (unfold nodeNameOf; now rewrite Hc).
  destruct (gather_on_decor d (rand g)) as (gathered & s' & Hg & _ & Hname & _).
  rewrite Hc, Hn in Hname. cbn in Hname. injection Hname as Hname.
  pose proof (finishGathering_items g r d gathered s' Ht Hd Hg) as Hitems.
  rewrite Hc, Hn in Hg.
  change (inferFlowerItem flowerName) with itemName in Hname.
  rewrite <- Hname in Hitems.
  split; [exists gathered, s'; split; [exact Hg | now symmetry] |].
  rewrite Hitems. split; [apply bump_lookup |].
  intros k Hk. apply bump_lookup_ne. congruence.
Qed.

Lemma finishGathering_flower_named_after_flower_witness :
  items (inv (finishGathering (gatheringGame 0%nat))) !! "Rose" = Some 1.
Proof.
  assert (Ht : target (gather (gatheringGame 0%nat)) = Some 0%nat) by reflexivity.
  assert (Hd : objs (gatheringGame 0%nat) !! 0%nat
               = Some (mkDecor 5 5 "flowers" "Rose" 1))
    by (vm_compute; reflexivity).
  destruct (finishGathering_flower_named_after_flower
              (gatheringGame 0%nat) 0%nat _ Ht Hd eq_refl) as (_ & H & _).
  exact H.
Defined.

(** *** Keys of the per-identity stacks *)

Lemma last_char_append (a b : string) :
  b <> "" -> last_char (a ++ b) = last_char b.
Proof.
  intros Hb. induction a as [| c a IH]; [reflexivity |].
  change ((String c a ++ b)%string) with (String c (a ++ b)).
  destruct (a ++ b)%string as [| c' rest] eqn:E.
  - exfalso. destruct a; cbn in E; [contradiction | discriminate].
  - change (last_char (String c (String c' rest)))
      with (last_char (String c' rest)).
    exact IH.
Qed.


(** *** Levelling *)

Lemma expNeededFor_ge lv : 10 <= expNeededFor lv.
Proof. unfold expNeededFor. lia. Qed.

Lemma spent_same lo : spent lo lo = 0.
Proof. unfold spent. now rewrite Z.sub_diag. Qed.

Lemma spent_step lo hi :
  lo < hi -> spent lo hi = expNeededFor lo + spent (lo + 1) hi.
Proof.
  intros H. unfold spent.
  rewrite (seqZ_cons lo (hi - lo)) by lia. cbn [map fold_right].
  replace (Z.pred (hi - lo)) with (hi - (lo + 1)) by lia.
  now replace (Z.succ lo) with (lo + 1) by lia.
Qed.

(** The level-up loop runs to its exit condition within its fuel, and
    what it takes from [exp] is the cost of the levels gained. *)
Lemma levelUpLoop_spec fuel s b :
  exp s <= Z.of_nat fuel ->
  let s' := fst (levelUpLoop fuel s b) in
  level s <= level s'
  /\ exp s' + spent (level s) (level s') = exp s
  /\ exp s' < expNeededFor (level s').
Proof.
  revert s b. induction fuel as [| fuel IH]; intros s b Hfuel; cbv zeta.
  - cbn. rewrite spent_same. pose proof (expNeededFor_ge (level s)). lia.
  - cbn [levelUpLoop].
    destruct (expNeededFor (level s) <=? exp s) eqn:E.
    + apply Z.leb_le in E. pose proof (expNeededFor_ge (level s)).
      specialize (IH {| level := level s + 1;
                        exp := exp s - expNeededFor (level s) |} true).
      cbn [level exp] in IH.
      destruct IH as (Hl & He & Hx); [lia |].
      split; [lia |]. split; [| exact Hx].
      rewrite spent_step by lia. lia.
    + apply Z.leb_gt in E. cbn. rewrite spent_same. lia.
Qed.

Lemma levelUpLoop_no_level fuel s b :
  exp s < expNeededFor (level s) -> levelUpLoop fuel s b = (s, b).
Proof.
  intros H. destruct fuel; [reflexivity |]. cbn.
  apply Z.leb_gt in H. now rewrite H.
Qed.

Lemma getSkill_setSkill k s sk : getSkill k (setSkill k s sk) = s.
Proof. now destruct k. Qed.

Lemma getSkill_setSkill_ne k k' s sk :
  k' <> k -> getSkill k' (setSkill k s sk) = getSkill k' sk.
Proof. destruct k, k'; intros H; try reflexivity; contradiction. Qed.

(** *** Tiles and the decoration list under mutation *)

Lemma tileAt_mutTile f x y (w : list (list Tile)) :
  tileAt (mutTile f x y w) x y = f <$> tileAt w x y.
Proof.
  unfold tileAt, mutTile. destruct (inBounds x y); [| reflexivity].
  rewrite list_lookup_alter_eq.
  destruct (w !! Z.to_nat y) as [row |]; cbn; [| reflexivity].
  now rewrite list_lookup_alter_eq.
Qed.

Lemma tileAt_mutTile_ne f x y x' y' (w : list (list Tile)) :
  (x', y') <> (x, y) ->
  tileAt (mutTile f x y w) x' y' = tileAt w x' y'.
Proof.
  intros Hne. unfold tileAt, mutTile.
  destruct (inBounds x' y') eqn:Eb'; [| reflexivity].
  destruct (inBounds x y) eqn:Eb; [| reflexivity].
  unfold inBounds in Eb, Eb'.
  repeat (apply andb_true_iff in Eb as [Eb ?]).
  repeat (apply andb_true_iff in Eb' as [Eb' ?]).
  destruct (decide (y' = y)) as [-> | Hy].
  - rewrite list_lookup_alter_eq.
    destruct (w !! Z.to_nat y) as [row |]; cbn; [| reflexivity].
    apply list_lookup_alter_ne. intros E. apply Hne. f_equal. lia.
  - rewrite list_lookup_alter_ne; [reflexivity | lia].
Qed.



(** *** The completion, field by field *)






End GatherCompletion.

(** ** Remote players: snapping on teleports, estimating velocity otherwise *)

Section Presence.
Import JSNum World.

Lemma floored_seconds_ge (now lu : Q) :
  (0.001 <= Qmax 0.001 ((now - lu) / 1000))%Q.
Proof. apply Q.le_max_l. Qed.

Lemma floored_seconds_exact (now lu : Q) :
  (1 <= now - lu)%Q ->
  (Qmax 0.001 ((now - lu) / 1000) == (now - lu) / 1000)%Q.
Proof.
  intros H. apply Q.max_r. apply Qle_shift_div_l; [reflexivity |].
  apply (Qle_trans _ 1); [| exact H]. unfold Qle. cbn. lia.
Qed.

(** The [movement] handler stores the reconciled view under the sender. *)
Lemma onMovement_updates_view self now created dateNow p g :
  pay_uid p <> "" -> pay_uid p <> self ->
  othersView (onMovement self now created dateNow (Some p) g) !! pay_uid p
    = Some (movementView now (Qfloor (pay_x p)) (Qfloor (pay_y p)) (pay_facing p)
              (ensureOtherView created (pay_uid p) (Qfloor (pay_x p))
                 (Qfloor (pay_y p)) (default Down (pay_facing p)) (othersView g))).
Proof.
  intros H1 H2. unfold onMovement.
  apply String.eqb_neq in H1, H2. rewrite H1, H2.
  cbn [othersView set_othersView]. apply lookup_insert_eq.
Qed.

(** One peer of a presence [sync]: the reconciled view is stored under it. *)
Lemma syncPeer_updates_view self now created dateNow os views uid metas meta :
  uid <> self -> List.last (map Some metas) None = Some meta ->
  snd (syncPeer self now created dateNow (os, views) (uid, metas)) !! uid
    = Some (syncView now (Qfloor (m_x meta)) (Qfloor (m_y meta))
              (ensureOtherView created uid (Qfloor (m_x meta))
                 (Qfloor (m_y meta)) Down views)).
Proof.
  intros H1 H2. unfold syncPeer. apply String.eqb_neq in H1. rewrite H1, H2.
  cbn [snd]. apply lookup_insert_eq.
Qed.

(** C8, as stated, fails for updates less than 1 ms apart: with the last
    update at 1000 ms, a new one at 1000.5 ms and a delta of one tile, the
    estimated velocity is 1 / 0.001 = 1000 tiles per second, not
    1 / 0.0005 = 2000. *)
Lemma syncView_velocity_not_delta_over_elapsed :
  let v := mkView 0 0 0 0 0 0 Down 1000 in
  let now := 1000.5%Q in
  let dx := 1 - tx v in
  let elapsedSec := ((now - lastUpdate v) / 1000)%Q in
  Z.abs dx <= 3 /\ Z.abs (0 - ty v) <= 3
  /\ (vx (syncView now 1 0 v) == 1000)%Q
  /\ ~ (vx (syncView now 1 0 v) == inject_Z dx / elapsedSec)%Q
  /\ (vx (movementView now 1 0 None v) == 1000)%Q
  /\ ~ (vx (movementView now 1 0 None v) == inject_Z dx / elapsedSec)%Q.
Proof.
  cbv zeta. repeat split; try (vm_compute; congruence);
    intros H; vm_compute in H; discriminate.
Qed.

(** C8 (amended). For every remote-player view and received position, in the
    presence [sync] handler and in the [movement] broadcast handler alike:
    the target becomes the received position; when the delta from the previous
    target exceeds 3 tiles on either axis the velocity is set to zero and the
    rendered position is snapped to the new target; when it is within 3 tiles
    on both axes the rendered position is left alone and the velocity is the
    delta divided by the seconds elapsed since the last update, floored at
    0.001 s (for updates at least 1 ms apart: the elapsed seconds
    themselves). *)
Theorem remote_view_snaps_or_estimates :
  forall (now : Q) (ox oy : Z) (pf : option Dir) (v : View),
    let dx := ox - tx v in
    let dy := oy - ty v in
    let s := syncView now ox oy v in
    let m := movementView now ox oy pf v in
    let lu := if Qeq_bool (lastUpdate v) 0 then now else lastUpdate v in
    let dtS := Qmax 0.001 ((now - lastUpdate v) / 1000) in
    let dtM := Qmax 0.001 ((now - lu) / 1000) in
    (tx s = ox /\ ty s = oy /\ tx m = ox /\ ty m = oy)
    /\ ((3 < Z.abs dx \/ 3 < Z.abs dy) ->
        vx s = 0%Q /\ vy s = 0%Q /\ rx s = inject_Z ox /\ ry s = inject_Z oy
        /\ vx m = 0%Q /\ vy m = 0%Q /\ rx m = inject_Z ox /\ ry m = inject_Z oy)
    /\ ((Z.abs dx <= 3 /\ Z.abs dy <= 3) ->
        vx s = (inject_Z dx / dtS)%Q /\ vy s = (inject_Z dy / dtS)%Q
        /\ rx s = rx v /\ ry s = ry v
        /\ vx m = (inject_Z dx / dtM)%Q /\ vy m = (inject_Z dy / dtM)%Q
        /\ rx m = rx v /\ ry m = ry v)
    /\ (0.001 <= dtS)%Q /\ (0.001 <= dtM)%Q
    /\ ((1 <= now - lastUpdate v)%Q ->
        (dtS == (now - lastUpdate v) / 1000)%Q).
Proof.
  intros now ox oy pf v dx dy s m lu dtS dtM.
  split.
  { subst s m. unfold syncView, movementView.
    destruct ((Z.abs (ox - tx v) <=? 3) && (Z.abs (oy - ty v) <=? 3));
      repeat split. }
  split.
  { intros Hfar.
    assert (E : (Z.abs dx <=? 3) && (Z.abs dy <=? 3) = false).
    { apply andb_false_iff. destruct Hfar; [left | right]; apply Z.leb_gt; lia. }
    subst s m dx dy. unfold syncView, movementView. rewrite E. repeat split. }
  split.
  { intros [Hx Hy].
    assert (E : (Z.abs dx <=? 3) && (Z.abs dy <=? 3) = true).
    { apply andb_true_iff. split; apply Z.leb_le; assumption. }
    subst s m dx dy. unfold syncView, movementView. rewrite E. repeat split. }
  split; [apply floored_seconds_ge |].
  split; [apply floored_seconds_ge |].
  apply floored_seconds_exact.
Qed.

Lemma remote_view_snaps_or_estimates_witness :
  let v := mkView 0 0 0 0 0 0 Down 1000 in
  rx (syncView 2000 10 0 v) = inject_Z 10 /\ vx (syncView 2000 10 0 v) = 0%Q.
Proof.
  intros v.
  destruct (remote_view_snaps_or_estimates 2000 10 0 None v) as (_ & Hfar & _).
  assert (H : 3 < Z.abs (10 - tx v) \/ 3 < Z.abs (0 - ty v))
    by (left; vm_compute; reflexivity).
  destruct (Hfar H) as (Hvx & _ & Hrx & _).
  split; assumption.
Defined.

End Presence.

(** ** Growth and water expiry in a world tick *)

Section Growth.
Import JSNum World.

Lemma tickAt_same dt now y g x :
  tileAt (world (tickAt dt now y g x)) x y
    = tickTile dt now <$> tileAt (world g) x y.
Proof.
  unfold tickAt, tickTile.
  destruct (tileAt (world g) x y) as [t |] eqn:Et; [| now rewrite Et].
  cbn [fmap option_fmap option_map].
  destruct (growPlant dt (evaporate now t)) as [t' grew]. cbn [fst].
  assert (E : tileAt (mutTile (fun _ => t') x y (world g)) x y = Some t')
    by (now rewrite tileAt_mutTile, Et).
  destruct grew; exact E.
Qed.

Lemma tickAt_other dt now y g x x' y' :
  (x', y') <> (x, y) ->
  tileAt (world (tickAt dt now y g x)) x' y' = tileAt (world g) x' y'.
Proof.
  intros Hne. unfold tickAt.
  destruct (tileAt (world g) x y) as [t |]; [| reflexivity].
  destruct (growPlant dt (evaporate now t)) as [t' grew].
  assert (E : tileAt (mutTile (fun _ => t') x y (world g)) x' y'
              = tileAt (world g) x' y')
    by (now apply tileAt_mutTile_ne).
  destruct grew; exact E.
Qed.

(** The inner loop over the columns [xs] of row [y]. *)
Lemma tickRow_tile dt now y xs :
  NoDup xs ->
  forall g x' y',
    tileAt (world (fold_left (tickAt dt now y) xs g)) x' y'
      = if decide (y' = y /\ x' ∈ xs)
        then tickTile dt now <$> tileAt (world g) x' y'
        else tileAt (world g) x' y'.
Proof.
  induction 1 as [| x xs Hx Hxs IH]; intros g x' y'; cbn [fold_left].
  - case_decide as H; [| reflexivity]. destruct H as [_ H]. inversion H.
  - rewrite IH.
    destruct (decide (y' = y /\ x' = x)) as [[-> ->] | Hne].
    + rewrite decide_False by (intros [_ Hin]; contradiction).
      rewrite decide_True by (split; [reflexivity | left]).
      apply tickAt_same.
    + assert (Hxy : (x', y') <> (x, y)) by (intros [= -> ->]; apply Hne; auto).
      rewrite !(tickAt_other dt now y g x x' y' Hxy).
      destruct (decide (y' = y /\ x' ∈ xs)) as [[-> Hin] | Hnin].
      * rewrite decide_True by (split; [reflexivity | now right]). reflexivity.
      * rewrite decide_False; [reflexivity |].
        intros [-> Hin]. apply elem_of_cons in Hin as [-> | Hin];
          [apply Hne; auto | apply Hnin; auto].
Qed.

(** The outer loop over the rows [ys]. *)
Lemma tickRows_tile dt now xs ys :
  NoDup xs -> NoDup ys ->
  forall g x' y',
    tileAt (world (fold_left (fun g y => fold_left (tickAt dt now y) xs g) ys g))
           x' y'
      = if decide (y' ∈ ys /\ x' ∈ xs)
        then tickTile dt now <$> tileAt (world g) x' y'
        else tileAt (world g) x' y'.
Proof.
  intros Hxs. induction 1 as [| y ys Hy Hys IH]; intros g x' y'; cbn [fold_left].
  - case_decide as H; [| reflexivity]. destruct H as [H _]. inversion H.
  - rewrite IH, !(tickRow_tile dt now y xs Hxs).
    destruct (decide (y' ∈ ys /\ x' ∈ xs)) as [[Hin Hx] | Hnin].
    + rewrite decide_False by (intros [-> _]; contradiction).
      rewrite decide_True by (split; [now right | assumption]). reflexivity.
    + destruct (decide (y' = y /\ x' ∈ xs)) as [[-> Hx] | Hne].
      * rewrite decide_True by (split; [left | assumption]). reflexivity.
      * rewrite decide_False; [reflexivity |].
        intros [Hin Hx]. apply elem_of_cons in Hin as [-> | Hin];
          [apply Hne; auto | apply Hnin; auto].
Qed.

(** A world tick applies [tickTile] to every tile of the grid. *)
Lemma tickWorld_tile dt now g x y :
  tileAt (world (tickWorld dt now g)) x y
    = tickTile dt now <$> tileAt (world g) x y.
Proof.
  unfold tickWorld.
  rewrite (tickRows_tile dt now _ _ (NoDup_seqZ 0 WORLD_W) (NoDup_seqZ 0 WORLD_H)).
  case_decide as H; [reflexivity |].
  assert (E : tileAt (world g) x y = None); [| now rewrite E].
  unfold tileAt. destruct (inBounds x y) eqn:Eb; [| reflexivity].
  exfalso. apply H. unfold inBounds in Eb.
  repeat (apply andb_true_iff in Eb as [Eb ?]).
  rewrite !elem_of_seqZ. lia.
Qed.

(** *** One tile in one tick *)




(** Every stage before the last of every crop takes a positive time. *)
Lemma stageNeeded_pos k st :
  0 <= st -> st < Z.of_nat (length (colors (CROPS k))) - 1 ->
  (0 < stageNeeded (CROPS k) st)%Q.
Proof.
  intros H0 H1.
  assert (Hst : st = 0 \/ st = 1) by (destruct k; cbn in H1; lia).
  destruct Hst as [-> | ->]; destruct k; reflexivity.
Qed.




Example seedling_advances :
  plant (tickTile 16 100 seedlingTile)
    = Some {| p_type := turnip; stage := 1; growthMs := 0 |}.
Proof. vm_compute. reflexivity. Qed.

(** The sum is the rounded one: a turnip seedling at 7999.9 ms that gets a
    tick of 0.1 ms reaches the 8000 ms of its stage and advances, although
    the two numbers, taken exactly, add up to less than 8000. *)
Example rounded_sum_advances :
  let t := set_plant (Some {| p_type := turnip; stage := 0;
                              growthMs := roundDouble 7999.9 |}) seedlingTile in
  (roundDouble 7999.9 + roundDouble 0.1 < 8000)%Q
  /\ plant (tickTile (roundDouble 0.1) 100 t)
     = Some {| p_type := turnip; stage := 1; growthMs := 0 |}.
Proof. split; vm_compute; reflexivity. Qed.

End Growth.

(** ** Save / load round trip of the world grid *)

Section Persistence.
Import JSNum World.

(** A loop that collects one result per index: it succeeds when every
    iteration does, and then holds each iteration's result at its index. *)
Lemma mapM_seqZ_lookup {A : Type} (f : Z -> option A) (n : Z) :
  (forall i, 0 <= i < n -> is_Some (f i)) ->
  exists l, mapM f (seqZ 0 n) = Some l
    /\ length l = Z.to_nat n
    /\ forall i, 0 <= i < n -> l !! Z.to_nat i = f i.
Proof.
  intros Hf.
  destruct (mapM_is_Some_2 f (seqZ 0 n)) as [l Hl].
  { apply Forall_forall. intros i Hi. apply elem_of_seqZ in Hi.
    apply Hf. lia. }
  exists l. split; [exact Hl |].
  apply mapM_Some_1 in Hl.
  pose proof (Forall2_length _ _ _ Hl) as Hlen. rewrite length_seqZ in Hlen.
  split; [now symmetry |].
  intros i Hi.
  assert (Hs : seqZ 0 n !! Z.to_nat i = Some i).
  { rewrite lookup_seqZ_lt by lia. f_equal. lia. }
  destruct (lookup_lt_is_Some_2 l (Z.to_nat i)) as [a Ha]; [lia |].
  rewrite Ha. symmetry. exact (Forall2_lookup_lr _ _ _ _ _ _ Hl Hs Ha).
Qed.

Lemma inBounds_spec x y :
  inBounds x y = true <-> 0 <= x < WORLD_W /\ 0 <= y < WORLD_H.
Proof.
  unfold inBounds. rewrite !andb_true_iff, !Z.leb_le, !Z.ltb_lt. lia.
Qed.

Lemma tileAt_in_bounds (w : list (list Tile)) x y t :
  tileAt w x y = Some t -> 0 <= x < WORLD_W /\ 0 <= y < WORLD_H.
Proof.
  unfold tileAt. destruct (inBounds x y) eqn:E; [| discriminate].
  intros _. now apply inBounds_spec.
Qed.

Lemma grid_ok_tileAt (w : list (list Tile)) x y :
  grid_ok w -> 0 <= x < WORLD_W -> 0 <= y < WORLD_H -> is_Some (tileAt w x y).
Proof.
  intros [Hlen Hrows] Hx Hy. unfold tileAt.
  rewrite (proj2 (inBounds_spec x y)) by auto.
  destruct (lookup_lt_is_Some_2 w (Z.to_nat y)) as [row Hrow]; [lia |].
  rewrite Hrow. cbn.
  apply lookup_lt_is_Some_2.
  rewrite (proj1 (Forall_lookup _ _) Hrows _ _ Hrow). lia.
Qed.

(** A grid given by its rows, each given by its cells. *)
Lemma grid_of_lookups (w : list (list Tile)) (cell : Z -> Z -> Tile) :
  length w = Z.to_nat WORLD_H ->
  (forall y, 0 <= y < WORLD_H ->
     exists row, w !! Z.to_nat y = Some row
       /\ length row = Z.to_nat WORLD_W
       /\ forall x, 0 <= x < WORLD_W -> row !! Z.to_nat x = Some (cell x y)) ->
  grid_ok w
  /\ forall x y, 0 <= x < WORLD_W -> 0 <= y < WORLD_H ->
       tileAt w x y = Some (cell x y).
Proof.
  intros Hlen Hrows. split; [split; [exact Hlen |] |].
  - apply Forall_lookup. intros j row Hj.
    pose proof (lookup_lt_Some _ _ _ Hj) as Hlt.
    destruct (Hrows (Z.of_nat j)) as (row' & Hr & Hl & _); [lia |].
    rewrite Nat2Z.id in Hr. congruence.
  - intros x y Hx Hy. unfold tileAt.
    rewrite (proj2 (inBounds_spec x y)) by auto.
    destruct (Hrows y Hy) as (row & Hr & _ & Hc).
    rewrite Hr. cbn. now apply Hc.
Qed.

Lemma serializeWorld_ok now (w : list (list Tile)) :
  grid_ok w ->
  exists rows, serializeWorld now w = Some rows
    /\ forall x y t, tileAt w x y = Some t ->
         (row ← rows !! Z.to_nat y; row !! Z.to_nat x) = Some (serializeTile now t).
Proof.
  intros Hok. unfold serializeWorld.
  assert (Hin : forall y, 0 <= y < WORLD_H ->
            exists row,
              mapM (fun x => serializeTile now <$> tileAt w x y) (seqZ 0 WORLD_W)
                = Some row
              /\ forall x, 0 <= x < WORLD_W ->
                   row !! Z.to_nat x = serializeTile now <$> tileAt w x y).
  { intros y Hy.
    destruct (mapM_seqZ_lookup
                (fun x => serializeTile now <$> tileAt w x y) WORLD_W)
      as (row & Hrow & _ & Hl).
    - intros x Hx. apply fmap_is_Some. now apply grid_ok_tileAt.
    - eauto. }
  destruct (mapM_seqZ_lookup
              (fun y => mapM (fun x => serializeTile now <$> tileAt w x y)
                             (seqZ 0 WORLD_W)) WORLD_H)
    as (rows & Hrows & _ & Hl).
  { intros y Hy. destruct (Hin y Hy) as (row & -> & _). eauto. }
  exists rows. split; [exact Hrows |].
  intros x y t Ht. destruct (tileAt_in_bounds w x y t Ht) as [Hx Hy].
  rewrite (Hl y Hy). destruct (Hin y Hy) as (row & -> & Hc). cbn.
  now rewrite (Hc x Hx), Ht.
Qed.

Lemma deserializeWorld_ok now (rows : list (list SerTile)) (current : list (list Tile)) :
  (forall x y, 0 <= x < WORLD_W -> 0 <= y < WORLD_H ->
     is_Some (row ← rows !! Z.to_nat y; row !! Z.to_nat x)) ->
  exists w', deserializeWorld now (Some rows) current = Some w'
    /\ grid_ok w'
    /\ forall x y r, 0 <= x < WORLD_W -> 0 <= y < WORLD_H ->
         (row ← rows !! Z.to_nat y; row !! Z.to_nat x) = Some r ->
         tileAt w' x y = Some (deserializeTile now x y r).
Proof.
  intros Hrows. unfold deserializeWorld.
  set (cellOf := fun (y x : Z) =>
         r ← (row ← rows !! Z.to_nat y; row !! Z.to_nat x);
         Some (deserializeTile now x y r)).
  assert (Hin : forall y, 0 <= y < WORLD_H ->
            exists row, mapM (cellOf y) (seqZ 0 WORLD_W) = Some row
              /\ length row = Z.to_nat WORLD_W
              /\ forall x, 0 <= x < WORLD_W -> row !! Z.to_nat x = cellOf y x).
  { intros y Hy. apply mapM_seqZ_lookup. intros x Hx. unfold cellOf.
    destruct (Hrows x y Hx Hy) as [r ->]. cbn. eauto. }
  destruct (mapM_seqZ_lookup (fun y => mapM (cellOf y) (seqZ 0 WORLD_W)) WORLD_H)
    as (w' & Hw' & Hlen & Hl).
  { intros y Hy. destruct (Hin y Hy) as (row & -> & _). eauto. }
  exists w'. split; [exact Hw' |].
  set (dummy := serializeTile 0 (makeTile 0 0 TILE_Grass)).
  destruct (grid_of_lookups w'
              (fun x y => deserializeTile now x y
                 (default dummy (row ← rows !! Z.to_nat y; row !! Z.to_nat x)))
              Hlen) as [Hok Hcells].
  { intros y Hy. destruct (Hin y Hy) as (row & Hrow & Hrl & Hc).
    exists row. rewrite (Hl y Hy). split; [exact Hrow |]. split; [exact Hrl |].
    intros x Hx. rewrite (Hc x Hx). unfold cellOf.
    destruct (Hrows x y Hx Hy) as [r ->]. reflexivity. }
  split; [exact Hok |].
  intros x y r Hx Hy Hr. rewrite (Hcells x y Hx Hy), Hr. reflexivity.
Qed.

(** *** One tile through save and load *)

Lemma truthy_flag b : truthy (flag b) = b.
Proof. now destruct b. Qed.

Lemma roundtrip_tile now now' x y t :
  let t' := deserializeTile now' x y (serializeTile now t) in
  tileId t' = tileId t /\ tilled t' = tilled t /\ watered t' = watered t
  /\ walkable t' = walkable t /\ coord t' = (x, y)
  /\ plant t' =
       match plant t with
       | Some p => Some {| p_type := p_type p; stage := stage p;
                           growthMs := inject_Z (Qfloor (growthMs p)) |}
       | None => None
       end
  /\ waterEndAt t' =
       if watered t
       then fadd now' (inject_Z (Z.max 0 (Qfloor (fsub (waterEndAt t) now))))
       else 0%Q.
Proof.
  cbv zeta. unfold deserializeTile, serializeTile.
  cbn [ser_i ser_ti ser_wa ser_wr ser_pl ser_w tileId tilled watered walkable
       coord plant waterEndAt makeTile].
  rewrite !truthy_flag.
  destruct (plant t) as [p |]; destruct (watered t); repeat split.
Qed.

Lemma floor_within_one (q : Q) :
  (inject_Z (Qfloor q) <= q)%Q /\ (q < inject_Z (Qfloor q) + 1)%Q.
Proof.
  split; [apply Qfloor_le |].
  pose proof (Qlt_floor q) as H. rewrite inject_Z_plus in H. exact H.
Qed.

Lemma ceiling_within_one (q : Q) :
  (q <= inject_Z (Qceiling q))%Q /\ (inject_Z (Qceiling q) < q + 1)%Q.
Proof.
  split; [apply Qle_ceiling |].
  pose proof (Qceiling_lt q) as H.
  replace (Qceiling q - 1) with (Qceiling q + -1) in H by lia.
  rewrite inject_Z_plus in H. change (inject_Z (-1)) with (- (1))%Q in H. lra.
Qed.

(** The remaining water duration a tile is saved with: the whole ms of the
    number [waterEndAt - now], never below 0. *)
Lemma stored_duration (rem : Q) :
  let wr := Z.max 0 (Qfloor (roundDouble rem)) in
  0 <= wr
  /\ ((0 <= rem)%Q -> (rem <= inject_Z (2 ^ 53 - 1))%Q ->
      (rem - 1 < inject_Z wr)%Q /\ (inject_Z wr < rem + 1)%Q)
  /\ ((rem < 0)%Q -> wr = 0).
Proof.
  cbv zeta. split; [lia |]. split.
  - intros Hpos Hmax.
    destruct (floor_within_one rem) as [Flo Fhi].
    destruct (ceiling_within_one rem) as [Clo Chi].
    destruct (floor_within_one (roundDouble rem)) as [Rlo Rhi].
    assert (HF : 0 <= Qfloor rem).
    { change 0 with (Qfloor (inject_Z 0)). now apply Qfloor_resp_le. }
    assert (HF' : Qfloor rem <= 2 ^ 53 - 1).
    { rewrite <- (Qfloor_Z (2 ^ 53 - 1)). now apply Qfloor_resp_le. }
    assert (HC : 0 <= Qceiling rem).
    { change 0 with (Qceiling (inject_Z 0)). now apply Qceiling_resp_le. }
    assert (HC' : Qceiling rem <= 2 ^ 53 - 1).
    { rewrite <- (Qceiling_Z (2 ^ 53 - 1)). now apply Qceiling_resp_le. }
    pose proof (roundDouble_ge_nat (Qfloor rem) rem ltac:(lia) Flo) as Glo.
    pose proof (roundDouble_le_int (Qceiling rem) rem ltac:(lia) Clo) as Ghi.
    assert (H1 : Qfloor rem <= Qfloor (roundDouble rem)).
    { rewrite <- (Qfloor_Z (Qfloor rem)). now apply Qfloor_resp_le. }
    assert (H2 : 0 <= Qfloor (roundDouble rem)) by lia.
    rewrite Z.max_r by exact H2.
    rewrite Zle_Qle in H1. split; lra.
  - intros Hneg.
    pose proof (roundDouble_nonpos rem ltac:(lra)) as Hn.
    assert (H0 : Qfloor (roundDouble rem) <= 0).
    { change 0 with (Qfloor (inject_Z 0)). now apply Qfloor_resp_le. }
    lia.
Qed.

Lemma mutTile_grid_ok f x y (w : list (list Tile)) :
  grid_ok w -> grid_ok (mutTile f x y w).
Proof.
  intros [Hlen Hrows]. unfold mutTile. destruct (inBounds x y); [| now split].
  split; [now rewrite length_alter |].
  apply Forall_lookup. intros j row Hj.
  destruct (decide (j = Z.to_nat y)) as [-> | Hne].
  - rewrite list_lookup_alter_eq in Hj.
    destruct (w !! Z.to_nat y) as [row0 |] eqn:E; [| discriminate].
    cbn in Hj. injection Hj as <-. rewrite length_alter.
    exact (proj1 (Forall_lookup _ _) Hrows _ _ E).
  - rewrite list_lookup_alter_ne in Hj by congruence.
    exact (proj1 (Forall_lookup _ _) Hrows _ _ Hj).
Qed.

Lemma grassWorld_ok : grid_ok grassWorld.
Proof.
  unfold grassWorld. split.
  - now rewrite length_fmap, length_seqZ.
  - apply Forall_fmap, Forall_forall. intros y _. cbn.
    now rewrite length_fmap, length_seqZ.
Qed.

Lemma farmGame_grid_ok : grid_ok (world farmGame).
Proof.
  unfold farmGame, demoGame. cbn [world set_world].
  repeat apply mutTile_grid_ok. apply grassWorld_ok.
Qed.

(** A grid with the overdue tile at (0,0): the tile was watered until
    1000 ms, and no world tick has run since (the frames are paused while
    the page is hidden, the saving poll is not). *)
Lemma overdueWorld_ok : grid_ok overdueWorld.
Proof. unfold overdueWorld. apply mutTile_grid_ok, grassWorld_ok. Qed.

(** C3, as stated, fails for a watered tile whose water is overdue at save
    time: saved at 5000 ms, the tile watered until 1000 ms has the remaining
    duration -4000 ms; the codec stores 0 for it, and after the load (here at
    the same clock reading) the tile is watered with a remaining duration of
    0 ms, which is 4000 ms off. *)
Lemma overdue_water_reloads_with_no_time_left :
  exists rows w' t',
    tileAt overdueWorld 0 0 = Some overdueTile
    /\ watered overdueTile = true
    /\ (waterEndAt overdueTile - 5000 == - (4000))%Q
    /\ serializeWorld 5000 overdueWorld = Some rows
    /\ deserializeWorld 5000 (Some rows) [] = Some w'
    /\ tileAt w' 0 0 = Some t'
    /\ watered t' = true
    /\ (waterEndAt t' - 5000 == 0)%Q
    /\ ~ (Qabs ((waterEndAt t' - 5000) - (waterEndAt overdueTile - 5000))
          <= 1000)%Q.
Proof.
  assert (Ht : tileAt overdueWorld 0 0 = Some overdueTile)
    by (vm_compute; reflexivity).
  destruct (serializeWorld_ok 5000 overdueWorld overdueWorld_ok)
    as (rows & Hser & Hcells).
  destruct (deserializeWorld_ok 5000 rows []) as (w' & Hde & _ & Htiles).
  { intros x y Hx Hy.
    destruct (grid_ok_tileAt overdueWorld x y overdueWorld_ok Hx Hy) as [t Hxy].
    rewrite (Hcells x y t Hxy). eauto. }
  exists rows, w', (deserializeTile 5000 0 0 (serializeTile 5000 overdueTile)).
  split; [exact Ht |]. split; [reflexivity |]. split; [reflexivity |].
  split; [exact Hser |]. split; [exact Hde |].
  split; [apply Htiles; [vm_compute; split; congruence
                        | vm_compute; split; congruence
                        | now apply Hcells] |].
  split; [reflexivity |]. split; [vm_compute; reflexivity |].
  vm_compute. intros H. apply H. reflexivity.
Qed.

(** C3 (amended). Round trip of the world codec. Serializing a grid of the
    game's shape succeeds, and deserializing the result, at any later
    instant, succeeds and gives a grid of the same shape. The serialized tile
    stores the watered flag and the remaining water duration, not the
    timestamp: the whole ms of the number [waterEndAt - now], and 0 when that
    is negative. For every tile, [tileId], [tilled], [walkable] and [watered]
    are reproduced, and a plant keeps its type and stage and gets its
    [growthMs] rounded down to whole ms. For a watered tile with a remaining
    duration r at save time: if 0 <= r (below 2^53 ms) the stored duration is
    within 1 ms of r; if r < 0 the stored duration is 0, and the tile comes
    back watered until the load instant; the new [waterEndAt] is the number
    [now' + stored], so the remaining duration after the load differs from
    the stored one by the rounding of that one addition at most. *)
Theorem world_save_load_roundtrip :
  forall (now now' : Q) (w current : list (list Tile)),
    grid_ok w ->
    exists rows w',
      serializeWorld now w = Some rows
      /\ deserializeWorld now' (Some rows) current = Some w'
      /\ grid_ok w'
      /\ forall x y t, tileAt w x y = Some t ->
           exists r t',
             (row ← rows !! Z.to_nat y; row !! Z.to_nat x) = Some r
             /\ tileAt w' x y = Some t'
             /\ ser_wa r = flag (watered t)
             /\ ser_wr r = (if watered t
                            then Z.max 0 (Qfloor (fsub (waterEndAt t) now))
                            else 0)
             /\ tileId t' = tileId t /\ tilled t' = tilled t
             /\ walkable t' = walkable t /\ watered t' = watered t
             /\ (plant t = None -> plant t' = None)
             /\ (forall p, plant t = Some p ->
                   exists p', plant t' = Some p'
                     /\ p_type p' = p_type p /\ stage p' = stage p
                     /\ growthMs p' = inject_Z (Qfloor (growthMs p))
                     /\ (growthMs p' <= growthMs p)%Q
                     /\ (growthMs p < growthMs p' + 1)%Q)
             /\ (watered t = true ->
                   let rem := (waterEndAt t - now)%Q in
                   let rem' := (waterEndAt t' - now')%Q in
                   let stored := inject_Z (ser_wr r) in
                   0 <= ser_wr r
                   /\ waterEndAt t' = fadd now' stored
                   /\ ((0 <= rem)%Q -> (rem <= inject_Z (2 ^ 53 - 1))%Q ->
                       (rem - 1 < stored)%Q /\ (stored < rem + 1)%Q)
                   /\ ((rem < 0)%Q ->
                       ser_wr r = 0 /\ waterEndAt t' = roundDouble now')
                   /\ (Qabs (rem' - stored)
                         <= Qabs (now' + stored) * relErr + absErr)%Q).
Proof.
  intros now now' w current Hok.
  destruct (serializeWorld_ok now w Hok) as (rows & Hser & Hcells).
  destruct (deserializeWorld_ok now' rows current) as (w' & Hde & Hok' & Htiles).
  { intros x y Hx Hy.
    destruct (grid_ok_tileAt w x y Hok Hx Hy) as [t Ht].
    rewrite (Hcells x y t Ht). eauto. }
  exists rows, w'. split; [exact Hser |]. split; [exact Hde |].
  split; [exact Hok' |].
  intros x y t Ht. destruct (tileAt_in_bounds w x y t Ht) as [Hx Hy].
  exists (serializeTile now t), (deserializeTile now' x y (serializeTile now t)).
  split; [now apply Hcells |].
  split; [apply Htiles; auto |].
  destruct (roundtrip_tile now now' x y t) as (R1 & R2 & R3 & R4 & _ & R6 & R7).
  split; [reflexivity |]. split; [reflexivity |].
  split; [exact R1 |]. split; [exact R2 |]. split; [exact R4 |].
  split; [exact R3 |].
  split; [intros Hn; now rewrite R6, Hn |].
  split.
  - intros p Hp. rewrite R6, Hp. eexists. split; [reflexivity |].
    cbn [p_type stage growthMs].
    destruct (floor_within_one (growthMs p)). repeat split; assumption.
  - intros Hw. cbv zeta. rewrite R7. unfold serializeTile. cbn [ser_wr].
    rewrite Hw. unfold fsub.
    destruct (stored_duration (waterEndAt t - now)) as (S0 & S1 & S2).
    cbv zeta in S0, S1, S2.
    set (wr := Z.max 0 (Qfloor (roundDouble (waterEndAt t - now)))) in *.
    split; [exact S0 |]. split; [reflexivity |]. split; [exact S1 |].
    split.
    + intros Hneg. rewrite (S2 Hneg). split; [reflexivity | apply fadd_0_r].
    + unfold fadd.
      assert (E : (roundDouble (now' + inject_Z wr) - now' - inject_Z wr
                   == roundDouble (now' + inject_Z wr) - (now' + inject_Z wr))%Q)
        by ring.
      rewrite E. apply roundDouble_error.
Qed.

Lemma world_save_load_roundtrip_witness :
  exists rows w' t',
    serializeWorld 100 (world farmGame) = Some rows
    /\ deserializeWorld 5000 (Some rows) [] = Some w'
    /\ grid_ok w'
    /\ tileAt w' 0 0 = Some t'
    /\ watered t' = true
    /\ plant t' = Some {| p_type := turnip; stage := 0; growthMs := 7990 |}.
Proof.
  assert (Ht : tileAt (world farmGame) 0 0 = Some seedlingTile)
    by (vm_compute; reflexivity).
  destruct (world_save_load_roundtrip 100 5000 (world farmGame) [] farmGame_grid_ok)
    as (rows & w' & H1 & H2 & H3 & Hall).
  destruct (Hall 0 0 seedlingTile Ht)
    as (r & t' & _ & Ht' & _ & _ & _ & _ & _ & Hwat & _ & Hpl & _).
  destruct (Hpl _ eq_refl) as (p' & Hp' & Hty & Hst & Hgm & _).
  exists rows, w', t'.
  split; [exact H1 |]. split; [exact H2 |]. split; [exact H3 |].
  split; [exact Ht' |]. split; [exact Hwat |].
  rewrite Hp'. destruct p' as [ty st gm]. cbn in Hty, Hst, Hgm.
  now rewrite Hty, Hst, Hgm.
Defined.

Example seedling_roundtrip :
  let t' := deserializeTile 5000 0 0 (serializeTile 100.25 seedlingTile) in
  watered t' = true /\ (waterEndAt t' - 5000 == 59899)%Q
  /\ ser_wr (serializeTile 100.25 seedlingTile) = 59899.
Proof. cbv zeta. repeat split; vm_compute; reflexivity. Qed.

(** The stored duration is the floor of the number the script computes: a
    tile watered until 60000.1 ms and saved at 0.1 ms is stored with 60000
    ms, the two numbers being less than 60000 apart before rounding. *)
Example stored_duration_is_of_the_rounded_difference :
  let t := set_water true (roundDouble 60000.1) seedlingTile in
  (waterEndAt t - roundDouble 0.1 < 60000)%Q
  /\ ser_wr (serializeTile (roundDouble 0.1) t) = 60000.
Proof. cbv zeta. split; vm_compute; reflexivity. Qed.

End Persistence.

(** ** The gather state machine: from Active back to Idle *)

Section GatherMachine.
Import JSNum World.



End GatherMachine.

(** ** The generator behind [Game.rng] *)

Section Generator.
Import Rng.

Lemma toUint32_range z : 0 <= toUint32 z < 2 ^ 32.
Proof. unfold toUint32. apply Z.mod_pos_bound. reflexivity. Qed.

Lemma ushr_0_range a : 0 <= ushr a 0 < 4294967296.
Proof. unfold ushr. rewrite Z.shiftr_0_r. apply toUint32_range. Qed.

Lemma mulberry32_unit seed :
  (0 <= fst (mulberry32 seed))%Q /\ (fst (mulberry32 seed) < 1)%Q.
Proof.
  unfold mulberry32. cbv zeta. cbn [fst].
  match goal with
  | |- context [ushr ?a 0] =>
      pose proof (ushr_0_range a) as H; set (u := ushr a 0) in *
  end.
  clearbody u. split.
  - apply Qle_shift_div_l; [reflexivity |]. rewrite Qmult_0_l.
    change 0%Q with (inject_Z 0). rewrite <- Zle_Qle. lia.
  - apply Qlt_shift_div_r; [reflexivity |]. rewrite Qmult_1_l.
    change 4294967296%Q with (inject_Z 4294967296). rewrite <- Zlt_Qlt. lia.
Qed.

Lemma index_range (v : Q) (n : Z) :
  (0 <= v)%Q -> (v < 1)%Q -> 0 < n -> 0 <= index v n < n.
Proof.
  intros H0 H1 Hn. unfold index.
  assert (Hn' : (0 < inject_Z n)%Q)
    by (change 0%Q with (inject_Z 0); now rewrite <- Zlt_Qlt).
  split.
  - change 0 with (Qfloor (inject_Z 0)). apply Qfloor_resp_le.
    change (inject_Z 0) with 0%Q. apply Qmult_le_0_compat; [exact H0 |].
    now apply Qlt_le_weak.
  - rewrite Zlt_Qlt. apply (Qle_lt_trans _ (v * inject_Z n)); [apply Qfloor_le |].
    rewrite <- (Qmult_1_l (inject_Z n)) at 2.
    apply Qmult_lt_compat_r; assumption.
Qed.

(** X1. Every draw of the generator is a multiple of 2^-32 in [0, 1),
    whatever the seed; hence [Math.floor(rand() * n)] is an index below [n],
    for every [n] up to 2^21 (where the product is exact in the arithmetic
    of the script as well). *)
Theorem mulberry32_draw_indexes_below (seed n : Z) :
  0 < n <= 2097152 ->
  let v := fst (mulberry32 seed) in
  (0 <= v)%Q /\ (v < 1)%Q
  /\ (exists k, 0 <= k < 4294967296 /\ v = (inject_Z k / 4294967296)%Q)
  /\ 0 <= index v n < n.
Proof.
  intros Hn v. destruct (mulberry32_unit seed) as [H0 H1].
  split; [exact H0 |]. split; [exact H1 |].
  split; [| apply index_range; [exact H0 | exact H1 | lia]].
  eexists. split; [apply ushr_0_range | reflexivity].
Qed.

Lemma mulberry32_draw_indexes_below_witness :
  0 <= index (fst (mulberry32 1337)) World.WORLD_W < World.WORLD_W.
Proof.
  assert (H : 0 < World.WORLD_W <= 2097152) by (split; [reflexivity | discriminate]).
  exact (proj2 (proj2 (proj2 (mulberry32_draw_indexes_below 1337 World.WORLD_W H)))).
Defined.

End Generator.

(** ** Harvest counters of decorations *)

Section HarvestCounters.
Import World Farm.

Lemma initialHarvestCounters_range category seed :
  let mx := fst (fst (initialHarvestCountersForType category seed)) in
  let rem := snd (fst (initialHarvestCountersForType category seed)) in
  rem = mx /\ 1 <= mx <= 5
  /\ (category = "flowers" -> mx = 1)
  /\ (category = "Trees" -> 3 <= mx <= 5)
  /\ (category = "minerals" -> 1 <= mx <= 3).
Proof.
  cbv zeta. unfold initialHarvestCountersForType.
  destruct (String.eqb_spec category "flowers") as [-> | H1].
  { cbn. repeat split; try lia; discriminate. }
  destruct (String.eqb_spec category "Trees") as [-> | H2].
  { destruct (Rng.mulberry32 seed) as [v s'] eqn:E. cbn [fst snd].
    destruct (mulberry32_unit seed) as [A B]. rewrite E in A, B. cbn in A, B.
    pose proof (index_range v 3 A B ltac:(lia)).
    repeat split; try lia; discriminate. }
  destruct (String.eqb_spec category "minerals") as [-> | H3].
  { destruct (Rng.mulberry32 seed) as [v s'] eqn:E. cbn [fst snd].
    destruct (mulberry32_unit seed) as [A B]. rewrite E in A, B. cbn in A, B.
    pose proof (index_range v 3 A B ltac:(lia)).
    repeat split; try lia; discriminate. }
  cbn. repeat split; try lia; intros; contradiction.
Qed.

Lemma countersEnsured_has d d' : countersEnsured d d' -> hasCounters d -> d' = d.
Proof.
  unfold countersEnsured, hasCounters. intros H [[m Hm] [n Hn]].
  now rewrite Hm, Hn in H.
Qed.

Lemma countersEnsured_gives d d' : countersEnsured d d' -> hasCounters d'.
Proof.
  unfold countersEnsured, hasCounters.
  destruct (maxHarvests d) as [m |] eqn:Em;
    destruct (remainingHarvests d) as [n |] eqn:En; intros H;
    try (destruct H as (mx & rem & -> & _); cbn; split; eauto).
  subst d'. rewrite Em, En. split; eauto.
Qed.

(** One entry of the list. *)
Lemma ensureCountersAt_step os seed a :
  let os1 := fst (ensureCountersAt (os, seed) a) in
  match os !! a with
  | None => os1 = os
  | Some d => exists d1, os1 = <[a := d1]> os /\ countersEnsured d d1
  end.
Proof.
  cbv zeta. unfold ensureCountersAt.
  destruct (os !! a) as [d |] eqn:Ea; [| reflexivity].
  unfold countersEnsured.
  pose proof (initialHarvestCounters_range (d_type d) seed) as R. cbv zeta in R.
  destruct (initialHarvestCountersForType (d_type d) seed) as [[mx rem] seed'].
  cbn [fst snd] in R. destruct R as (R0 & R1 & R2 & R3 & R4).
  destruct (maxHarvests d) as [m |] eqn:Em;
    destruct (remainingHarvests d) as [n |] eqn:En; cbn [fst].
  - exists d. split; [now rewrite insert_id | reflexivity].
  - eexists. split; [reflexivity |]. exists mx, rem.
    repeat split; try lia; try assumption; try (apply R3; assumption);
      try (apply R4; assumption); try discriminate.
  - eexists. split; [reflexivity |]. exists mx, (Z.max 0 (Z.min n mx)).
    repeat split; try lia; try assumption; try (apply R3; assumption);
      try (apply R4; assumption); try discriminate.
    intros n' [= <-]. reflexivity.
  - eexists. split; [reflexivity |]. exists mx, rem.
    repeat split; try lia; try assumption; try (apply R3; assumption);
      try (apply R4; assumption); try discriminate.
Qed.

(** The whole loop. *)
Lemma ensureCounters_fold l :
  forall os seed r,
    let os' := fst (fold_left ensureCountersAt l (os, seed)) in
    match os !! r with
    | None => os' !! r = None
    | Some d =>
        exists d', os' !! r = Some d'
          /\ ((r ∈ l /\ countersEnsured d d') \/ ((r ∉ l) /\ d' = d))
    end.
Proof.
  induction l as [| a l IH]; intros os seed r; cbv zeta.
  - cbn. destruct (os !! r) as [d |]; [| reflexivity].
    exists d. split; [reflexivity |]. right. split; [apply not_elem_of_nil | reflexivity].
  - cbn [fold_left].
    pose proof (ensureCountersAt_step os seed a) as Hs. cbv zeta in Hs.
    destruct (ensureCountersAt (os, seed) a) as [os1 seed1]. cbn [fst] in Hs.
    specialize (IH os1 seed1 r). cbv zeta in IH.
    destruct (decide (r = a)) as [-> | Hne].
    + destruct (os !! a) as [d |] eqn:Ea.
      * destruct Hs as (d1 & -> & Hd1).
        rewrite lookup_insert_eq in IH. destruct IH as (d' & Hd' & Hcase).
        assert (d' = d1) as ->.
        { destruct Hcase as [[_ H] | [_ H]]; [| exact H].
          apply (countersEnsured_has _ _ H). now apply (countersEnsured_gives d). }
        exists d1. split; [exact Hd' |]. left. split; [left | exact Hd1].
      * subst os1. now rewrite Ea in IH.
    + assert (E : os1 !! r = os !! r).
      { destruct (os !! a) as [d |]; [| now subst].
        destruct Hs as (d1 & -> & _). now apply lookup_insert_ne. }
      rewrite E in IH. destruct (os !! r) as [d |]; [| exact IH].
      destruct IH as (d' & Hd' & Hcase). exists d'. split; [exact Hd' |].
      destruct Hcase as [[Hin H] | [Hnin H]]; [left | right].
      * split; [now right | exact H].
      * split; [| exact H]. rewrite not_elem_of_cons. auto.
Qed.

(** A list whose decorations all have their counters draws nothing. *)
Lemma ensureCounters_fold_id l :
  forall os seed,
    (forall r d, r ∈ l -> os !! r = Some d -> hasCounters d) ->
    fold_left ensureCountersAt l (os, seed) = (os, seed).
Proof.
  induction l as [| a l IH]; intros os seed H; [reflexivity |].
  cbn [fold_left].
  assert (E : ensureCountersAt (os, seed) a = (os, seed)).
  { unfold ensureCountersAt. destruct (os !! a) as [d |] eqn:Ea; [| reflexivity].
    destruct (H a d ltac:(left) Ea) as [[m ->] [n ->]]. reflexivity. }
  rewrite E. apply IH. intros r d Hr. apply H. now right.
Qed.

Lemma set_objs_same g : set_objs (objs g) g = g.
Proof. now destruct g. Qed.

(** X2. [ensureDecorHarvestCounters] gives every listed decoration both
    harvest counters: one that has them is left alone; any other gets a
    maximum of 1 for flowers, 3 to 5 for trees, 1 to 3 for minerals and 1
    otherwise, with remaining harvests equal to it (an old number is kept,
    clamped into [0, maximum]). The list, unlisted objects and everything
    but the objects and the generator stay as they are, and a second call
    changes nothing and draws nothing. *)
Theorem ensureDecorHarvestCounters_initialises :
  forall st : Session,
    let st' := ensureDecorHarvestCounters st in
    st' = set_rngSeed (rngSeed st') (onGame (set_objs (objs (game st'))) st)
    /\ (forall r d, r ∈ decor (game st) -> objs (game st) !! r = Some d ->
          exists d', objs (game st') !! r = Some d'
            /\ countersEnsured d d' /\ hasCounters d')
    /\ (forall r, objs (game st) !! r = None -> objs (game st') !! r = None)
    /\ (forall r, r ∉ decor (game st) ->
          objs (game st') !! r = objs (game st) !! r)
    /\ ensureDecorHarvestCounters st' = st'.
Proof.
  intros st st'. subst st'. unfold ensureDecorHarvestCounters.
  pose proof (ensureCounters_fold (decor (game st)) (objs (game st)) (rngSeed st))
    as F. cbv zeta in F.
  destruct (fold_left ensureCountersAt (decor (game st))
              (objs (game st), rngSeed st)) as [os seed] eqn:E.
  cbn [fst] in F.
  cbn [game rngSeed set_rngSeed onGame set_game objs set_objs decor].
  split; [reflexivity |].
  assert (A : forall r d, r ∈ decor (game st) -> objs (game st) !! r = Some d ->
            exists d', os !! r = Some d' /\ countersEnsured d d' /\ hasCounters d').
  { intros r d Hin Hd. specialize (F r). rewrite Hd in F.
    destruct F as (d' & Hd' & [[_ H] | [Hnin _]]); [| contradiction].
    exists d'. split; [exact Hd' |]. split; [exact H |].
    now apply (countersEnsured_gives d). }
  assert (B : forall r, objs (game st) !! r = None -> os !! r = None).
  { intros r Hr. specialize (F r). now rewrite Hr in F. }
  split; [exact A |]. split; [exact B |]. split.
  - intros r Hnin. specialize (F r).
    destruct (objs (game st) !! r) as [d |]; [| exact F].
    destruct F as (d' & Hd' & [[Hin _] | [_ ->]]); [contradiction | exact Hd'].
  - rewrite ensureCounters_fold_id.
    + cbn [set_rngSeed onGame set_game game rngSeed objs set_objs].
      now destruct st as [[] ? ? ? ? ? ? ?].
    + intros r d Hin Hd.
      destruct (objs (game st) !! r) as [d0 |] eqn:E0.
      * destruct (A r d0 Hin E0) as (d' & Hd' & _ & Hc). congruence.
      * rewrite (B r E0) in Hd. discriminate.
Qed.

End HarvestCounters.

(** ** Stamina: bounds, settling, polling *)

Section StaminaRegeneration.
Import Mechanics Farm.

Ltac stam :=
  cbn [stamina_max stamina_current lastRegenAt set_lastRegenAt regen drain
       set_current].

Lemma set_lastRegenAt_same st last :
  lastRegenAt st = Some last -> set_lastRegenAt last st = st.
Proof. destruct st as [m c l]. cbn. now intros ->. Qed.

Lemma ticks_pos (elapsed : Z) :
  (0 <? elapsed / STAMINA_REGEN_INTERVAL_MS) = (STAMINA_REGEN_INTERVAL_MS <=? elapsed).
Proof.
  rewrite interval_value.
  pose proof (Z.div_mod elapsed 300000 ltac:(lia)).
  pose proof (Z.mod_pos_bound elapsed 300000 ltac:(lia)).
  destruct (Z.ltb_spec 0 (elapsed / 300000)), (Z.leb_spec 300000 elapsed);
    try reflexivity; lia.
Qed.

(** The poll as a function of the whole intervals elapsed. *)
Lemma regenTick_unfold now m c last :
  let k := (now - last) / STAMINA_REGEN_INTERVAL_MS in
  regenTick now {| stamina_max := m; stamina_current := c; lastRegenAt := Some last |}
  = if 0 <? k then
      {| stamina_max := m;
         stamina_current := if c <? m then c + Z.min k (m - c) else c;
         lastRegenAt := Some (last + k * STAMINA_REGEN_INTERVAL_MS) |}
    else {| stamina_max := m; stamina_current := c; lastRegenAt := Some last |}.
Proof.
  cbv zeta. unfold regenTick. cbn.
  destruct (0 <? (now - last) / STAMINA_REGEN_INTERVAL_MS) eqn:Ek; [| reflexivity].
  apply Z.ltb_lt in Ek.
  destruct (Z.ltb_spec c m) as [Hc | Hc]; [| reflexivity].
  replace (Z.max 0 (m - c)) with (m - c) by lia.
  destruct (Z.ltb_spec 0 (Z.min ((now - last) / STAMINA_REGEN_INTERVAL_MS) (m - c)));
    [| lia].
  unfold regen, set_current, set_lastRegenAt. cbn. f_equal. lia.
Qed.

Lemma regenTick_twice t1 t2 st last :
  lastRegenAt st = Some last -> t1 <= t2 ->
  regenTick t2 (regenTick t1 st) = regenTick t2 st.
Proof.
  destruct st as [m c l]. cbn. intros -> Ht.
  rewrite (regenTick_unfold t1). cbv zeta.
  set (k1 := (t1 - last) / STAMINA_REGEN_INTERVAL_MS).
  destruct (Z.ltb_spec 0 k1) as [Hk1 | Hk1]; [| reflexivity].
  rewrite !regenTick_unfold. cbv zeta.
  assert (Ek : (t2 - (last + k1 * STAMINA_REGEN_INTERVAL_MS)) / STAMINA_REGEN_INTERVAL_MS
               = (t2 - last) / STAMINA_REGEN_INTERVAL_MS - k1).
  { replace (t2 - (last + k1 * STAMINA_REGEN_INTERVAL_MS))
      with ((t2 - last) + (- k1) * STAMINA_REGEN_INTERVAL_MS) by lia.
    rewrite Z.div_add by (rewrite interval_value; lia). lia. }
  rewrite Ek.
  set (k := (t2 - last) / STAMINA_REGEN_INTERVAL_MS).
  assert (Hle : k1 <= k).
  { subst k k1. apply Z.div_le_mono; [rewrite interval_value; lia | lia]. }
  destruct (Z.ltb_spec 0 (k - k1)) as [Hk2 | Hk2];
    destruct (Z.ltb_spec 0 k) as [Hk | Hk]; try lia.
  - f_equal; [| f_equal; lia].
    destruct (Z.ltb_spec c m) as [Hc | Hc].
    + destruct (Z.ltb_spec (c + Z.min k1 (m - c)) m); lia.
    + destruct (Z.ltb_spec c m); lia.
  - assert (k = k1) by lia. subst k. now rewrite H.
Qed.

Lemma regenTick_baseline now st : is_Some (lastRegenAt (regenTick now st)).
Proof.
  unfold regenTick. cbv zeta. destruct (0 <? _); cbn; eauto.
Qed.

(** X3. The stamina pool stays within its bounds: from a pool with
    0 <= current <= max, [drain] and [regen] of a non-negative amount, the
    catch-up and the poll all keep [max] and leave 0 <= current <= max;
    [drain] never raises the pool, and [regen], the catch-up and the poll
    never lower it. *)
Theorem stamina_stays_within_bounds :
  forall (st : Stamina) (amount now : Z),
    0 <= stamina_current st <= stamina_max st -> 0 <= amount ->
    let ok := fun s : Stamina =>
                stamina_max s = stamina_max st
                /\ 0 <= stamina_current s <= stamina_max s in
    (ok (drain amount st) /\ stamina_current (drain amount st) <= stamina_current st)
    /\ (ok (regen amount st) /\ stamina_current st <= stamina_current (regen amount st))
    /\ (ok (applyStaminaCatchup now st)
        /\ stamina_current st <= stamina_current (applyStaminaCatchup now st))
    /\ (ok (regenTick now st)
        /\ stamina_current st <= stamina_current (regenTick now st)).
Proof.
  intros [m c l] amount now Hc Ha ok. subst ok. cbn in Hc. cbn beta.
  split; [unfold drain; stam; lia |]. split; [unfold regen; stam; lia |]. split.
  - unfold applyStaminaCatchup. stam.
    destruct l as [last |]; [| stam; lia].
    destruct (_ <? STAMINA_REGEN_INTERVAL_MS); [stam; lia |].
    destruct (m <=? c); [stam; lia |].
    destruct (0 <? (now - last) / _); [| stam; lia].
    destruct (Z.ltb_spec 0 (Z.min ((now - last) / STAMINA_REGEN_INTERVAL_MS)
                              (Z.max 0 (m - c)))); stam; lia.
  - destruct l as [last |].
    + rewrite regenTick_unfold. cbv zeta.
      destruct (Z.ltb_spec 0 ((now - last) / STAMINA_REGEN_INTERVAL_MS));
        [| stam; lia].
      stam. destruct (Z.ltb_spec c m); lia.
    + unfold regenTick. stam. cbn [default]. rewrite Z.sub_diag.
      change (0 / STAMINA_REGEN_INTERVAL_MS) with 0. cbn [Z.ltb Z.compare]. stam. lia.
Qed.

Lemma stamina_stays_within_bounds_witness :
  stamina_current (drain 3 {| stamina_max := 100; stamina_current := 2;
                              lastRegenAt := None |}) <= 2.
Proof.
  exact (proj2 (proj1 (stamina_stays_within_bounds
                         {| stamina_max := 100; stamina_current := 2;
                            lastRegenAt := None |} 3 0
                         ltac:(cbn; lia) ltac:(lia)))).
Defined.

Lemma applyStaminaCatchup_pending now m c last :
  now - last < STAMINA_REGEN_INTERVAL_MS ->
  applyStaminaCatchup now
    {| stamina_max := m; stamina_current := c; lastRegenAt := Some last |}
  = {| stamina_max := m; stamina_current := c; lastRegenAt := Some last |}.
Proof.
  intros H. unfold applyStaminaCatchup. stam.
  destruct (Z.ltb_spec (now - last) STAMINA_REGEN_INTERVAL_MS); [reflexivity | lia].
Qed.

Lemma applyStaminaCatchup_shape now st :
  exists c' last',
    applyStaminaCatchup now st
    = {| stamina_max := stamina_max st; stamina_current := c';
         lastRegenAt := Some last' |}
    /\ now - last' < STAMINA_REGEN_INTERVAL_MS
    /\ (forall last, lastRegenAt st = Some last -> last <= now ->
          last <= last' <= now).
Proof.
  destruct st as [m c l]. unfold applyStaminaCatchup. stam.
  destruct l as [last |].
  2:{ exists c, now. rewrite interval_value.
      split; [reflexivity |]. split; [lia | discriminate]. }
  destruct (Z.ltb_spec (now - last) STAMINA_REGEN_INTERVAL_MS) as [He | He].
  { exists c, last. split; [reflexivity |]. split; [lia |].
    intros ? [= <-]. lia. }
  destruct (m <=? c).
  { exists c, now. rewrite interval_value in *. split; [reflexivity |].
    split; [lia |]. intros ? [= <-]. lia. }
  destruct (elapsed_intervals now last He) as (Hk & Hlo & Hhi).
  set (k := (now - last) / STAMINA_REGEN_INTERVAL_MS) in *.
  destruct (Z.ltb_spec 0 k) as [_ | Hno]; [| lia].
  destruct (0 <? Z.min k (Z.max 0 (m - c))); stam; eexists _, _;
    (split; [reflexivity |]); (split; [lia |]);
    intros ? [= <-]; rewrite interval_value in *; lia.
Qed.

(** X4. A catch-up settles: after it the baseline is set and less than
    one interval is pending, a baseline that was not ahead of the clock is
    moved forward only and not past the clock, and a second catch-up at the
    same instant changes nothing. *)
Theorem applyStaminaCatchup_settles :
  forall (now : Z) (st : Stamina),
    let st' := applyStaminaCatchup now st in
    (exists last', lastRegenAt st' = Some last'
       /\ now - last' < STAMINA_REGEN_INTERVAL_MS
       /\ (forall last, lastRegenAt st = Some last -> last <= now ->
             last <= last' <= now))
    /\ applyStaminaCatchup now st' = st'.
Proof.
  intros now st. cbv zeta.
  destruct (applyStaminaCatchup_shape now st) as (c' & last' & -> & Hp & Hb).
  split; [exists last'; auto |].
  now apply applyStaminaCatchup_pending.
Qed.

(** X5. Polling composes: however often, and at whatever instants up to
    [t], the regeneration poll ran before, the pool after a poll at [t] is
    the one a single poll at [t] gives. *)
Theorem regenTick_polls_compose :
  forall (ts : list Z) (t last : Z) (st : Stamina),
    lastRegenAt st = Some last ->
    Forall (fun t' => t' <= t) ts ->
    pollAt (ts ++ [t]) st = regenTick t st.
Proof.
  induction ts as [| t1 ts IH]; intros t last st Hl Hts; [reflexivity |].
  inversion Hts as [| ? ? Ht1 Hrest]; subst.
  change (pollAt ((t1 :: ts) ++ [t]) st) with (pollAt (ts ++ [t]) (regenTick t1 st)).
  destruct (regenTick_baseline t1 st) as [last1 Hl1].
  rewrite (IH t last1 _ Hl1 Hrest).
  now apply (regenTick_twice t1 t st last).
Qed.

Lemma regenTick_polls_compose_witness :
  pollAt ([100000; 400000; 650000] ++ [1000000])
    {| stamina_max := 100; stamina_current := 10; lastRegenAt := Some 0 |}
  = regenTick 1000000
      {| stamina_max := 100; stamina_current := 10; lastRegenAt := Some 0 |}.
Proof.
  apply (regenTick_polls_compose [100000; 400000; 650000] 1000000 0);
    [reflexivity |].
  repeat constructor; lia.
Defined.

End StaminaRegeneration.

(** ** The item system: failures, draws, tree items *)

Section ItemRolls.
Import JSString JSNum ItemSystem World.

Lemma inferItem_known cat nodeName :
  (cat = "tree" \/ cat = "flower" \/ cat = "mineral")
  <-> is_Some (inferItem cat nodeName).
Proof.
  unfold inferItem.
  destruct (String.eqb_spec cat "tree") as [-> | H1]; [split; eauto |].
  destruct (String.eqb_spec cat "flower") as [-> | H2]; [split; eauto |].
  destruct (String.eqb_spec cat "mineral") as [-> | H3]; [split; eauto |].
  split; [intros [? | [? | ?]]; contradiction | intros [x Hx]; discriminate].
Qed.

(** X6. [gather] raises exactly when the category is empty, the node name
    is empty, or the lower-cased category is none of 'tree', 'flower',
    'mineral'; it raises before any draw, so the random source is left as it
    was. In every other case it returns an item of the lower-cased category
    whose source is the trimmed node name and whose name and icon follow the
    category's rule. *)
Theorem gather_throws_before_rolling :
  forall (S : Type) (rng : S -> Q * S) (category nodeName : string) (s : S),
    let cat := toLowerCase category in
    let known := cat = "tree" \/ cat = "flower" \/ cat = "mineral" in
    (category = "" -> ItemSystem.gather rng category nodeName s = (inl CategoryRequired, s))
    /\ (category <> "" -> nodeName = "" ->
        ItemSystem.gather rng category nodeName s = (inl NodeNameRequired, s))
    /\ (category <> "" -> nodeName <> "" -> ~ known ->
        ItemSystem.gather rng category nodeName s = (inl (UnknownCategory category), s))
    /\ (category <> "" -> nodeName <> "" -> known ->
        exists gathered,
          ItemSystem.gather rng category nodeName s
            = (inr gathered,
               snd (rollQuality rng (snd (rollRarityCascade rng s))))
          /\ g_category gathered = cat
          /\ g_source gathered = trim nodeName
          /\ inferItem cat nodeName = Some (g_name gathered)
          /\ g_icon gathered = assetPath cat (g_name gathered)
          /\ g_rarity gathered = fst (rollRarityCascade rng s)
          /\ g_quality gathered
               = fst (rollQuality rng (snd (rollRarityCascade rng s)))).
Proof.
  intros S rng category nodeName s cat known. unfold ItemSystem.gather. fold cat.
  split; [intros ->; reflexivity |].
  split.
  { intros Hc ->. apply String.eqb_neq in Hc. now rewrite Hc. }
  split.
  { intros Hc Hn Hk. apply String.eqb_neq in Hc, Hn. rewrite Hc, Hn.
    destruct (inferItem cat nodeName) as [x |] eqn:E; [| reflexivity].
    exfalso. apply Hk. apply (inferItem_known cat nodeName). rewrite E. eauto. }
  intros Hc Hn Hk. apply String.eqb_neq in Hc, Hn. rewrite Hc, Hn.
  apply (inferItem_known cat nodeName) in Hk. destruct Hk as [x Hx]. rewrite Hx.
  destruct (rollRarityCascade rng s) as [rar s1]; cbn [fst snd].
  destruct (rollQuality rng s1) as [qual s2]; cbn [fst snd].
  eexists. split; [reflexivity |]. cbn. repeat split.
Qed.

(** The cascade on [Math.random]: between one and five draws. *)
Lemma rollRarityCascade_draws (s : Rand) :
  let s' := snd (rollRarityCascade random s) in
  draws s' = draws s
  /\ (consumed s + 1 <= consumed s' <= consumed s + 5)%nat
  /\ (fst (rollRarityCascade random s) = "Common" ->
      consumed s' = (consumed s + 5)%nat).
Proof.
  cbv zeta. rewrite rollRarityCascade_unfold. cbv zeta. unfold random.
  cbn [fst snd draws consumed].
  repeat (destruct (Qlt_le_dec _ _);
          [cbn [fst snd draws consumed];
           repeat split; try lia; discriminate |]).
  cbn [fst snd draws consumed]. repeat split; lia.
Qed.

(** X7. A gather that succeeds on [Math.random] takes at least two and at
    most six draws, exactly six when the rarity comes out Common, and the
    last of them decides the quality: the first category whose cumulative
    weight sum, as [rollQuality] accumulates it, is strictly above that draw,
    and Exquisite when none is; the rarity and the quality it reports are
    names of the two tables. *)
Theorem gather_takes_two_to_six_draws :
  forall (category nodeName : string) (s s' : Rand) (gathered : Gathered),
    ItemSystem.gather random category nodeName s = (inr gathered, s') ->
    draws s' = draws s
    /\ (consumed s + 2 <= consumed s' <= consumed s + 6)%nat
    /\ (g_rarity gathered = "Common" -> consumed s' = (consumed s + 6)%nat)
    /\ g_quality gathered = quality_by_cumulative (draws s (consumed s' - 1))
    /\ g_quality gathered
       = (let v := draws s (consumed s' - 1) in
          if Qlt_le_dec v SUM_DULL then "Dull"
          else if Qlt_le_dec v SUM_NORMAL then "Normal"
          else if Qlt_le_dec v SUM_REFINED then "Refined"
          else if Qlt_le_dec v SUM_PRISTINE then "Pristine"
          else "Exquisite")
    /\ In (g_rarity gathered)
          ["Godlike"; "Mythic"; "Legendary"; "Rare"; "Uncommon"; "Common"]
    /\ In (g_quality gathered)
          ["Dull"; "Normal"; "Refined"; "Pristine"; "Exquisite"].
Proof.
  intros category nodeName s s' gathered Hg.
  destruct (gather_throws_before_rolling Rand random category nodeName s)
    as (E1 & E2 & E3 & E4). cbv zeta in E3, E4.
  destruct (String.eqb_spec category "") as [Hc | Hc];
    [rewrite (E1 Hc) in Hg; discriminate |].
  destruct (String.eqb_spec nodeName "") as [Hn | Hn];
    [rewrite (E2 Hc Hn) in Hg; discriminate |].
  destruct (inferItem (toLowerCase category) nodeName) as [x |] eqn:Ex.
  2:{ rewrite E3 in Hg; [discriminate | assumption | assumption |].
      intros Hk. apply (inferItem_known _ nodeName) in Hk.
      rewrite Ex in Hk. destruct Hk; discriminate. }
  destruct (E4 Hc Hn) as (g0 & Hg0 & _ & _ & _ & _ & Hr & Hq).
  { apply (inferItem_known _ nodeName). rewrite Ex. eauto. }
  rewrite Hg0 in Hg. injection Hg as <- <-.
  destruct (rollRarityCascade_draws s) as (D1 & D2 & D3). cbv zeta in D1, D2, D3.
  set (s1 := snd (rollRarityCascade random s)) in *.
  rewrite rollQuality_unfold in Hq. unfold random in Hq. cbn [fst snd] in Hq.
  unfold rollQuality, random. cbn [fst snd draws consumed].
  split; [exact D1 |]. split; [lia |].
  split; [intros Hcommon; rewrite Hr in Hcommon; specialize (D3 Hcommon); lia |].
  split.
  { rewrite Hq, D1.
    now replace (S (consumed s1) - 1)%nat with (consumed s1) by lia. }
  split.
  { cbv zeta. rewrite <- quality_by_cumulative_thresholds. rewrite Hq, D1.
    now replace (S (consumed s1) - 1)%nat with (consumed s1) by lia. }
  split; [rewrite Hr; apply rollRarity_names |].
  rewrite Hq. pose proof (rollQuality_names random s1) as Hn'.
  now rewrite rollQuality_unfold in Hn'.
Qed.

Lemma gather_takes_two_to_six_draws_witness :
  let s := {| draws := fun _ => SUM_NORMAL; consumed := 0 |} in
  exists gathered s',
    ItemSystem.gather random "flower" "Rose" s = (inr gathered, s')
    /\ consumed s' = 6%nat
    /\ g_rarity gathered = "Common"
    /\ g_quality gathered = "Refined".
Proof.
  intros s.
  destruct (ItemSystem.gather random "flower" "Rose" s) as [[e | gathered] s']
    eqn:E; [vm_compute in E; discriminate |].
  assert (Hr : g_rarity gathered = "Common").
  { vm_compute in E. injection E as <- _. reflexivity. }
  destruct (gather_takes_two_to_six_draws _ _ _ _ _ E)
    as (Hd & _ & Hsix & _ & Hq & _).
  exists gathered, s'. split; [reflexivity |].
  split; [exact (Hsix Hr) |]. split; [exact Hr |].
  rewrite Hq. reflexivity.
Defined.

End ItemRolls.

(** ** Tree items: the name a tree yields *)

Section TreeItems.
Import JSString JSNum ItemSystem World.

Lemma ltrim_head s :
  ltrim s = "" \/ exists c r, ltrim s = String c r /\ is_space c = false.
Proof.
  induction s as [| c s IH]; [now left |].
  cbn [ltrim]. destruct (is_space c) eqn:E; [exact IH |].
  right. exists c, s. auto.
Qed.

Lemma ltrim_app s t :
  ltrim s <> "" -> ltrim (s ++ t) = (ltrim s ++ t)%string.
Proof.
  induction s as [| c s IH]; [cbn; contradiction |].
  change (String c s ++ t)%string with (String c (s ++ t)). cbn [ltrim].
  destruct (is_space c); [exact IH | reflexivity].
Qed.

Lemma ltrim_app_blank s t : ltrim s = "" -> ltrim (s ++ t) = ltrim t.
Proof.
  induction s as [| c s IH]; [reflexivity |].
  change (String c s ++ t)%string with (String c (s ++ t)). cbn [ltrim].
  destruct (is_space c); [exact IH | discriminate].
Qed.

Lemma rtrim_cons c s :
  rtrim (String c s)
  = match rtrim s with
    | EmptyString => if is_space c then EmptyString else String c EmptyString
    | r' => String c r'
    end.
Proof. reflexivity. Qed.

(** Nothing is trimmed off a string that ends in a fixed non-blank tail. *)
Lemma rtrim_app_fixed s t :
  t <> "" -> rtrim t = t -> rtrim (s ++ t) = (s ++ t)%string.
Proof.
  intros Hne Ht. induction s as [| c s IH]; [exact Ht |].
  change (String c s ++ t)%string with (String c (s ++ t)).
  rewrite rtrim_cons, IH.
  destruct (s ++ t)%string eqn:E; [| reflexivity].
  exfalso. destruct s; cbn in E; [contradiction | discriminate].
Qed.

Lemma rtrim_app_space s : rtrim (s ++ " ") = rtrim s.
Proof.
  induction s as [| c s IH]; [reflexivity |].
  change (String c s ++ " ")%string with (String c (s ++ " ")).
  now rewrite !rtrim_cons, IH.
Qed.

Lemma rtrim_idem s : rtrim (rtrim s) = rtrim s.
Proof.
  induction s as [| c s IH]; [reflexivity |].
  rewrite rtrim_cons. destruct (rtrim s) as [| c' r'] eqn:E.
  - destruct (is_space c) eqn:Ec; [reflexivity |].
    rewrite rtrim_cons. cbn [rtrim]. now rewrite Ec.
  - rewrite rtrim_cons, IH. reflexivity.
Qed.

Lemma rtrim_keeps_head c s :
  is_space c = false -> exists r, rtrim (String c s) = String c r.
Proof.
  intros Hc. rewrite rtrim_cons. destruct (rtrim s); [rewrite Hc |]; eauto.
Qed.

Lemma trim_idem s : trim (trim s) = trim s.
Proof.
  unfold trim. destruct (ltrim_head s) as [-> | (c & r & -> & Hc)]; [reflexivity |].
  destruct (rtrim_keeps_head c r Hc) as [r' E]. rewrite E.
  cbn [ltrim]. rewrite Hc, <- E. apply rtrim_idem.
Qed.

Lemma app_cons c s t : (String c s ++ t)%string = String c (s ++ t).
Proof. reflexivity. Qed.

Lemma app_nil_l t : ("" ++ t)%string = t.
Proof. reflexivity. Qed.

Lemma substring_app_prefix s t : substring 0 (String.length s) (s ++ t) = s.
Proof.
  induction s as [| c s IH].
  - rewrite app_nil_l. now destruct t.
  - rewrite app_cons. cbn [String.length substring]. now rewrite IH.
Qed.

Lemma substring_app_suffix s t :
  substring (String.length s) (String.length t) (s ++ t) = t.
Proof.
  induction s as [| c s IH].
  - rewrite app_nil_l. cbn [String.length].
    induction t as [| c t IHt]; cbn; [reflexivity | now rewrite IHt].
  - rewrite app_cons. cbn [String.length substring]. exact IH.
Qed.

Lemma length_app s t :
  String.length (s ++ t) = (String.length s + String.length t)%nat.
Proof.
  induction s as [| c s IH]; [reflexivity |].
  rewrite app_cons. cbn [String.length]. now rewrite IH.
Qed.

Lemma app_assoc' s t u : ((s ++ t) ++ u)%string = (s ++ t ++ u)%string.
Proof.
  induction s as [| c s IH]; [reflexivity |].
  rewrite !app_cons. now rewrite IH.
Qed.

Lemma endsWith_app s t : endsWith (s ++ t) t = true.
Proof.
  unfold endsWith. rewrite length_app.
  replace (String.length s + String.length t - String.length t)%nat
    with (String.length s) by lia.
  rewrite substring_app_suffix, String.eqb_refl.
  rewrite andb_true_r. apply Nat.leb_le. lia.
Qed.

Lemma stripTreeSuffix_Tree s : stripTreeSuffix (s ++ "Tree") = rtrim s.
Proof.
  unfold stripTreeSuffix. rewrite (endsWith_app s "Tree"), orb_true_r.
  rewrite length_app.
  replace (String.length s + String.length "Tree" - 4)%nat
    with (String.length s) by (cbn; lia).
  now rewrite substring_app_prefix.
Qed.

(** A node named after a kind with " Tree" appended has the trimmed kind
    as its base name. *)
Lemma baseTreeName_of_kind k : baseTreeName (k ++ " Tree") = trim k.
Proof.
  unfold baseTreeName, normalizeNodeName.
  assert (E : trim (k ++ " Tree") = (ltrim k ++ " " ++ "Tree")%string
              \/ (ltrim k = "" /\ trim (k ++ " Tree") = "Tree")).
  { unfold trim. destruct (ltrim k) as [| c r] eqn:Ek.
    - right. split; [reflexivity |]. now rewrite (ltrim_app_blank k _ Ek).
    - left. rewrite ltrim_app by (rewrite Ek; discriminate). rewrite Ek.
      change " Tree" with (" " ++ "Tree")%string at 1.
      rewrite <- app_assoc'.
      rewrite rtrim_app_fixed by (reflexivity || discriminate).
      reflexivity. }
  destruct E as [-> | [Hk ->]].
  - rewrite <- app_assoc', stripTreeSuffix_Tree, rtrim_app_space.
    change (rtrim (ltrim k)) with (trim k). apply trim_idem.
  - unfold trim. rewrite Hk. reflexivity.
Qed.

(** X8. The item a tree yields. A completed gather on a tree decoration
    with a kind names its item after the trimmed kind: the kind itself for
    the six fruit trees, 'Sakura Blossom' for Sakura, and the kind followed by
    ' Wood' for any other; the icon is empty exactly in the last case. The
    legacy stack of that name goes up by one and no other legacy stack
    changes. *)
Theorem finishGathering_tree_named_by_kind :
  forall (g : Game) (r : ref) (d : Decor),
    target (gather g) = Some r ->
    objs g !! r = Some d ->
    d_type d = "Trees" ->
    kind d <> "" ->
    let base := trim (kind d) in
    let itemName :=
      if set_has FRUIT_TREES base then base
      else if String.eqb base "Sakura" then "Sakura Blossom"
      else (base ++ " Wood")%string in
    (exists gathered s',
        ItemSystem.gather random "tree" (kind d ++ " Tree") (rand g)
          = (inr gathered, s')
        /\ g_name gathered = itemName
        /\ (g_icon gathered = ""
            <-> set_has FRUIT_TREES base = false /\ base <> "Sakura"))
    /\ items (inv (finishGathering g)) !! itemName
         = Some (default 0 (items (inv g) !! itemName) + 1)
    /\ (forall k, k <> itemName ->
          items (inv (finishGathering g)) !! k = items (inv g) !! k).
Proof.
  intros g r d Ht Hd Hty Hkind base itemName.
  assert (Hc : categoryOf d = "tree") by (unfold categoryOf; now rewrite Hty).
  assert (Hn : nodeNameOf d = (kind d ++ " Tree")%string).
  { unfold nodeNameOf. rewrite Hc. cbn [String.eqb Ascii.eqb Bool.eqb].
    now destruct (String.eqb_spec (kind d) ""). }
  assert (Hitem : inferTreeItem (kind d ++ " Tree") = itemName).
  { unfold inferTreeItem. rewrite baseTreeName_of_kind. fold base. subst itemName.
    destruct (set_has FRUIT_TREES base); [reflexivity |].
    cbn [map_get BLOSSOM_TREES].
    rewrite (String.eqb_sym "Sakura" base).
    destruct (String.eqb_spec base "Sakura") as [-> | _]; [reflexivity |].
    now destruct (set_has WOOD_TREES base). }
  destruct (gather_on_decor d (rand g)) as (gathered & s' & Hg & _ & Hname & _).
  pose proof (finishGathering_items g r d gathered s' Ht Hd Hg) as Hitems.
  rewrite Hc, Hn in Hg, Hname. cbn in Hname. injection Hname as Hname.
  rewrite Hitem in Hname. rewrite <- Hname in Hitems.
  split.
  - exists gathered, s'. split; [exact Hg |]. split; [now symmetry |].
    assert (Hicon : g_icon gathered = assetPath "tree" itemName).
    { clear Hitems. unfold ItemSystem.gather in Hg.
      change (String.eqb "tree" "") with false in Hg.
      destruct (String.eqb (kind d ++ " Tree") ""); [discriminate |].
      change (toLowerCase "tree") with "tree" in Hg.
      change (inferItem "tree" (kind d ++ " Tree"))
        with (Some (inferTreeItem (kind d ++ " Tree"))) in Hg.
      cbv iota in Hg. rewrite Hitem in Hg.
      destruct (rollRarityCascade random (rand g)) as [rar s1].
      destruct (rollQuality random s1) as [qual s2].
      injection Hg as <- _. reflexivity. }
    rewrite Hicon. unfold assetPath. change (String.eqb "tree" "flower") with false.
    change (String.eqb "tree" "mineral") with false.
    change (String.eqb "tree" "tree") with true. cbv iota.
    subst itemName.
    destruct (set_has FRUIT_TREES base) eqn:Ef.
    + rewrite Ef. split; [| intros [? _]; discriminate].
      intros E. exfalso. revert E. apply append_nonempty_r.
      apply append_nonempty_r. discriminate.
    + destruct (String.eqb_spec base "Sakura") as [Es | Es].
      * change (set_has FRUIT_TREES "Sakura Blossom") with false.
        change (String.eqb "Sakura Blossom" "Sakura Blossom") with true.
        cbv iota. split; [discriminate | intros [_ ?]; contradiction].
      * assert (Hw : set_has FRUIT_TREES (base ++ " Wood") = false).
        { unfold set_has, FRUIT_TREES. cbn [existsb].
          repeat (match goal with
                  | |- context [String.eqb ?a ?b] =>
                      destruct (String.eqb_spec a b) as [E | _];
                      [apply (f_equal last_char) in E;
                       rewrite last_char_append in E by discriminate;
                       discriminate |]
                  end).
          reflexivity. }
        rewrite Hw.
        destruct (String.eqb_spec (base ++ " Wood") "Sakura Blossom") as [E | _].
        { apply (f_equal last_char) in E.
          rewrite last_char_append in E by discriminate. discriminate. }
        split; auto.
  - rewrite Hitems. split; [apply bump_lookup |].
    intros k Hk. apply bump_lookup_ne. congruence.
Qed.

Lemma finishGathering_tree_named_by_kind_witness :
  items (inv (finishGathering (gatheringGame 1%nat))) !! "Oak Wood" = Some 1.
Proof.
  assert (Ht : target (gather (gatheringGame 1%nat)) = Some 1%nat) by reflexivity.
  assert (Hd : objs (gatheringGame 1%nat) !! 1%nat
               = Some (mkDecor 6 5 "Trees" "Oak" 3))
    by (vm_compute; reflexivity).
  destruct (finishGathering_tree_named_by_kind
              (gatheringGame 1%nat) 1%nat _ Ht Hd eq_refl ltac:(discriminate))
    as (_ & H & _).
  exact H.
Defined.

End TreeItems.

(** ** Movement cadence, the gather cycle, gather candidates *)

Section StepsAndGathers.
Import JSNum World Farm.

Lemma set_player_same g : set_player (player g) g = g.
Proof. now destruct g. Qed.

Lemma dirDelta_unit dir :
  Z.abs (fst (dirDelta dir)) + Z.abs (snd (dirDelta dir)) = 1.
Proof. now destruct dir. Qed.

(** X9. Movement cadence. A call of [stepPlayer] touches nothing but the
    player. The position changes only when no gather is active and at least
    [MOVE_COOLDOWN_MS] (120 ms) have passed since the last move, and then
    [lastMoveAt] becomes the clock reading; a call that leaves the position
    leaves [lastMoveAt] as well. While a gather is active the call changes
    nothing at all; otherwise the player faces the direction asked for. *)
Theorem stepPlayer_keeps_cadence :
  forall (now : Q) (desired : option Dir) (g : Game),
    let g' := stepPlayer now desired g in
    let moved := (p_x (player g'), p_y (player g'))
                 <> (p_x (player g), p_y (player g)) in
    g' = set_player (player g') g
    /\ (moved ->
        active (gather g) = false
        /\ (MOVE_COOLDOWN_MS <= now - lastMoveAt (player g))%Q
        /\ lastMoveAt (player g') = now)
    /\ (~ moved -> lastMoveAt (player g') = lastMoveAt (player g))
    /\ (active (gather g) = true -> g' = g)
    /\ (forall dir, desired = Some dir -> active (gather g) = false ->
          facing (player g') = dir).
Proof.
  intros now desired g. cbv zeta. unfold stepPlayer.
  destruct (active (gather g)) eqn:Ea.
  { rewrite set_player_same. repeat split; try congruence; intros H; now elim H. }
  destruct desired as [dir |].
  2:{ rewrite set_player_same. repeat split; try congruence; intros H; now elim H. }
  destruct (Qlt_le_dec (now - lastMoveAt (player g)) MOVE_COOLDOWN_MS) as [Hc | Hc].
  { cbn. repeat split; try congruence; try (intros H; now elim H);
      try (now destruct g). }
  pose proof (dirDelta_unit dir) as Hu.
  destruct (dirDelta dir) as [dx dy]. cbn [fst snd] in Hu.
  destruct (isBlocked _ _ _); cbn [negb].
  - cbn. repeat split; try congruence; try (intros H; now elim H);
      try (now destruct g).
  - cbn. repeat split; try congruence; try (now destruct g).
    intros H. exfalso. apply H. intros [= E1 E2]. lia.
Qed.

Lemma stepPlayer_keeps_cadence_witness :
  lastMoveAt (player (stepPlayer 1000 (Some Up) demoGame)) = 1000%Q.
Proof.
  assert (Hmoved : (p_x (player (stepPlayer 1000 (Some Up) demoGame)),
                    p_y (player (stepPlayer 1000 (Some Up) demoGame)))
                   <> (p_x (player demoGame), p_y (player demoGame)))
    by (vm_compute; congruence).
  exact (proj2 (proj2 (proj1 (proj2
           (stepPlayer_keeps_cadence 1000%Q (Some Up) demoGame)) Hmoved))).
Defined.



Lemma gatherableAt_Some g x y r :
  gatherableAt g x y = Some r ->
  exists d, objs g !! r = Some d /\ isDecorGatherable d = true
    /\ decorAt g x y = Some r /\ d_x d = x /\ d_y d = y.
Proof.
  unfold gatherableAt. destruct (decorAt g x y) as [r0 |] eqn:E; [| discriminate].
  destruct (objs g !! r0) as [d |] eqn:Ed; [| discriminate].
  destruct (isDecorGatherable d) eqn:Eg; [| discriminate].
  intros [= <-]. exists d.
  destruct (findDecor_Some _ _ _ _ _ E) as (_ & d' & Hd' & Hx & Hy).
  rewrite Ed in Hd'. injection Hd' as <-. auto.
Qed.

(** X11. The gather candidate. A candidate is the decoration [decorAt]
    finds on the player's own tile or on one of its four neighbours, and
    [isDecorGatherable] accepts it; the tile in front has priority; there is
    no candidate exactly when none of those five tiles offers one. *)
Theorem findGatherCandidate_is_adjacent_and_gatherable :
  forall g : Game,
    let px := p_x (player g) in
    let py := p_y (player g) in
    (forall r, findGatherCandidate g = Some r ->
       exists d x y,
         objs g !! r = Some d /\ isDecorGatherable d = true
         /\ decorAt g x y = Some r /\ d_x d = x /\ d_y d = y
         /\ Z.abs (x - px) + Z.abs (y - py) <= 1)
    /\ (forall r, gatherableAt g (fst (frontTileCoords g)) (snd (frontTileCoords g))
                  = Some r ->
          findGatherCandidate g = Some r)
    /\ (findGatherCandidate g = None <->
        forall x y, Z.abs (x - px) + Z.abs (y - py) <= 1 ->
          gatherableAt g x y = None).
Proof.
  intros g px py. unfold findGatherCandidate, frontTileCoords.
  pose proof (dirDelta_unit (facing (player g))) as Hu.
  destruct (dirDelta (facing (player g))) as [dx dy]. cbn [fst snd] in Hu |- *.
  fold px py. cbn [fold_left fst snd].
  assert (Hnear : forall x y r, gatherableAt g x y = Some r ->
            Z.abs (x - px) + Z.abs (y - py) <= 1 ->
            exists d x y,
              objs g !! r = Some d /\ isDecorGatherable d = true
              /\ decorAt g x y = Some r /\ d_x d = x /\ d_y d = y
              /\ Z.abs (x - px) + Z.abs (y - py) <= 1).
  { intros x y r Hr Hxy.
    destruct (gatherableAt_Some g x y r Hr) as (d & H1 & H2 & H3 & H4 & H5).
    exists d, x, y. auto 10. }
  assert (Hfive : forall x y, Z.abs (x - px) + Z.abs (y - py) <= 1 ->
            (x, y) = (px, py) \/ (x, y) = (px + 0, py + -1)
            \/ (x, y) = (px + -1, py + 0) \/ (x, y) = (px + 1, py + 0)
            \/ (x, y) = (px + 0, py + 1)).
  { intros x y H.
    assert (C : (x = px /\ y = py) \/ (x = px /\ y = py - 1)
                \/ (x = px - 1 /\ y = py) \/ (x = px + 1 /\ y = py)
                \/ (x = px /\ y = py + 1)) by lia.
    destruct C as [[-> ->] | [[-> ->] | [[-> ->] | [[-> ->] | [-> ->]]]]];
      [left | right; left | right; right; left | right; right; right; left
       | right; right; right; right]; f_equal; lia. }
  split; [| split].
  - intros r.
    destruct (gatherableAt g (px + dx) (py + dy)) as [r0 |] eqn:E0.
    { intros [= <-]. apply (Hnear _ _ _ E0). lia. }
    destruct (gatherableAt g px py) as [r1 |] eqn:E1.
    { intros [= <-]. apply (Hnear _ _ _ E1). lia. }
    destruct (gatherableAt g (px + 0) (py + -1)) as [r2 |] eqn:E2.
    { intros [= <-]. apply (Hnear _ _ _ E2). lia. }
    destruct (gatherableAt g (px + -1) (py + 0)) as [r3 |] eqn:E3.
    { intros [= <-]. apply (Hnear _ _ _ E3). lia. }
    destruct (gatherableAt g (px + 1) (py + 0)) as [r4 |] eqn:E4.
    { intros [= <-]. apply (Hnear _ _ _ E4). lia. }
    intros E5. apply (Hnear _ _ _ E5). lia.
  - intros r ->. reflexivity.
  - split.
    + intros Hnone x y Hxy.
      destruct (gatherableAt g (px + dx) (py + dy)); [discriminate |].
      destruct (gatherableAt g px py) eqn:E1; [discriminate |].
      destruct (gatherableAt g (px + 0) (py + -1)) eqn:E2; [discriminate |].
      destruct (gatherableAt g (px + -1) (py + 0)) eqn:E3; [discriminate |].
      destruct (gatherableAt g (px + 1) (py + 0)) eqn:E4; [discriminate |].
      destruct (Hfive x y Hxy) as [E | [E | [E | [E | E]]]];
        injection E as -> ->; assumption.
    + intros Hall.
      rewrite (Hall (px + dx) (py + dy)) by lia.
      rewrite (Hall px py) by lia.
      rewrite (Hall (px + 0) (py + -1)) by lia.
      rewrite (Hall (px + -1) (py + 0)) by lia.
      rewrite (Hall (px + 1) (py + 0)) by lia.
      apply Hall. lia.
Qed.

End StepsAndGathers.

(** ** Farming: tilling, watering, planting, harvesting *)

Section Farming.
Import JSNum World Farm.

Lemma tileAt_inBounds (w : list (list Tile)) x y t :
  tileAt w x y = Some t -> inBounds x y = true.
Proof. unfold tileAt. now destruct (inBounds x y). Qed.

(** With nothing to talk to or to gather in front, [interactFront] is the
    tool behaviour on the tile in front. *)
Lemma interactFront_plain now st x y t :
  frontTileCoords (game st) = (x, y) ->
  tileAt (world (game st)) x y = Some t ->
  frontIsPlain (game st) x y ->
  interactFront now st = useTool now x y t st.
Proof.
  intros Hf Ht Hp. unfold interactFront. rewrite Hf.
  rewrite (tileAt_inBounds _ _ _ _ Ht), Ht. cbn [negb].
  destruct (decorAt (game st) x y) as [r |] eqn:Er; [| reflexivity].
  destruct (objs (game st) !! r) as [d |] eqn:Ed; [| reflexivity].
  destruct (Hp r d Er Ed) as [Hn Hg].
  apply String.eqb_neq in Hn. rewrite Hn.
  destruct (tool (game st)) eqn:Etool; cbn [isHand andb]; try reflexivity.
  now rewrite (Hg eq_refl).
Qed.

Lemma interactFront_outside now st :
  inBounds (fst (frontTileCoords (game st))) (snd (frontTileCoords (game st)))
    = false ->
  interactFront now st = st.
Proof.
  intros H. unfold interactFront.
  destruct (frontTileCoords (game st)) as [x y]. cbn [fst snd] in H.
  now rewrite H.
Qed.

(** X12. Tilling and watering. With the hoe, [interactFront] tills the
    tile in front exactly when its base is soil, it is not tilled and holds
    no plant: the tile is then tilled and otherwise as before. With the
    watering can it waters the tile exactly when it is tilled: the tile is
    then watered until the number [now + WATER_DURATION_MS], whatever expiry
    it had before, and otherwise as before. In every other case nothing
    changes. Only the tile in front (and the floating texts) is touched. *)
Theorem interactFront_tills_and_waters :
  forall (now : Q) (st : Session) (x y : Z) (t : Tile),
    frontTileCoords (game st) = (x, y) ->
    tileAt (world (game st)) x y = Some t ->
    frontIsPlain (game st) x y ->
    tool (game st) = Hoe \/ tool (game st) = Water ->
    let st' := interactFront now st in
    let tills := tool (game st) = Hoe /\ tileId t = TILE_Soil
                 /\ tilled t = false /\ plant t = None in
    let waters := tool (game st) = Water /\ tilled t = true in
    (tills ->
       exists t', tileAt (world (game st')) x y = Some t'
         /\ tilled t' = true /\ sameButTilled t t')
    /\ (waters ->
        exists t', tileAt (world (game st')) x y = Some t'
          /\ watered t' = true
          /\ waterEndAt t' = fadd now WATER_DURATION_MS
          /\ sameButWater t t')
    /\ (~ tills -> ~ waters -> st' = st)
    /\ (forall x' y', (x', y') <> (x, y) ->
          tileAt (world (game st')) x' y' = tileAt (world (game st)) x' y')
    /\ sameButTiles (game st) (game st')
    /\ sameButGame st st'.
Proof.
  intros now st x y t Hf Ht Hp Htool st' tills waters. subst st'.
  rewrite (interactFront_plain now st x y t Hf Ht Hp). unfold useTool.
  assert (Hsame : sameButTiles (game st) (game st) /\ sameButGame st st).
  { split; [| unfold sameButGame; repeat split].
    unfold sameButTiles. repeat (split; [reflexivity |]). exact (fun H => H). }
  assert (Hmut : forall f txt col,
            let st1 := onGame (fun g =>
                         showFloatingText txt x y col
                           (set_world (mutTile f x y (world g)) g)) st in
            sameButTiles (game st) (game st1) /\ sameButGame st st1).
  { intros f txt col. cbv zeta. unfold sameButTiles, sameButGame.
    cbn [onGame game set_game world set_world showFloatingText set_floaties
         tool stamina inv objs decor player World.gather skills rand others
         othersView rngSeed coins currencies equippedSeed seeds crops names].
    split; [| repeat split].
    repeat (split; [reflexivity |]). apply mutTile_grid_ok. }
  destruct Htool as [Etool | Etool]; rewrite Etool.
  - destruct ((tileId t =? TILE_Soil) && negb (tilled t) && negb (hasPlant t))
      eqn:E.
    + apply andb_true_iff in E as [E E3]. apply andb_true_iff in E as [E1 E2].
      split.
      { intros _.
        cbn [onGame game set_game world set_world showFloatingText set_floaties].
        rewrite tileAt_mutTile, Ht. eexists. split; [reflexivity |].
        split; [reflexivity |]. unfold sameButTilled. repeat split. }
      split; [intros [Hw _]; congruence |].
      split.
      { intros Hno _. exfalso. apply Hno. subst tills.
        apply Z.eqb_eq in E1. apply negb_true_iff in E2, E3.
        unfold hasPlant in E3. destruct (plant t); [discriminate | auto]. }
      split.
      { intros x' y' Hne.
        cbn [onGame game set_game world set_world showFloatingText set_floaties].
        now apply tileAt_mutTile_ne. }
      apply Hmut.
    + split.
      { intros (_ & H1 & H2 & H3). exfalso.
        unfold hasPlant in E. rewrite H1, H2, H3 in E. discriminate. }
      split; [intros [Hw _]; congruence |].
      split; [reflexivity |]. split; [reflexivity | exact Hsame].
  - destruct (tilled t) eqn:E.
    + split; [intros [Hh _]; congruence |].
      split.
      { intros _.
        cbn [onGame game set_game world set_world showFloatingText set_floaties].
        rewrite tileAt_mutTile, Ht. eexists. split; [reflexivity |].
        split; [reflexivity |]. split; [reflexivity |].
        unfold sameButWater. repeat split. }
      split; [intros _ Hno; exfalso; apply Hno; subst waters; auto |].
      split.
      { intros x' y' Hne.
        cbn [onGame game set_game world set_world showFloatingText set_floaties].
        now apply tileAt_mutTile_ne. }
      apply Hmut.
    + split; [intros [Hh _]; congruence |].
      split; [intros [_ Hw]; discriminate |].
      split; [reflexivity |]. split; [reflexivity | exact Hsame].
Qed.

Lemma fieldSession_front :
  frontTileCoords (game fieldSession) = (5, 7)
  /\ tileAt (world (game fieldSession)) 5 7 = Some (makeTile 5 7 TILE_Soil)
  /\ frontIsPlain (game fieldSession) 5 7.
Proof.
  split; [reflexivity |]. split; [vm_compute; reflexivity |].
  intros r d H. vm_compute in H. discriminate.
Qed.

Lemma tilledSession_front :
  frontTileCoords (game tilledSession) = (5, 7)
  /\ tileAt (world (game tilledSession)) 5 7 = Some tilledTile
  /\ frontIsPlain (game tilledSession) 5 7.
Proof.
  split; [reflexivity |]. split; [vm_compute; reflexivity |].
  intros r d H. vm_compute in H. discriminate.
Qed.

Lemma interactFront_tills_and_waters_witness :
  tilled (makeTile 5 7 TILE_Soil) = false
  /\ (exists t', tileAt (world (game (interactFront 0 fieldSession))) 5 7 = Some t'
        /\ tilled t' = true)
  /\ watered tilledTile = false
  /\ (exists t', tileAt (world (game (interactFront 100 tilledSession))) 5 7
                 = Some t'
        /\ watered t' = true /\ waterEndAt t' = 60100%Q).
Proof.
  destruct fieldSession_front as (Hf & Ht & Hp).
  destruct tilledSession_front as (Hf' & Ht' & Hp').
  destruct (interactFront_tills_and_waters 0 fieldSession 5 7 _ Hf Ht Hp
              (or_introl eq_refl)) as (Htill & _).
  destruct (interactFront_tills_and_waters 100 tilledSession 5 7 _ Hf' Ht' Hp'
              (or_intror eq_refl)) as (_ & Hwat & _).
  destruct Htill as (t1 & T1 & T2 & _); [repeat split |].
  destruct Hwat as (t2 & W1 & W2 & W3 & _); [repeat split |].
  split; [reflexivity |]. split; [exists t1; split; assumption |].
  split; [reflexivity |]. exists t2. split; [exact W1 |].
  split; [exact W2 |]. rewrite W3. vm_compute. reflexivity.
Defined.

(** *** Planting *)

Lemma plantSeed_effect seed x y st t :
  tileAt (world (game st)) x y = Some t ->
  let n := default 0 (seeds st !! cropKey seed) in
  let st' := plantSeed seed x y st in
  (0 < n ->
     tileAt (world (game st')) x y
       = Some (set_plant (Some {| p_type := seed; stage := 0; growthMs := 0 |}) t)
     /\ seeds st' = <[cropKey seed := n - 1]> (seeds st))
  /\ (n <= 0 -> world (game st') = world (game st) /\ seeds st' = seeds st)
  /\ (forall x' y', (x', y') <> (x, y) ->
        tileAt (world (game st')) x' y' = tileAt (world (game st)) x' y')
  /\ st' = set_seeds (seeds st')
             (set_game
                (set_floaties (floaties (game st'))
                   (set_world (world (game st')) (game st))) st).
Proof.
  intros Ht n st'. subst st' n. unfold plantSeed.
  destruct (Z.ltb_spec 0 (default 0 (seeds st !! cropKey seed))) as [Hn | Hn].
  - cbn [onGame game set_game world set_world showFloatingText set_floaties
         floaties seeds set_seeds].
    split; [intros _; split; [now rewrite tileAt_mutTile, Ht | reflexivity] |].
    split; [lia |].
    split; [intros x' y' Hne; now apply tileAt_mutTile_ne |].
    now destruct st as [[] ? ? ? ? ? ? ?].
  - cbn [onGame game set_game world set_world showFloatingText set_floaties
         floaties seeds set_seeds].
    split; [lia |]. split; [auto |]. split; [reflexivity |].
    now destruct st as [[] ? ? ? ? ? ? ?].
Qed.

(** X13. Planting. With the hand on a tile in front that holds no plant,
    [interactFront] plants exactly when a seed is equipped, the tile is
    tilled and the stack of that seed is positive: the tile then holds a
    plant of that type at stage 0 with no growth and is otherwise as before,
    and the stack is one lower, so a stack that is not negative never becomes
    negative. With an equipped
    seed on a tilled tile but no seed left, neither the grid nor the stacks
    change; without an equipped seed, or on an untilled tile, nothing changes
    at all. Other seed stacks and other tiles are never touched. *)
Theorem interactFront_plants_one_seed :
  forall (now : Q) (st : Session) (x y : Z) (t : Tile),
    frontTileCoords (game st) = (x, y) ->
    tileAt (world (game st)) x y = Some t ->
    frontIsPlain (game st) x y ->
    tool (game st) = Hand ->
    plant t = None ->
    let st' := interactFront now st in
    (forall k, equippedSeed st = Some k -> tilled t = true ->
       let n := default 0 (seeds st !! cropKey k) in
       (0 < n ->
          (exists t', tileAt (world (game st')) x y = Some t'
             /\ plant t' = Some {| p_type := k; stage := 0; growthMs := 0 |}
             /\ sameButPlant t t')
          /\ seeds st' !! cropKey k = Some (n - 1))
       /\ (n <= 0 -> world (game st') = world (game st) /\ seeds st' = seeds st)
       /\ (0 <= n -> 0 <= default 0 (seeds st' !! cropKey k))
       /\ (forall k', k' <> cropKey k -> seeds st' !! k' = seeds st !! k'))
    /\ (equippedSeed st = None \/ tilled t = false -> st' = st)
    /\ (forall x' y', (x', y') <> (x, y) ->
          tileAt (world (game st')) x' y' = tileAt (world (game st)) x' y')
    /\ crops st' = crops st /\ coins st' = coins st
    /\ currencies st' = currencies st
    /\ stamina (game st') = stamina (game st).
Proof.
  intros now st x y t Hf Ht Hp Htool Hpl st'. subst st'.
  rewrite (interactFront_plain now st x y t Hf Ht Hp). unfold useTool.
  rewrite Htool, Hpl.
  destruct (equippedSeed st) as [seed |] eqn:Eseed.
  2:{ split; [intros k [=] |]. repeat split. }
  destruct (tilled t) eqn:Etill.
  2:{ split; [intros k _ [=] |]. repeat split. }
  destruct (plantSeed_effect seed x y st t Ht) as (P1 & P2 & P3 & P4).
  cbv zeta in P1, P2, P3, P4.
  split.
  { intros k [= <-] _.
    split.
    { intros Hn. destruct (P1 Hn) as [Q1 Q2]. split.
      - eexists. split; [exact Q1 |]. split; [reflexivity |].
        unfold sameButPlant. repeat split.
      - rewrite Q2. apply lookup_insert_eq. }
    split; [exact P2 |].
    split.
    { intros Hn.
      destruct (Z_lt_le_dec 0 (default 0 (seeds st !! cropKey seed))) as [H | H].
      - destruct (P1 H) as [_ ->]. rewrite lookup_insert_eq. cbn. lia.
      - destruct (P2 H) as [_ ->]. lia. }
    intros k' Hk'.
    destruct (Z_lt_le_dec 0 (default 0 (seeds st !! cropKey seed))) as [H | H].
    - destruct (P1 H) as [_ ->]. now rewrite lookup_insert_ne.
    - now destruct (P2 H) as [_ ->]. }
  split; [intros [[=] | [=]] |].
  split; [exact P3 |].
  rewrite P4. repeat split.
Qed.

Lemma sownSession_front :
  frontTileCoords (game sownSession) = (5, 7)
  /\ tileAt (world (game sownSession)) 5 7 = Some wateredTile
  /\ frontIsPlain (game sownSession) 5 7.
Proof.
  split; [reflexivity |]. split; [vm_compute; reflexivity |].
  intros r d H. vm_compute in H. discriminate.
Qed.

Lemma interactFront_plants_one_seed_witness :
  plant wateredTile = None
  /\ seeds sownSession !! "turnip" = Some 2
  /\ (exists t', tileAt (world (game (interactFront 0 sownSession))) 5 7 = Some t'
        /\ plant t' = Some {| p_type := turnip; stage := 0; growthMs := 0 |}
        /\ tilled t' = true /\ watered t' = true)
  /\ seeds (interactFront 0 sownSession) !! "turnip" = Some 1.
Proof.
  destruct sownSession_front as (Hf & Ht & Hp).
  destruct (interactFront_plants_one_seed 0 sownSession 5 7 _ Hf Ht Hp
              eq_refl eq_refl) as (H & _).
  destruct (H turnip eq_refl eq_refl) as (H1 & _).
  destruct (H1 ltac:(vm_compute; reflexivity))
    as ((t' & T1 & T2 & _ & T3 & T4 & _) & Hseeds).
  split; [reflexivity |]. split; [vm_compute; reflexivity |].
  split; [| exact Hseeds].
  exists t'. split; [exact T1 |]. split; [exact T2 |].
  split; [exact T3 | exact T4].
Defined.

(** *** Harvesting *)

(** What an award does to the skills: the experience is added to the
    skill, levels are paid from it, the loop runs to its exit condition. *)
Lemma awardSkillExp_accounting k a g :
  let s0 := getSkill k (skills g) in
  let s1 := getSkill k (skills (awardSkillExp k a g)) in
  level s0 <= level s1
  /\ exp s1 + spent (level s0) (level s1) = exp s0 + Z.max 0 a
  /\ exp s1 < expNeededFor (level s1)
  /\ (exp s0 + Z.max 0 a < expNeededFor (level s0) ->
      s1 = {| level := level s0; exp := exp s0 + Z.max 0 a |})
  /\ (forall k', k' <> k ->
        getSkill k' (skills (awardSkillExp k a g)) = getSkill k' (skills g)).
Proof.
  cbv zeta.
  destruct (awardSkillExp_frame k a g) as (_ & _ & _ & _ & _ & _ & _ & _ & _ & ->).
  rewrite getSkill_setSkill.
  set (s0 := getSkill k (skills g)). set (e := exp s0 + Z.max 0 a).
  assert (Hrest : forall k', k' <> k ->
            getSkill k'
              (setSkill k
                 (fst (levelUpLoop (Z.to_nat e) {| level := level s0; exp := e |}
                         false)) (skills g))
            = getSkill k' (skills g))
    by (intros k' Hk'; now apply getSkill_setSkill_ne).
  destruct (Z_lt_le_dec e 0) as [Hneg | Hnn].
  - pose proof (expNeededFor_ge (level s0)).
    rewrite levelUpLoop_no_level by (cbn; lia).
    cbn. rewrite spent_same. repeat split; try lia.
    intros k' Hk'. now apply getSkill_setSkill_ne.
  - pose proof (levelUpLoop_spec (Z.to_nat e) {| level := level s0; exp := e |}
                  false) as H.
    cbn [level exp] in H. destruct H as (H1 & H2 & H3); [lia |].
    repeat split; try assumption.
    intros Hlt. now rewrite levelUpLoop_no_level.
Qed.

Lemma harvestCrop_effect p x y st t :
  tileAt (world (game st)) x y = Some t ->
  1 <= Mechanics.stamina_current (stamina (game st)) ->
  let st' := harvestCrop p x y st in
  let g2 := showFloatingText ("+1 " ++ display (CROPS (p_type p)))%string x y
              "#ffd166"
              (set_world
                 (mutTile (fun t => set_tilled true (set_plant None t)) x y
                    (world (game st))) (game st)) in
  tileAt (world (game st')) x y = Some (set_tilled true (set_plant None t))
  /\ (forall x' y', (x', y') <> (x, y) ->
        tileAt (world (game st')) x' y' = tileAt (world (game st)) x' y')
  /\ crops st' = bump (cropKey (p_type p)) (crops st)
  /\ stamina (game st') = Mechanics.drain 1 (stamina (game st))
  /\ skills (game st') = skills (awardSkillExp harvesting 1 g2)
  /\ skills g2 = skills (game st)
  /\ seeds st' = seeds st /\ coins st' = coins st
  /\ currencies st' = currencies st
  /\ player (game st') = player (game st)
  /\ inv (game st') = inv (game st)
  /\ decor (game st') = decor (game st) /\ objs (game st') = objs (game st)
  /\ tool (game st') = tool (game st) /\ gather (game st') = gather (game st).
Proof.
  intros Ht Hst. cbv zeta. unfold harvestCrop.
  destruct (Z.ltb_spec (Mechanics.stamina_current (stamina (game st))) 1); [lia |].
  match goal with
  | |- context [awardSkillExp harvesting 1 ?h] =>
      destruct (awardSkillExp_frame harvesting 1 h)
        as (A1 & A2 & A3 & A4 & A5 & A6 & A7 & A8 & A9 & A10);
      set (g3 := awardSkillExp harvesting 1 h) in *
  end.
  cbn [game set_game set_crops crops seeds coins currencies world set_stamina
       stamina player inv decor objs tool World.gather skills].
  rewrite A4, A2, A7, A3, A6, A5, A1, A8.
  cbn [world showFloatingText set_floaties set_world stamina player inv decor
       objs tool World.gather skills].
  split; [now rewrite tileAt_mutTile, Ht |].
  split; [intros x' y' Hne; now apply tileAt_mutTile_ne |].
  repeat split.
Qed.

(** X14. Harvesting. With the hand on a tile in front that holds a
    plant, [interactFront] harvests exactly when the plant is mature (its
    stage is the last one) and the stamina is at least 1: the tile then
    holds no plant, is tilled and is otherwise as before, the crop stack of
    the plant's type goes up by one, the stamina goes down by one, and Harvesting receives one
    experience point (levels gained are paid from it). A plant that is not
    mature is left alone and nothing changes; a mature plant with less than 1
    stamina leaves the grid, the stacks, the stamina and the skills as they
    are. Seeds, money and other tiles are never touched. *)
Theorem interactFront_harvests_mature_crop :
  forall (now : Q) (st : Session) (x y : Z) (t : Tile) (p : Plant),
    frontTileCoords (game st) = (x, y) ->
    tileAt (world (game st)) x y = Some t ->
    frontIsPlain (game st) x y ->
    tool (game st) = Hand ->
    plant t = Some p ->
    let st' := interactFront now st in
    let lastStage := Z.of_nat (length (colors (CROPS (p_type p)))) - 1 in
    let key := cropKey (p_type p) in
    (stage p < lastStage -> st' = st)
    /\ (lastStage <= stage p ->
        Mechanics.stamina_current (stamina (game st)) < 1 ->
        world (game st') = world (game st) /\ crops st' = crops st
        /\ stamina (game st') = stamina (game st)
        /\ skills (game st') = skills (game st))
    /\ (lastStage <= stage p ->
        1 <= Mechanics.stamina_current (stamina (game st)) ->
        (exists t', tileAt (world (game st')) x y = Some t'
           /\ plant t' = None /\ tilled t' = true
           /\ sameButPlantTilled t t')
        /\ crops st' !! key = Some (default 0 (crops st !! key) + 1)
        /\ (forall k', k' <> key -> crops st' !! k' = crops st !! k')
        /\ Mechanics.stamina_current (stamina (game st'))
             = Mechanics.stamina_current (stamina (game st)) - 1
        /\ (let s0 := getSkill harvesting (skills (game st)) in
            let s1 := getSkill harvesting (skills (game st')) in
            level s0 <= level s1
            /\ exp s1 + spent (level s0) (level s1) = exp s0 + 1
            /\ exp s1 < expNeededFor (level s1))
        /\ (forall k', k' <> harvesting ->
              getSkill k' (skills (game st')) = getSkill k' (skills (game st))))
    /\ (forall x' y', (x', y') <> (x, y) ->
          tileAt (world (game st')) x' y' = tileAt (world (game st)) x' y')
    /\ seeds st' = seeds st /\ coins st' = coins st
    /\ currencies st' = currencies st.
Proof.
  intros now st x y t p Hf Ht Hp Htool Hpl st' lastStage key. subst st'.
  rewrite (interactFront_plain now st x y t Hf Ht Hp). unfold useTool.
  rewrite Htool, Hpl. unfold isMature. fold lastStage.
  destruct (Z.leb_spec lastStage (stage p)) as [Hm | Hm].
  2:{ split; [reflexivity |]. split; [lia |]. split; [lia |]. repeat split. }
  split; [lia |].
  destruct (Z_lt_le_dec (Mechanics.stamina_current (stamina (game st))) 1)
    as [Hlow | Hok].
  { unfold harvestCrop.
    destruct (Z.ltb_spec (Mechanics.stamina_current (stamina (game st))) 1);
      [| lia].
    split; [intros _ _; repeat split |]. split; [lia |]. repeat split. }
  destruct (harvestCrop_effect p x y st t Ht Hok)
    as (H1 & H2 & H3 & H4 & H5 & H6 & H7 & H8 & H9 & _).
  cbv zeta in H5, H6.
  split; [lia |].
  split.
  { intros _ _. split.
    { eexists. split; [exact H1 |]. split; [reflexivity |].
      split; [reflexivity |]. unfold sameButPlantTilled. repeat split. }
    split; [rewrite H3; apply bump_lookup |].
    split; [intros k' Hk'; rewrite H3; apply bump_lookup_ne;
            intros E; apply Hk'; now symmetry |].
    split; [rewrite H4; cbn; lia |].
    match type of H5 with
    | _ = skills (awardSkillExp harvesting 1 ?h) =>
        destruct (awardSkillExp_accounting harvesting 1 h)
          as (A1 & A2 & A3 & _ & A5)
    end.
    cbv zeta in A1, A2, A3, A5. rewrite H6 in A1, A2, A5.
    rewrite <- H5 in A1, A2, A3, A5.
    split; [repeat split; assumption | exact A5]. }
  split; [exact H2 |]. auto.
Qed.

Lemma ripeSession_front :
  frontTileCoords (game ripeSession) = (5, 7)
  /\ tileAt (world (game ripeSession)) 5 7 = Some ripeTile
  /\ frontIsPlain (game ripeSession) 5 7.
Proof.
  split; [reflexivity |]. split; [vm_compute; reflexivity |].
  intros r d H. vm_compute in H. discriminate.
Qed.

Lemma interactFront_harvests_mature_crop_witness :
  plant ripeTile = Some {| p_type := turnip; stage := 2; growthMs := 0 |}
  /\ (exists t', tileAt (world (game (interactFront 0 ripeSession))) 5 7 = Some t'
        /\ plant t' = None /\ tilled t' = true)
  /\ crops ripeSession !! "turnip" = None
  /\ crops (interactFront 0 ripeSession) !! "turnip" = Some 1.
Proof.
  destruct ripeSession_front as (Hf & Ht & Hp).
  destruct (interactFront_harvests_mature_crop 0 ripeSession 5 7 _ _ Hf Ht Hp
              eq_refl eq_refl) as (_ & _ & H & _).
  destruct (H ltac:(vm_compute; congruence) ltac:(vm_compute; congruence))
    as ((t' & T1 & T2 & T3 & _) & Hcrops & _).
  split; [reflexivity |].
  split; [exists t'; split; [exact T1 | split; [exact T2 | exact T3]] |].
  split; [reflexivity | exact Hcrops].
Defined.

(** *** From seed to crop *)

Lemma sameButTiles_refl g : sameButTiles g g.
Proof. unfold sameButTiles. auto 15. Qed.

Lemma sameButTiles_trans g1 g2 g3 :
  sameButTiles g1 g2 -> sameButTiles g2 g3 -> sameButTiles g1 g3.
Proof.
  unfold sameButTiles.
  intros (A1 & A2 & A3 & A4 & A5 & A6 & A7 & A8 & A9 & A10 & A11 & A12)
         (B1 & B2 & B3 & B4 & B5 & B6 & B7 & B8 & B9 & B10 & B11 & B12).
  repeat (split; [congruence |]). auto.
Qed.

Lemma tickAt_sameButTiles dt now y g x : sameButTiles g (tickAt dt now y g x).
Proof.
  unfold tickAt. destruct (tileAt (world g) x y) as [t |];
    [| apply sameButTiles_refl].
  destruct (growPlant dt (evaporate now t)) as [t' grew].
  destruct grew; unfold sameButTiles;
    cbn [showFloatingText set_floaties set_world tool stamina inv objs decor
         player World.gather skills rand others othersView world];
    repeat (split; [reflexivity |]); apply mutTile_grid_ok.
Qed.

Lemma fold_sameButTiles {A : Type} (f : Game -> A -> Game) (l : list A) :
  (forall g a, sameButTiles g (f g a)) ->
  forall g, sameButTiles g (fold_left f l g).
Proof.
  intros Hf. induction l as [| a l IH]; intros g; [apply sameButTiles_refl |].
  cbn [fold_left]. eapply sameButTiles_trans; [apply Hf | apply IH].
Qed.

(** A world tick touches the tiles and the floating texts only. *)
Lemma tickWorld_sameButTiles dt now g : sameButTiles g (tickWorld dt now g).
Proof.
  unfold tickWorld. apply fold_sameButTiles. intros g' y.
  apply fold_sameButTiles. intros g'' x. apply tickAt_sameButTiles.
Qed.

Lemma frontIsPlain_same g g' x y :
  objs g' = objs g -> decor g' = decor g -> tool g' = tool g ->
  frontIsPlain g x y -> frontIsPlain g' x y.
Proof.
  intros Ho Hd Ht Hp r d. unfold decorAt. rewrite Ho, Hd, Ht. apply Hp.
Qed.

Lemma onGame_fields f st :
  game (onGame f st) = f (game st)
  /\ seeds (onGame f st) = seeds st /\ crops (onGame f st) = crops st.
Proof. repeat split. Qed.

Lemma frontTileCoords_same g g' :
  player g' = player g -> frontTileCoords g' = frontTileCoords g.
Proof. intros H. unfold frontTileCoords. now rewrite H. Qed.

(** A watered plant below its last stage advances in a tick that brings
    the growth its stage needs. *)
Lemma tickTile_advances dt now t k st :
  plant t = Some {| p_type := k; stage := st; growthMs := 0 |} ->
  watered t = true -> (now < waterEndAt t)%Q ->
  0 <= st < Z.of_nat (length (colors (CROPS k))) - 1 ->
  (stageNeeded (CROPS k) st <= dt)%Q ->
  tickTile dt now t
  = set_plant (Some {| p_type := k; stage := st + 1; growthMs := 0 |}) t.
Proof.
  intros Hp Hw Hnow Hst Hdt. unfold tickTile, evaporate. rewrite Hw. cbn [andb].
  apply Qgeb_false in Hnow. rewrite Hnow.
  unfold growPlant. rewrite Hp, Hw. cbn [p_type stage growthMs].
  destruct (Z.ltb_spec st (Z.of_nat (length (colors (CROPS k))) - 1)); [| lia].
  pose proof (stageNeeded_pos k st ltac:(lia) ltac:(lia)) as Hpos.
  apply Qltb_lt in Hpos. rewrite Hpos. cbn [andb].
  assert (Hint : exists N, 1 <= N <= 2 ^ 53
                           /\ stageNeeded (CROPS k) st = inject_Z N).
  { assert (Hs : st = 0 \/ st = 1) by (destruct k; cbn in Hst; lia).
    destruct Hs as [-> | ->]; destruct k; eexists; (split; [| reflexivity]); lia. }
  destruct Hint as (N & HN & EN).
  assert (Hge : Qgeb (fadd 0 dt) (stageNeeded (CROPS k) st) = true).
  { apply Qgeb_le. rewrite EN in Hdt |- *. unfold fadd.
    apply roundDouble_ge_int; [exact HN | lra]. }
  now rewrite Hge.
Qed.

(** X15. From seed to crop. On a tilled, watered tile in front, with the
    hand, an equipped seed and a positive stack of it: [interactFront]
    plants; a world tick that brings the time of the first stage, taken
    before the water expires, makes the plant sprout, and one that brings the
    time of the second stage makes it mature; [interactFront] then harvests
    it. In the end the tile is as it was before planting, the seed stack is
    one lower, the crop stack one higher, and the stamina one lower. *)
Theorem seed_grows_into_crop :
  forall (now now1 now2 now3 dt1 dt2 : Q) (st : Session) (x y : Z) (t : Tile)
         (k : CropKind) (n : Z),
    frontTileCoords (game st) = (x, y) ->
    tileAt (world (game st)) x y = Some t ->
    frontIsPlain (game st) x y ->
    tool (game st) = Hand ->
    plant t = None -> tilled t = true -> watered t = true ->
    (now1 < waterEndAt t)%Q -> (now2 < waterEndAt t)%Q ->
    equippedSeed st = Some k ->
    seeds st !! cropKey k = Some n -> 0 < n ->
    1 <= Mechanics.stamina_current (stamina (game st)) ->
    (stageNeeded (CROPS k) 0 <= dt1)%Q ->
    (stageNeeded (CROPS k) 1 <= dt2)%Q ->
    let st1 := interactFront now st in
    let st2 := onGame (tickWorld dt1 now1) st1 in
    let st3 := onGame (tickWorld dt2 now2) st2 in
    let st4 := interactFront now3 st3 in
    tileAt (world (game st1)) x y
      = Some (set_plant (Some {| p_type := k; stage := 0; growthMs := 0 |}) t)
    /\ tileAt (world (game st2)) x y
         = Some (set_plant (Some {| p_type := k; stage := 1; growthMs := 0 |}) t)
    /\ tileAt (world (game st3)) x y
         = Some (set_plant (Some {| p_type := k; stage := 2; growthMs := 0 |}) t)
    /\ tileAt (world (game st4)) x y = Some t
    /\ seeds st4 !! cropKey k = Some (n - 1)
    /\ crops st4 !! cropKey k = Some (default 0 (crops st !! cropKey k) + 1)
    /\ Mechanics.stamina_current (stamina (game st4))
         = Mechanics.stamina_current (stamina (game st)) - 1.
Proof.
  intros now now1 now2 now3 dt1 dt2 st x y t k n Hf Ht Hp Htool Hpl Htill Hwat
         Hn1 Hn2 Heq Hseeds Hn Hsta Hd1 Hd2 st1 st2 st3 st4.
  assert (Hlen : Z.of_nat (length (colors (CROPS k))) - 1 = 2) by now destruct k.
  assert (E1 : st1 = plantSeed k x y st).
  { subst st1. rewrite (interactFront_plain now st x y t Hf Ht Hp).
    unfold useTool. now rewrite Htool, Hpl, Heq, Htill. }
  assert (G2 : game st2 = tickWorld dt1 now1 (game st1)
               /\ seeds st2 = seeds st1 /\ crops st2 = crops st1)
    by (subst st2; apply onGame_fields).
  assert (G3 : game st3 = tickWorld dt2 now2 (game st2)
               /\ seeds st3 = seeds st2 /\ crops st3 = crops st2)
    by (subst st3; apply onGame_fields).
  assert (E4 : st4 = interactFront now3 st3) by reflexivity.
  clearbody st4 st3 st2 st1.
  destruct G2 as (G2 & Se2 & Cr2). destruct G3 as (G3 & Se3 & Cr3).
  (* planting *)
  destruct (plantSeed_effect k x y st t Ht) as (P1 & _ & _ & P4).
  cbv zeta in P1, P4. rewrite Hseeds in P1. cbn [default] in P1.
  destruct (P1 Hn) as [T1 S1]. rewrite <- E1 in T1, S1, P4.
  (* the two ticks *)
  pose proof (tickWorld_sameButTiles dt1 now1 (game st1)) as F2.
  pose proof (tickWorld_sameButTiles dt2 now2 (game st2)) as F3.
  rewrite <- G2 in F2. rewrite <- G3 in F3.
  assert (T2 : tileAt (world (game st2)) x y
               = Some (set_plant (Some {| p_type := k; stage := 1; growthMs := 0 |}) t)).
  { rewrite G2, tickWorld_tile, T1.
    cbn [fmap option_fmap option_map]. f_equal.
    rewrite (tickTile_advances dt1 now1
                   (set_plant (Some {| p_type := k; stage := 0; growthMs := 0 |}) t)
                   k 0 eq_refl Hwat Hn1 ltac:(lia) Hd1).
    reflexivity. }
  assert (T3 : tileAt (world (game st3)) x y
               = Some (set_plant (Some {| p_type := k; stage := 2; growthMs := 0 |}) t)).
  { rewrite G3, tickWorld_tile, T2.
    cbn [fmap option_fmap option_map]. f_equal.
    rewrite (tickTile_advances dt2 now2
                   (set_plant (Some {| p_type := k; stage := 1; growthMs := 0 |}) t)
                   k 1 eq_refl Hwat Hn2 ltac:(lia) Hd2).
    reflexivity. }
  (* the state before the harvest *)
  assert (G1 : player (game st1) = player (game st) /\ objs (game st1) = objs (game st)
               /\ decor (game st1) = decor (game st) /\ tool (game st1) = tool (game st)
               /\ stamina (game st1) = stamina (game st) /\ crops st1 = crops st)
    by (rewrite P4; repeat split).
  destruct G1 as (G11 & G12 & G13 & G14 & G15 & G16).
  destruct F2 as (A1 & A2 & _ & A4 & A5 & A6 & _).
  destruct F3 as (B1 & B2 & _ & B4 & B5 & B6 & _).
  assert (Hf3 : frontTileCoords (game st3) = (x, y)).
  { rewrite <- Hf. apply frontTileCoords_same. now rewrite B6, A6. }
  assert (Hp3 : frontIsPlain (game st3) x y).
  { apply (frontIsPlain_same (game st)); [| | | exact Hp].
    - now rewrite B4, A4.
    - now rewrite B5, A5.
    - now rewrite B1, A1. }
  assert (Htool3 : tool (game st3) = Hand) by (now rewrite B1, A1, G14).
  assert (Hsta3 : stamina (game st3) = stamina (game st))
    by (now rewrite B2, A2).
  assert (E4' : st4 = harvestCrop {| p_type := k; stage := 2; growthMs := 0 |} x y st3).
  { rewrite E4, (interactFront_plain now3 st3 x y _ Hf3 T3 Hp3).
    unfold useTool. rewrite Htool3. cbn [plant set_plant].
    unfold isMature. cbn [p_type stage]. rewrite Hlen. reflexivity. }
  destruct (harvestCrop_effect {| p_type := k; stage := 2; growthMs := 0 |} x y st3 _
              T3 ltac:(now rewrite Hsta3))
    as (H1 & _ & H3 & H4 & _ & _ & H7 & _).
  rewrite <- E4' in H1, H3, H4, H7. cbn [p_type] in H3.
  split; [exact T1 |]. split; [exact T2 |]. split; [exact T3 |].
  split.
  { rewrite H1. f_equal. clear - Hpl Htill. destruct t as [i ti wa we pl co wk].
    cbn [plant tilled] in Hpl, Htill. subst pl ti. reflexivity. }
  split.
  { rewrite H7, Se3, Se2, S1. apply lookup_insert_eq. }
  split.
  { rewrite H3, Cr3, Cr2, G16. apply bump_lookup. }
  rewrite H4, Hsta3. cbn. lia.
Qed.

Lemma seed_grows_into_crop_witness :
  crops (interactFront 30000
           (onGame (tickWorld 12000 20000)
              (onGame (tickWorld 8000 8000) (interactFront 0 sownSession))))
    !! "turnip" = Some 1.
Proof.
  destruct sownSession_front as (Hf & Ht & Hp).
  exact (proj1 (proj2 (proj2 (proj2 (proj2 (proj2
           (seed_grows_into_crop 0 8000 20000 30000 8000 12000 sownSession 5 7 _
              turnip 2 Hf Ht Hp eq_refl eq_refl eq_refl eq_refl
              ltac:(vm_compute; reflexivity) ltac:(vm_compute; reflexivity)
              eq_refl ltac:(vm_compute; reflexivity) ltac:(lia)
              ltac:(vm_compute; congruence)
              ltac:(vm_compute; congruence) ltac:(vm_compute; congruence)))))))).
Defined.

(** *** Skill experience *)




(** *** What [interactFront] leaves alone *)

Lemma sellAllToProphecySeller_game st :
  game (snd (sellAllToProphecySeller st))
  = set_inv {| items := emptied (items (inv (game st)));
               gitems := emptied (gitems (inv (game st)));
               itemMeta := itemMeta (inv (game st)) |} (game st)
  /\ rngSeed (snd (sellAllToProphecySeller st)) = rngSeed st
  /\ equippedSeed (snd (sellAllToProphecySeller st)) = equippedSeed st
  /\ names (snd (sellAllToProphecySeller st)) = names st
  /\ seeds (snd (sellAllToProphecySeller st)) = emptied (seeds st)
  /\ crops (snd (sellAllToProphecySeller st)) = emptied (crops st).
Proof.
  unfold sellAllToProphecySeller.
  destruct (sellStacks (gitemPrice _) _) as [c1 n1].
  destruct (sellStacks (itemPrice _) _) as [c2 n2].
  destruct (sellStacks cropPrice _) as [c3 n3].
  destruct (sellStacks seedSalePrice _) as [c4 n4].
  repeat split.
Qed.

Lemma interactFront_frame now st :
  let st' := interactFront now st in
  let x := fst (frontTileCoords (game st)) in
  let y := snd (frontTileCoords (game st)) in
  player (game st') = player (game st)
  /\ decor (game st') = decor (game st) /\ objs (game st') = objs (game st)
  /\ rand (game st') = rand (game st)
  /\ others (game st') = others (game st)
  /\ othersView (game st') = othersView (game st)
  /\ rngSeed st' = rngSeed st /\ equippedSeed st' = equippedSeed st
  /\ names st' = names st
  /\ (world (game st') = world (game st)
      \/ exists f, world (game st') = mutTile f x y (world (game st)))
  /\ (inBounds x y = false -> st' = st).
Proof.
  cbv zeta. unfold interactFront.
  destruct (frontTileCoords (game st)) as [x y]. cbn [fst snd].
  destruct (inBounds x y) eqn:Eb; cbn [negb];
    [| repeat split; left; reflexivity].
  assert (Htool : forall t,
            let st' := useTool now x y t st in
            player (game st') = player (game st)
            /\ decor (game st') = decor (game st) /\ objs (game st') = objs (game st)
            /\ rand (game st') = rand (game st)
            /\ others (game st') = others (game st)
            /\ othersView (game st') = othersView (game st)
            /\ rngSeed st' = rngSeed st /\ equippedSeed st' = equippedSeed st
            /\ names st' = names st
            /\ (world (game st') = world (game st)
                \/ exists f, world (game st') = mutTile f x y (world (game st)))
            /\ (true = false -> st' = st)).
  { intros t. cbv zeta. unfold useTool.
    destruct (tool (game st)).
    - destruct (_ && _); cbn; repeat split; try discriminate;
        (left; reflexivity) || (right; eexists; reflexivity).
    - destruct (tilled t); cbn; repeat split; try discriminate;
        (left; reflexivity) || (right; eexists; reflexivity).
    - destruct (plant t) as [p |].
      + destruct (isMature p);
          [| repeat split; try discriminate; left; reflexivity].
        unfold harvestCrop.
        destruct (_ <? 1);
          [cbn; repeat split; try discriminate; left; reflexivity |].
        match goal with
        | |- context [awardSkillExp harvesting 1 ?h] =>
            destruct (awardSkillExp_frame harvesting 1 h)
              as (A1 & A2 & A3 & A4 & A5 & A6 & A7 & A8 & A9 & A10);
            set (g3 := awardSkillExp harvesting 1 h) in *
        end.
        assert (Ao : others g3 = others (game st)
                     /\ othersView g3 = othersView (game st)).
        { subst g3. unfold awardSkillExp.
          destruct (levelUpLoop _ _ _) as [s2 []]; split; reflexivity. }
        destruct Ao as [Ao1 Ao2].
        cbn [game set_game set_crops rngSeed equippedSeed names player decor
             objs rand others othersView world set_stamina].
        rewrite A7, A6, A5, A9, A4, Ao1, Ao2.
        cbn [showFloatingText set_floaties set_world player decor objs rand
             world].
        repeat split; try discriminate. right. eexists. reflexivity.
      + destruct (equippedSeed st) as [seed |] eqn:Es;
          [| repeat split; try discriminate; try exact Es; left; reflexivity].
        destruct (tilled t);
          [| repeat split; try discriminate; try exact Es; left; reflexivity].
        unfold plantSeed. destruct (0 <? _); cbn; repeat split;
          try discriminate; try exact Es;
          (left; reflexivity) || (right; eexists; reflexivity). }
  assert (Hvia : let st' := match tileAt (world (game st)) x y with
                            | Some t => useTool now x y t st
                            | None => st
                            end in
            player (game st') = player (game st)
            /\ decor (game st') = decor (game st) /\ objs (game st') = objs (game st)
            /\ rand (game st') = rand (game st)
            /\ others (game st') = others (game st)
            /\ othersView (game st') = othersView (game st)
            /\ rngSeed st' = rngSeed st /\ equippedSeed st' = equippedSeed st
            /\ names st' = names st
            /\ (world (game st') = world (game st)
                \/ exists f, world (game st') = mutTile f x y (world (game st)))
            /\ (true = false -> st' = st)).
  { cbv zeta. destruct (tileAt (world (game st)) x y) as [t |]; [apply Htool |].
    repeat split; left; reflexivity. }
  cbv zeta in Hvia.
  destruct (decorAt (game st) x y) as [r |]; [| exact Hvia].
  destruct (objs (game st) !! r) as [d |] eqn:Ed; [| exact Hvia].
  destruct (String.eqb (d_type d) "npc").
  { unfold npcInteract.
    destruct (sellAllToProphecySeller_game st) as (S1 & S2 & S3 & S4 & _).
    destruct (sellAllToProphecySeller st) as [[totalCash totalItems] st1].
    cbn [snd] in S1, S2, S3, S4.
    destruct (0 <? totalItems);
      cbn [onGame game set_game rngSeed equippedSeed names];
      rewrite S1, S2, S3, S4; cbn; repeat split; try discriminate;
      left; reflexivity. }
  destruct (isHand (tool (game st)) && isGatherType d); [| exact Hvia].
  destruct (active (World.gather (game st)));
    [repeat split; try discriminate; left; reflexivity |].
  unfold onGame, startGathering. cbn [game set_game]. rewrite Ed.
  destruct (match remainingHarvests d with Some n => n <=? 0 | None => false end);
    [cbn; repeat split; try discriminate; left; reflexivity |].
  destruct (_ <? 1); cbn; repeat split; try discriminate; left; reflexivity.
Qed.

(** X17. [interactFront] acts on the tile in front only. Whatever the
    tool and whatever stands in front, it leaves the player, the decoration
    list and objects, the random sources, the equipped seed and the other
    players as they are; it changes no tile but the one in front; it keeps
    the shape of the grid; and when the tile in front lies outside the world
    it changes nothing at all. *)
Theorem interactFront_acts_on_front_tile_only :
  forall (now : Q) (st : Session),
    let st' := interactFront now st in
    let x := fst (frontTileCoords (game st)) in
    let y := snd (frontTileCoords (game st)) in
    player (game st') = player (game st)
    /\ decor (game st') = decor (game st) /\ objs (game st') = objs (game st)
    /\ rand (game st') = rand (game st) /\ rngSeed st' = rngSeed st
    /\ equippedSeed st' = equippedSeed st
    /\ others (game st') = others (game st)
    /\ othersView (game st') = othersView (game st)
    /\ (forall x' y', (x', y') <> (x, y) ->
          tileAt (world (game st')) x' y' = tileAt (world (game st)) x' y')
    /\ (grid_ok (world (game st)) -> grid_ok (world (game st')))
    /\ (inBounds x y = false -> st' = st).
Proof.
  intros now st. cbv zeta.
  destruct (interactFront_frame now st)
    as (F1 & F2 & F3 & F4 & F5 & F6 & F7 & F8 & _ & F10 & F11).
  cbv zeta in F10, F11.
  split; [exact F1 |]. split; [exact F2 |]. split; [exact F3 |].
  split; [exact F4 |]. split; [exact F7 |]. split; [exact F8 |].
  split; [exact F5 |]. split; [exact F6 |].
  split.
  { intros x' y' Hne. destruct F10 as [-> | [f ->]]; [reflexivity |].
    now apply tileAt_mutTile_ne. }
  split; [| exact F11].
  intros Hok. destruct F10 as [-> | [f ->]]; [exact Hok |].
  now apply mutTile_grid_ok.
Qed.

End Farming.

(** ** The shop and the seller *)

Section Trade.
Import JSString JSNum World Farm.

Lemma sellAllCrop_iter (n : nat) k st :
  Z.of_nat n = default 0 (crops st !! cropKey k) ->
  sellAllCrop k st = Nat.iter n (sellCrop k) st.
Proof.
  revert st. induction n as [| n IH]; intros st Hn.
  - unfold sellAllCrop. rewrite <- Hn. reflexivity.
  - rewrite Nat.iter_succ_r.
    assert (Hpos : (0 <? default 0 (crops st !! cropKey k)) = true)
      by (apply Z.ltb_lt; lia).
    assert (H1 : default 0 (crops (sellCrop k st) !! cropKey k) = Z.of_nat n).
    { unfold sellCrop. rewrite Hpos. cbn [crops set_crops].
      rewrite lookup_insert_eq. cbn. lia. }
    rewrite <- (IH (sellCrop k st)) by (symmetry; exact H1).
    unfold sellAllCrop at 2. rewrite H1.
    unfold sellAllCrop. rewrite Hpos.
    unfold sellCrop. rewrite Hpos.
    destruct n as [| n].
    + cbn [Z.of_nat Z.ltb Z.compare].
      replace (default 0 (crops st !! cropKey k)) with 1 by lia.
      unfold set_crops, set_money. cbn. rewrite Z.mul_1_r. reflexivity.
    + replace (0 <? Z.of_nat (S n)) with true by (symmetry; apply Z.ltb_lt; lia).
      unfold set_crops, set_money, ensureCurrencies, withCash. cbn.
      rewrite insert_insert_eq.
      match goal with
      | |- context [?a + ?p + ?p * Z.of_nat (S n)] =>
          replace (a + p + p * Z.of_nat (S n))
            with (a + p * default 0 (crops st !! cropKey k))
            by (rewrite <- Hn; nia)
      end.
      reflexivity.
Qed.

(** X18. "Sell All" is "Sell 1" until the stack is empty. With [c] the
    count of the crop, the state after the "Sell All" handler is the state
    after [c] runs of the "Sell 1" handler (none for a count that is zero,
    negative or absent): the same cash, the same stacks. *)
Theorem sellAllCrop_is_sellCrop_repeated :
  forall (k : CropKind) (st : Session),
    sellAllCrop k st
    = Nat.iter (Z.to_nat (default 0 (crops st !! cropKey k))) (sellCrop k) st.
Proof.
  intros k st.
  destruct (Z.le_gt_cases 0 (default 0 (crops st !! cropKey k))) as [H | H].
  - apply sellAllCrop_iter. lia.
  - replace (Z.to_nat _) with 0%nat by lia. cbn [Nat.iter nat_rect].
    unfold sellAllCrop.
    replace (0 <? _) with false by (symmetry; apply Z.ltb_ge; lia).
    reflexivity.
Qed.

Lemma seedPrice_pos k : 0 < seedPrice (CROPS k).
Proof. destruct k; cbn; lia. Qed.

Lemma sellPrice_pos k : 0 < sellPrice (CROPS k).
Proof. destruct k; cbn; lia. Qed.

(** X19. The shop never overdraws. A "Buy 1" click with less cash than
    the seed price changes nothing; otherwise it takes exactly the price and
    adds one seed of that crop, other stacks untouched; cash that was not
    negative stays so. A "Sell 1" click on a stack that is not positive
    changes nothing; otherwise it takes one crop and pays its sell price. *)
Theorem shop_never_overdraws :
  forall (k : CropKind) (st : Session),
    let cashOf s := cash (ensureCurrencies s) in
    let have m := default 0 (m !! cropKey k) in
    (cashOf st < seedPrice (CROPS k) -> buySeed k st = st)
    /\ (seedPrice (CROPS k) <= cashOf st ->
          cashOf (buySeed k st) = cashOf st - seedPrice (CROPS k)
          /\ seeds (buySeed k st) !! cropKey k = Some (have (seeds st) + 1)
          /\ (forall k', k' <> cropKey k ->
                seeds (buySeed k st) !! k' = seeds st !! k'))
    /\ (0 <= cashOf st -> 0 <= cashOf (buySeed k st))
    /\ crops (buySeed k st) = crops st
    /\ (have (crops st) <= 0 -> sellCrop k st = st)
    /\ (0 < have (crops st) ->
          cashOf (sellCrop k st) = cashOf st + sellPrice (CROPS k)
          /\ crops (sellCrop k st) !! cropKey k = Some (have (crops st) - 1)
          /\ (forall k', k' <> cropKey k ->
                crops (sellCrop k st) !! k' = crops st !! k'))
    /\ seeds (sellCrop k st) = seeds st
    /\ game (buySeed k st) = game st /\ game (sellCrop k st) = game st.
Proof.
  intros k st. cbv zeta.
  assert (Ec : match currencies st with Some c => cash c | None => coins st end
               = cash (ensureCurrencies st)).
  { unfold ensureCurrencies. now destruct (currencies st). }
  unfold buySeed, sellCrop. rewrite Ec.
  set (c := cash (ensureCurrencies st)).
  set (n := default 0 (crops st !! cropKey k)).
  pose proof (seedPrice_pos k) as Hp.
  destruct (Z.leb_spec (seedPrice (CROPS k)) c) as [Hb | Hb];
    destruct (Z.ltb_spec 0 n) as [Hs | Hs];
    cbn [seeds crops game set_seeds set_crops set_money ensureCurrencies
         currencies default withCash cash];
    repeat (split; [try reflexivity; try lia; intros |]);
    try reflexivity; try lia;
    repeat split; try lia;
    try apply bump_lookup; try apply lookup_insert_eq;
    intros; try (now apply bump_lookup_ne); try (now apply lookup_insert_ne);
    cbn; lia.
Qed.

Lemma computeProphecyPrice_pos iv n r q : 1 <= computeProphecyPrice iv n r q.
Proof. unfold computeProphecyPrice. lia. Qed.

Lemma gitemPrice_pos iv k : 1 <= gitemPrice iv k.
Proof.
  unfold gitemPrice. destruct (parseKey k) as [[n r] q].
  apply computeProphecyPrice_pos.
Qed.

Lemma itemPrice_pos iv k : 1 <= itemPrice iv k.
Proof. unfold itemPrice, computeProphecyPrice. apply Z.le_max_l. Qed.

Lemma cropPrice_pos k : 1 <= cropPrice k.
Proof.
  unfold cropPrice. destruct (cropOfKey k) as [c |]; [| lia].
  pose proof (sellPrice_pos c). lia.
Qed.

Lemma seedSalePrice_pos k : 1 <= seedSalePrice k.
Proof.
  unfold seedSalePrice. destruct (cropOfKey k); [lia |].
  destruct (inheritedKey k); lia.
Qed.

Lemma sellStacks_bounds price (m : gmap string Z) :
  (forall k, 1 <= price k) ->
  0 <= snd (sellStacks price m) <= fst (sellStacks price m).
Proof.
  intros Hp. unfold sellStacks.
  apply (map_fold_weak_ind (fun (r : Z * Z) (_ : gmap string Z) =>
                              0 <= snd r <= fst r)).
  - cbn. lia.
  - intros i x m' r _ IH. destruct (Z.ltb_spec 0 x); [| exact IH].
    cbn [fst snd]. specialize (Hp i). nia.
Qed.

Lemma sellStacks_nothing price (m : gmap string Z) :
  (forall k c, m !! k = Some c -> c <= 0) -> sellStacks price m = (0, 0).
Proof.
  unfold sellStacks.
  apply (map_fold_weak_ind (fun (r : Z * Z) (m : gmap string Z) =>
           (forall k c, m !! k = Some c -> c <= 0) -> r = (0, 0))).
  - reflexivity.
  - intros i x m' r Hi IH Hall.
    assert (Hx : x <= 0) by (apply (Hall i); apply lookup_insert_eq).
    replace (0 <? x) with false by (symmetry; apply Z.ltb_ge; lia).
    apply IH. intros k c Hk. apply (Hall k).
    rewrite lookup_insert_ne; [exact Hk |]. intros ->. congruence.
Qed.

Lemma emptied_lookup (m : gmap string Z) k c :
  emptied m !! k = Some c ->
  c <= 0 /\ exists c0, m !! k = Some c0 /\ (c0 <= 0 -> c = c0).
Proof.
  unfold emptied. rewrite lookup_fmap.
  destruct (m !! k) as [c0 |]; cbn; [| discriminate].
  intros [= <-]. destruct (Z.ltb_spec 0 c0); split; try lia; eauto.
  exists c0. split; [reflexivity | lia].
Qed.

Lemma emptied_nonpos (m : gmap string Z) k c :
  emptied m !! k = Some c -> c <= 0.
Proof. intros H. now apply emptied_lookup in H. Qed.

Lemma emptied_keeps (m : gmap string Z) k c :
  m !! k = Some c -> c <= 0 -> emptied m !! k = Some c.
Proof.
  intros H Hc. unfold emptied. rewrite lookup_fmap, H. cbn.
  now replace (0 <? c) with false by (symmetry; apply Z.ltb_ge; lia).
Qed.

Lemma sellAllToProphecySeller_totals st :
  let r := sellAllToProphecySeller st in
  0 <= snd (fst r) <= fst (fst r)
  /\ cash (ensureCurrencies (snd r)) = cash (ensureCurrencies st) + fst (fst r)
  /\ coins (snd r) = cash (ensureCurrencies (snd r))
  /\ junk (ensureCurrencies (snd r)) = junk (ensureCurrencies st)
  /\ ada (ensureCurrencies (snd r)) = ada (ensureCurrencies st).
Proof.
  cbv zeta. unfold sellAllToProphecySeller.
  pose proof (sellStacks_bounds (gitemPrice (inv (game st)))
                (gitems (inv (game st))) (gitemPrice_pos _)) as B1.
  pose proof (sellStacks_bounds (itemPrice (inv (game st)))
                (items (inv (game st))) (itemPrice_pos _)) as B2.
  pose proof (sellStacks_bounds cropPrice (crops st) cropPrice_pos) as B3.
  pose proof (sellStacks_bounds seedSalePrice (seeds st) seedSalePrice_pos) as B4.
  destruct (sellStacks (gitemPrice _) _) as [c1 n1].
  destruct (sellStacks (itemPrice _) _) as [c2 n2].
  destruct (sellStacks cropPrice _) as [c3 n3].
  destruct (sellStacks seedSalePrice _) as [c4 n4].
  cbn [fst snd] in *. unfold ensureCurrencies. cbn. repeat split; lia.
Qed.

(** X20. The seller's accounts. With crop stacks under names that have a
    price, [sellAllToProphecySeller] reports a number of items that is not
    negative and a sum of at least one coin per item; the cash grows by
    exactly that sum, [coins] mirrors it and the other currencies stay;
    afterwards no stack of gathered items, crops or seeds is positive, while
    the stacks that were not positive, zero or negative, are kept as they
    were; and a second sale right after it sells nothing for nothing. *)
Theorem sellAllToProphecySeller_accounts :
  forall (st : Session),
    plainStacks (crops st) ->
    let r := sellAllToProphecySeller st in
    let totalCash := fst (fst r) in
    let totalItems := snd (fst r) in
    let st' := snd r in
    0 <= totalItems <= totalCash
    /\ cash (ensureCurrencies st') = cash (ensureCurrencies st) + totalCash
    /\ coins st' = cash (ensureCurrencies st')
    /\ junk (ensureCurrencies st') = junk (ensureCurrencies st)
    /\ ada (ensureCurrencies st') = ada (ensureCurrencies st)
    /\ (forall k c,
          gitems (inv (game st')) !! k = Some c \/ items (inv (game st')) !! k = Some c
          \/ crops st' !! k = Some c \/ seeds st' !! k = Some c -> c <= 0)
    /\ (forall k c, c <= 0 ->
          (gitems (inv (game st)) !! k = Some c -> gitems (inv (game st')) !! k = Some c)
          /\ (items (inv (game st)) !! k = Some c -> items (inv (game st')) !! k = Some c)
          /\ (crops st !! k = Some c -> crops st' !! k = Some c)
          /\ (seeds st !! k = Some c -> seeds st' !! k = Some c))
    /\ fst (sellAllToProphecySeller st') = (0, 0).
Proof.
  intros st _. cbv zeta.
  destruct (sellAllToProphecySeller_totals st) as (T1 & T2 & T3 & T4 & T5).
  cbv zeta in T1, T2, T3, T4, T5.
  destruct (sellAllToProphecySeller_game st) as (G1 & _ & _ & _ & G5 & G6).
  split; [exact T1 |]. split; [exact T2 |]. split; [exact T3 |].
  split; [exact T4 |]. split; [exact T5 |].
  set (st' := snd (sellAllToProphecySeller st)) in *.
  assert (Hg : gitems (inv (game st')) = emptied (gitems (inv (game st))))
    by (rewrite G1; reflexivity).
  assert (Hi : items (inv (game st')) = emptied (items (inv (game st))))
    by (rewrite G1; reflexivity).
  clearbody st'.
  split.
  { intros k c [H | [H | [H | H]]];
      [rewrite Hg in H | rewrite Hi in H | rewrite G6 in H | rewrite G5 in H];
      exact (emptied_nonpos _ _ _ H). }
  split.
  { intros k c Hc. rewrite Hg, Hi, G5, G6.
    repeat split; intros H; now apply emptied_keeps. }
  unfold sellAllToProphecySeller.
  rewrite (sellStacks_nothing (gitemPrice (inv (game st'))) (gitems (inv (game st'))))
    by (rewrite Hg; apply emptied_nonpos).
  rewrite (sellStacks_nothing (itemPrice (inv (game st'))) (items (inv (game st'))))
    by (rewrite Hi; apply emptied_nonpos).
  rewrite (sellStacks_nothing cropPrice (crops st'))
    by (rewrite G6; apply emptied_nonpos).
  rewrite (sellStacks_nothing seedSalePrice (seeds st'))
    by (rewrite G5; apply emptied_nonpos).
  reflexivity.
Qed.

Lemma sellAllToProphecySeller_accounts_witness :
  plainStacks (crops fieldSession)
  /\ cash (ensureCurrencies (snd (sellAllToProphecySeller fieldSession)))
     = cash (ensureCurrencies fieldSession)
       + fst (fst (sellAllToProphecySeller fieldSession)).
Proof.
  split.
  - exact (fun k _ => lookup_empty k).
  - exact (proj1 (proj2 (sellAllToProphecySeller_accounts fieldSession
                           (fun k _ => lookup_empty k)))).
Defined.

End Trade.

(** ** Identity keys of gathered items *)

Section IdentityKeys.
Import JSString JSNum World Farm.

Lemma splitKey_cons c s :
  splitKey (String c s)
  = match s with
    | String c' r =>
        if Ascii.eqb c "_" && Ascii.eqb c' "_" then
          (EmptyString, let '(h, t) := splitKey r in h :: t)
        else let '(h, t) := splitKey s in (String c h, t)
    | EmptyString => (String c EmptyString, [])
    end.
Proof. destruct s; reflexivity. Qed.

Lemma splitKey_plain q : noUnderscore q = true -> splitKey q = (q, []).
Proof.
  induction q as [| c q IH]; [reflexivity |].
  cbn [noUnderscore]. intros H. apply andb_true_iff in H as [Hc Hq].
  apply negb_true_iff in Hc. rewrite splitKey_cons.
  destruct q as [| c' r]; [reflexivity |].
  rewrite Hc. cbn [andb]. now rewrite (IH Hq).
Qed.

Lemma splitKey_sep a rest :
  noUnderscore a = true ->
  splitKey (a ++ "__" ++ rest)
  = (a, let '(h, t) := splitKey rest in h :: t).
Proof.
  induction a as [| c a IH]; intros H.
  - reflexivity.
  - cbn [noUnderscore] in H. apply andb_true_iff in H as [Hc Ha].
    apply negb_true_iff in Hc. rewrite app_cons, splitKey_cons.
    destruct (a ++ "__" ++ rest)%string as [| c' r] eqn:E.
    + exfalso. revert E. apply append_nonempty_r. discriminate.
    + rewrite Hc. cbn [andb]. rewrite (IH Ha). reflexivity.
Qed.

Lemma parseKey_gkeyOf n r q :
  noUnderscore n = true -> noUnderscore r = true -> noUnderscore q = true ->
  parseKey (gkeyOf n r q)
  = (orString n "Item", orString r "Unknown", orString q "Unknown").
Proof.
  intros Hn Hr Hq. unfold parseKey, gkeyOf.
  rewrite (splitKey_sep n _ Hn), (splitKey_sep r _ Hr), (splitKey_plain q Hq).
  reflexivity.
Qed.

Lemma orString_nonempty a b : a <> "" -> orString a b = a.
Proof.
  intros H. unfold orString. destruct (String.eqb_spec a ""); congruence.
Qed.

(** X21. Identity keys decode to what was encoded. For a name, a rarity
    and a quality without underscores, the key
    [name__rarity__quality] under which [finishGathering] stacks an item is
    split by the seller into the same three parts, an empty part being read
    as 'Item' or 'Unknown'; so the seller's price of the stack is the price
    of that name, rarity and quality, and two identities with non-empty
    parts share a key only when they are the same identity. *)
Theorem gkey_decodes_to_identity :
  forall (n r q : string),
    noUnderscore n = true -> noUnderscore r = true -> noUnderscore q = true ->
    parseKey (gkeyOf n r q)
    = (orString n "Item", orString r "Unknown", orString q "Unknown")
    /\ (forall iv, gitemPrice iv (gkeyOf n r q)
                   = computeProphecyPrice iv (orString n "Item")
                       (orString r "Unknown") (orString q "Unknown"))
    /\ (n <> "" -> r <> "" -> q <> "" ->
        parseKey (gkeyOf n r q) = (n, r, q)
        /\ forall n' r' q',
             noUnderscore n' = true -> noUnderscore r' = true ->
             noUnderscore q' = true -> n' <> "" -> r' <> "" -> q' <> "" ->
             gkeyOf n' r' q' = gkeyOf n r q -> (n', r', q') = (n, r, q)).
Proof.
  intros n r q Hn Hr Hq.
  pose proof (parseKey_gkeyOf n r q Hn Hr Hq) as P.
  split; [exact P |]. split.
  { intros iv. unfold gitemPrice. rewrite P. reflexivity. }
  intros En Er Eq.
  rewrite !orString_nonempty in P by assumption.
  split; [exact P |].
  intros n' r' q' Hn' Hr' Hq' En' Er' Eq' E.
  pose proof (parseKey_gkeyOf n' r' q' Hn' Hr' Hq') as P'.
  rewrite !orString_nonempty in P' by assumption.
  rewrite <- P, <- P', E. reflexivity.
Qed.

Lemma gkey_decodes_to_identity_witness :
  parseKey (gkeyOf "Oak Wood" "Rare" "Pristine")
  = (orString "Oak Wood" "Item", orString "Rare" "Unknown",
     orString "Pristine" "Unknown").
Proof.
  exact (proj1 (gkey_decodes_to_identity "Oak Wood" "Rare" "Pristine"
                  eq_refl eq_refl eq_refl)).
Defined.

End IdentityKeys.

(** ** Decorations added and removed at run time *)

Section Customization.
Import JSString JSNum World Farm.

Lemma findDecor_filter_here os l x y :
  findDecor os (List.filter (fun r => negb (standsAt os x y r)) l) x y = None.
Proof.
  induction l as [| a l IH]; [reflexivity |].
  cbn [List.filter]. unfold standsAt at 1.
  destruct (os !! a) as [d |] eqn:Ha.
  - destruct ((d_x d =? x) && (d_y d =? y)) eqn:E; cbn [negb]; [exact IH |].
    cbn [findDecor]. rewrite Ha, E. exact IH.
  - cbn [negb findDecor]. rewrite Ha. exact IH.
Qed.

Lemma findDecor_filter_other os l x y x' y' :
  (x', y') <> (x, y) ->
  findDecor os (List.filter (fun r => negb (standsAt os x y r)) l) x' y'
  = findDecor os l x' y'.
Proof.
  intros Hne. induction l as [| a l IH]; [reflexivity |].
  cbn [List.filter]. unfold standsAt at 1.
  destruct (os !! a) as [d |] eqn:Ha.
  - destruct ((d_x d =? x) && (d_y d =? y)) eqn:E; cbn [negb findDecor];
      rewrite Ha.
    + apply andb_true_iff in E as [Ex Ey]. apply Z.eqb_eq in Ex, Ey.
      destruct ((d_x d =? x') && (d_y d =? y')) eqn:E'; [| exact IH].
      apply andb_true_iff in E' as [Ex' Ey']. apply Z.eqb_eq in Ex', Ey'.
      exfalso. apply Hne. congruence.
    + now rewrite IH.
  - cbn [negb findDecor]. rewrite Ha. exact IH.
Qed.

Lemma isBlocked_unfold g x y :
  isBlocked g x y
  = if negb (inBounds x y) then true
    else match tileAt (world g) x y with
         | None => true
         | Some t =>
             if negb (walkable t) then true
             else match decorAt g x y ≫= (fun r => objs g !! r) with
                  | Some d => blocksMovement d
                  | None => false
                  end
         end.
Proof. reflexivity. Qed.

(** X22. [removeCustomDecoration] clears the tile. After it no decoration
    is found at (x, y), and inside the world the tile is not blocked any
    more, whatever its ground, water included; the decorations found, the
    tiles and the blocking of every other place are as before, the
    decoration objects are kept and the grid keeps its shape. *)
Theorem removeCustomDecoration_clears_tile :
  forall (x y : Z) (g : Game),
    let g' := removeCustomDecoration x y g in
    decorAt g' x y = None
    /\ (forall x' y', (x', y') <> (x, y) ->
          decorAt g' x' y' = decorAt g x' y'
          /\ tileAt (world g') x' y' = tileAt (world g) x' y'
          /\ isBlocked g' x' y' = isBlocked g x' y')
    /\ objs g' = objs g
    /\ (grid_ok (world g) ->
          grid_ok (world g')
          /\ (inBounds x y = true -> isBlocked g' x y = false)).
Proof.
  intros x y g. cbv zeta.
  assert (D0 : decorAt (removeCustomDecoration x y g) x y = None)
    by apply findDecor_filter_here.
  assert (D1 : forall x' y', (x', y') <> (x, y) ->
                 decorAt (removeCustomDecoration x y g) x' y' = decorAt g x' y')
    by (intros x' y' Hne; now apply findDecor_filter_other).
  assert (T1 : forall x' y', (x', y') <> (x, y) ->
                 tileAt (world (removeCustomDecoration x y g)) x' y'
                 = tileAt (world g) x' y')
    by (intros x' y' Hne; now apply tileAt_mutTile_ne).
  split; [exact D0 |]. split.
  { intros x' y' Hne. split; [now apply D1 |]. split; [now apply T1 |].
    rewrite !isBlocked_unfold, (D1 _ _ Hne), (T1 _ _ Hne). reflexivity. }
  split; [reflexivity |].
  intros Hok. split; [now apply mutTile_grid_ok |].
  intros Hb. rewrite isBlocked_unfold, Hb, D0. cbn [negb mbind option_bind].
  unfold removeCustomDecoration. cbn [world set_world].
  rewrite tileAt_mutTile.
  assert (Hx : 0 <= x < WORLD_W /\ 0 <= y < WORLD_H).
  { unfold inBounds in Hb. rewrite !andb_true_iff in Hb.
    destruct Hb as [[[H1 H2] H3] H4]. lia. }
  destruct (grid_ok_tileAt (world g) x y Hok (proj1 Hx) (proj2 Hx)) as [t Ht].
  rewrite Ht. reflexivity.
Qed.

Lemma findDecor_added os l x y r d :
  findDecor os l x y = None -> d_x d = x -> d_y d = y ->
  findDecor (<[r := d]> os) (l ++ [r]) x y = Some r.
Proof.
  intros Hnone Hx Hy.
  assert (Hd : (d_x d =? x) && (d_y d =? y) = true)
    by (rewrite andb_true_iff, !Z.eqb_eq; now split).
  induction l as [| a l IH]; cbn [app findDecor].
  - now rewrite lookup_insert_eq, Hd.
  - destruct (decide (a = r)) as [-> | Hne].
    + now rewrite lookup_insert_eq, Hd.
    + rewrite lookup_insert_ne by congruence.
      cbn [findDecor] in Hnone. destruct (os !! a) as [da |].
      * destruct ((d_x da =? x) && (d_y da =? y)); [discriminate |].
        now apply IH.
      * now apply IH.
Qed.

Lemma addCustomDecoration_lands x y ty name st :
  decorAt (game st) x y = None ->
  let st' := fst (addCustomDecoration x y ty name st) in
  let r := fresh (dom (objs (game st))) in
  decorAt (game st') x y = Some r
  /\ objs (game st') !! r
     = Some {| d_x := x; d_y := y; d_type := ty; kind := "";
               animOffset := 0; maxHarvests := None;
               remainingHarvests := None |}
  /\ objs (game st) !! r = None
  /\ (forall r', r' <> r -> objs (game st') !! r' = objs (game st) !! r')
  /\ (name <> "" -> names st' !! r = Some name)
  /\ player (game st') = player (game st)
  /\ decor (game st') = (decor (game st) ++ [r])%list
  /\ coins st' = coins st /\ currencies st' = currencies st.
Proof.
  intros Hnone. cbv zeta.
  unfold addCustomDecoration.
  set (r := fresh (dom (objs (game st)))).
  assert (Hr : objs (game st) !! r = None).
  { apply not_elem_of_dom. apply is_fresh. }
  assert (Hname : name <> "" ->
            (if String.eqb name "" then names st else <[r := name]> (names st))
              !! r = Some name).
  { intros Hn. destruct (String.eqb_spec name ""); [contradiction |].
    apply lookup_insert_eq. }
  assert (Hfound : findDecor (<[r := {| d_x := x; d_y := y; d_type := ty;
                                        kind := ""; animOffset := 0;
                                        maxHarvests := None;
                                        remainingHarvests := None |}]>
                                (objs (game st)))
                     (decor (game st) ++ [r]) x y = Some r)
    by now apply findDecor_added.
  cbn [world set_decor set_objs].
  destruct (tileAt (world (game st)) x y) as [t |];
    [destruct (getCustomDecoration ty) as [w |] |];
    cbn [fst game set_game set_names names objs decor set_decor set_objs
         set_world player world coins currencies];
    (split; [exact Hfound |]);
    (split; [apply lookup_insert_eq |]); (split; [exact Hr |]);
    (split; [intros r' Hne; now apply lookup_insert_ne |]);
    (split; [exact Hname |]); repeat split.
Qed.

Lemma addCustomDecoration_world x y ty name st :
  let res := addCustomDecoration x y ty name st in
  (snd res = true <-> ty <> "npc" /\ is_Some (tileAt (world (game st)) x y))
  /\ (ty <> "npc" \/ tileAt (world (game st)) x y = None ->
      world (game (fst res)) = world (game st))
  /\ (ty = "npc" -> is_Some (tileAt (world (game st)) x y) ->
      world (game (fst res)) = mutTile (set_walkable false) x y (world (game st))).
Proof.
  cbv zeta. unfold addCustomDecoration, getCustomDecoration.
  cbn [world set_decor set_objs].
  destruct (tileAt (world (game st)) x y) as [t |] eqn:Et.
  - destruct (String.eqb_spec ty "npc") as [-> | Hne];
      cbn [fst snd game set_game set_names world set_world].
    + split; [split; [discriminate | intros [H _]; contradiction] |].
      split; [intros [H | H]; [contradiction | discriminate] | reflexivity].
    + split; [split; [eauto | reflexivity] |].
      split; [reflexivity | contradiction].
  - cbn [fst snd game set_game set_names world set_world].
    split; [split; [discriminate | intros [_ [t Ht]]; discriminate] |].
    split; [reflexivity |].
    intros _ [t Ht]. discriminate.
Qed.

(** X23. A decoration added on a free place. When no decoration stands at
    (x, y), [addCustomDecoration] appends a new object of the given type
    there, which [decorAt] then finds and which carries the name when one is
    given; the objects that existed are untouched. What follows depends on
    the type, because the script's decoration tables are never initialised
    (their initializer reads the undeclared [tileSize]): for 'npc' the tile
    at (x, y), if there is one, becomes non-walkable and is otherwise as
    before, so that inside the world the place is blocked; for every other
    type the call throws when there is a tile at (x, y), after the push and
    before the tile is touched, and the grid stays as it was. Other tiles
    are never touched. *)
Theorem addCustomDecoration_places_decoration :
  forall (x y : Z) (ty name : string) (st : Session),
    decorAt (game st) x y = None ->
    let st' := fst (addCustomDecoration x y ty name st) in
    let threw := snd (addCustomDecoration x y ty name st) in
    exists r,
      decorAt (game st') x y = Some r
      /\ objs (game st) !! r = None
      /\ objs (game st') !! r
         = Some {| d_x := x; d_y := y; d_type := ty; kind := "";
                   animOffset := 0; maxHarvests := None;
                   remainingHarvests := None |}
      /\ decor (game st') = (decor (game st) ++ [r])%list
      /\ (forall r', r' <> r -> objs (game st') !! r' = objs (game st) !! r')
      /\ (name <> "" -> names st' !! r = Some name)
      /\ (threw = true
          <-> ty <> "npc" /\ is_Some (tileAt (world (game st)) x y))
      /\ (ty <> "npc" -> world (game st') = world (game st))
      /\ (ty = "npc" ->
          forall t, tileAt (world (game st)) x y = Some t ->
            exists t', tileAt (world (game st')) x y = Some t'
              /\ walkable t' = false
              /\ tileId t' = tileId t /\ tilled t' = tilled t
              /\ watered t' = watered t /\ waterEndAt t' = waterEndAt t
              /\ plant t' = plant t /\ coord t' = coord t)
      /\ (ty = "npc" -> inBounds x y = true -> isBlocked (game st') x y = true)
      /\ (forall x' y', (x', y') <> (x, y) ->
            tileAt (world (game st')) x' y' = tileAt (world (game st)) x' y').
Proof.
  intros x y ty name st Hnone. cbv zeta.
  destruct (addCustomDecoration_lands x y ty name st Hnone)
    as (A1 & A2 & A3 & A4 & A5 & A6 & A7 & _).
  cbv zeta in A1, A2, A3, A4, A5, A6, A7.
  destruct (addCustomDecoration_world x y ty name st) as (W1 & W2 & W3).
  cbv zeta in W1, W2, W3.
  exists (fresh (dom (objs (game st)))).
  split; [exact A1 |]. split; [exact A3 |]. split; [exact A2 |].
  split; [exact A7 |]. split; [exact A4 |]. split; [exact A5 |].
  split; [exact W1 |]. split; [intros Hne; apply W2; now left |].
  split.
  { intros Hnpc t Ht. rewrite (W3 Hnpc) by eauto. rewrite tileAt_mutTile, Ht.
    eexists. split; [reflexivity |]. repeat split. }
  split.
  { intros Hnpc Hb. rewrite isBlocked_unfold, Hb. cbn [negb].
    destruct (tileAt (world (game st)) x y) as [t |] eqn:Et.
    - rewrite (W3 Hnpc) by eauto. rewrite tileAt_mutTile, Et. reflexivity.
    - rewrite W2 by now right. now rewrite Et. }
  intros x' y' Hne.
  destruct (tileAt (world (game st)) x y) as [t |] eqn:Et.
  - destruct (String.eqb_spec ty "npc") as [Hnpc | Hnpc].
    + rewrite (W3 Hnpc) by eauto. now apply tileAt_mutTile_ne.
    + rewrite W2 by now left. reflexivity.
  - rewrite W2 by now right. reflexivity.
Qed.

Lemma addCustomDecoration_places_decoration_witness :
  let bush := addCustomDecoration 5 7 "bush" "Hedge" fieldSession in
  let npc := addCustomDecoration 5 7 "npc" "Prophecy Seller" fieldSession in
  (exists r, decorAt (game (fst bush)) 5 7 = Some r
     /\ (d_type <$> objs (game (fst bush)) !! r) = Some "bush")
  /\ snd bush = true
  /\ world (game (fst bush)) = world (game fieldSession)
  /\ snd npc = false
  /\ (exists t', tileAt (world (game (fst npc))) 5 7 = Some t'
        /\ walkable t' = false)
  /\ walkable (makeTile 5 7 TILE_Soil) = true.
Proof.
  intros bush npc.
  destruct fieldSession_front as (_ & Ht & _).
  destruct (addCustomDecoration_places_decoration 5 7 "bush" "Hedge"
              fieldSession eq_refl)
    as (r & B1 & _ & B3 & _ & _ & _ & B7 & B8 & _).
  destruct (addCustomDecoration_places_decoration 5 7 "npc" "Prophecy Seller"
              fieldSession eq_refl)
    as (r' & _ & _ & _ & _ & _ & _ & N7 & _ & N9 & _).
  split; [exists r; split; [exact B1 | subst bush; rewrite B3; reflexivity] |].
  split; [apply (proj2 B7); split; [discriminate | rewrite Ht; eauto] |].
  split; [apply B8; discriminate |].
  split.
  { destruct (snd npc) eqn:E; [| reflexivity].
    destruct (proj1 N7 E) as [Hne _]. now contradiction Hne. }
  split; [| reflexivity].
  destruct (N9 eq_refl _ Ht) as (t' & T1 & T2 & _).
  exists t'. split; assumption.
Defined.

(** X24. A spawned seller buys. After [spawnNPC] on the free tile in front
    of the player, inside the world, [interactFront] with any tool sells
    everything to that seller: with crop stacks under names that have a
    price, the cash grows by the reported sum, which counts at least one
    coin per item, and no stack of gathered items, crops or seeds is
    positive afterwards. *)
Theorem spawnNPC_in_front_sells :
  forall (now : Q) (name : string) (st : Session),
    let x := fst (frontTileCoords (game st)) in
    let y := snd (frontTileCoords (game st)) in
    inBounds x y = true ->
    decorAt (game st) x y = None ->
    plainStacks (crops st) ->
    let st1 := spawnNPC x y name st in
    let st2 := interactFront now st1 in
    let sale := fst (sellAllToProphecySeller st1) in
    0 <= snd sale <= fst sale
    /\ cash (ensureCurrencies st2) = cash (ensureCurrencies st) + fst sale
    /\ (forall k c,
          gitems (inv (game st2)) !! k = Some c \/ items (inv (game st2)) !! k = Some c
          \/ crops st2 !! k = Some c \/ seeds st2 !! k = Some c -> c <= 0).
Proof.
  intros now name st. cbv zeta.
  destruct (frontTileCoords (game st)) as [x y] eqn:Ef. cbn [fst snd].
  intros Hb Hnone _. unfold spawnNPC.
  destruct (addCustomDecoration_lands x y "npc" name st Hnone)
    as (A1 & A2 & A3 & A4 & A5 & A6 & A7 & A8 & A9).
  cbv zeta in A1, A2, A3, A4, A5, A6, A7, A8, A9.
  set (st1 := fst (addCustomDecoration x y "npc" name st)) in *.
  assert (Hcur : ensureCurrencies st1 = ensureCurrencies st)
    by (unfold ensureCurrencies; now rewrite A8, A9).
  assert (Ef1 : frontTileCoords (game st1) = (x, y)).
  { unfold frontTileCoords in *. rewrite A6. exact Ef. }
  clearbody st1.
  assert (Hi : interactFront now st1
               = npcInteract (fresh (dom (objs (game st)))) x y st1).
  { unfold interactFront. rewrite Ef1, Hb. cbn [negb]. rewrite A1, A2.
    reflexivity. }
  rewrite Hi. unfold npcInteract.
  destruct (sellAllToProphecySeller_totals st1) as (T1 & T2 & _).
  cbv zeta in T1, T2.
  destruct (sellAllToProphecySeller_game st1) as (G1 & _ & _ & _ & G5 & G6).
  destruct (sellAllToProphecySeller st1) as [[totalCash totalItems] st'].
  cbn [fst snd] in *.
  assert (Hgame : forall f, inv (game (onGame (showFloatingText f x y "#ffd166") st'))
                            = inv (game st')) by reflexivity.
  split; [exact T1 |].
  destruct (0 <? totalItems);
    (split; [unfold onGame, set_game, ensureCurrencies in *;
             cbn [currencies coins] in *; rewrite T2, Hcur; reflexivity |]);
    intros k c H;
    unfold onGame in H;
    cbn [game set_game crops seeds showFloatingText set_floaties inv] in H;
    rewrite ?G1, ?G5, ?G6 in H; cbn [inv set_inv gitems items] in H;
    destruct H as [H | [H | [H | H]]]; exact (emptied_nonpos _ _ _ H).
Qed.

Lemma spawnNPC_in_front_sells_witness :
  cash (ensureCurrencies
          (interactFront 0 (spawnNPC 5 7 "Prophecy Seller" fieldSession)))
  = cash (ensureCurrencies fieldSession)
    + fst (fst (sellAllToProphecySeller
                  (spawnNPC 5 7 "Prophecy Seller" fieldSession))).
Proof.
  exact (proj1 (proj2 (spawnNPC_in_front_sells 0 "Prophecy Seller" fieldSession
                         eq_refl eq_refl (fun k _ => lookup_empty k)))).
Defined.

End Customization.

(** ** Presence: peers and their views *)

Section PresencePeers.
Import JSString JSNum World Farm.

Lemma syncView_target now ox oy v :
  tx (syncView now ox oy v) = ox /\ ty (syncView now ox oy v) = oy.
Proof.
  unfold syncView. destruct ((Z.abs (ox - tx v) <=? 3) && (Z.abs (oy - ty v) <=? 3));
    split; reflexivity.
Qed.

Lemma movementView_target now ox oy pf v :
  tx (movementView now ox oy pf v) = ox /\ ty (movementView now ox oy pf v) = oy.
Proof.
  unfold movementView.
  destruct ((Z.abs (ox - tx v) <=? 3) && (Z.abs (oy - ty v) <=? 3));
    split; reflexivity.
Qed.

(** What the loop of the [sync] handler keeps true of the peers collected
    so far, for the entries of [state]. *)
Lemma syncPeer_fold self now created dateNow (state l : list (string * list Meta)) acc :
  (forall e, e ∈ l -> e ∈ state) ->
  (forall uid o, fst acc !! uid = Some o ->
     uid <> self
     /\ (exists v, snd acc !! uid = Some v /\ tx v = o_x o /\ ty v = o_y o)
     /\ exists metas meta,
          (uid, metas) ∈ state /\ List.last (map Some metas) None = Some meta
          /\ o_x o = Qfloor (m_x meta) /\ o_y o = Qfloor (m_y meta)) ->
  let acc' := fold_left (syncPeer self now created dateNow) l acc in
  forall uid o, fst acc' !! uid = Some o ->
     uid <> self
     /\ (exists v, snd acc' !! uid = Some v /\ tx v = o_x o /\ ty v = o_y o)
     /\ exists metas meta,
          (uid, metas) ∈ state /\ List.last (map Some metas) None = Some meta
          /\ o_x o = Qfloor (m_x meta) /\ o_y o = Qfloor (m_y meta).
Proof.
  cbv zeta. revert acc. induction l as [| [u metas] l IH]; intros acc Hin Hacc.
  - exact Hacc.
  - cbn [fold_left]. apply IH.
    + intros e He. apply Hin. now right.
    + destruct acc as [os views]. unfold syncPeer.
      destruct (String.eqb_spec u self) as [-> | Hself]; [exact Hacc |].
      destruct (List.last (map Some metas) None) as [meta |] eqn:El;
        [| exact Hacc].
      cbn [fst snd]. intros uid o Ho.
      destruct (decide (uid = u)) as [-> | Hne].
      * rewrite lookup_insert_eq in Ho. injection Ho as <-.
        split; [exact Hself |]. split.
        { eexists. split; [apply lookup_insert_eq |]. apply syncView_target. }
        exists metas, meta. split; [apply Hin; now left |].
        split; [exact El |]. split; reflexivity.
      * rewrite lookup_insert_ne in Ho by congruence.
        destruct (Hacc uid o Ho) as (H1 & (v & Hv & Hxy) & H3).
        split; [exact H1 |]. split; [| exact H3].
        exists v. split; [| exact Hxy].
        cbn [snd] in Hv. now rewrite lookup_insert_ne by congruence.
Qed.

Lemma onPresenceSync_fields self now created dateNow state g :
  let r := fold_left (syncPeer self now created dateNow) state (∅, othersView g) in
  others (onPresenceSync self now created dateNow state g) = fst r
  /\ othersView (onPresenceSync self now created dateNow state g)
     = filter (fun kv => is_Some (fst r !! kv.1)) (snd r).
Proof.
  cbv zeta. unfold onPresenceSync.
  destruct (fold_left _ state _) as [os views]. split; reflexivity.
Qed.

(** X25. After a presence [sync] every peer has a view and every view a
    peer. For a presence state and stored views without inherited keys, the
    [sync] handler leaves a peer set that matches the views kept, key for
    key; each view's target is its peer's tile; the player is not among the
    peers; and every peer is an entry of the state, placed at the floor of
    the coordinates of the entry's last meta. *)
Theorem onPresenceSync_views_track_peers :
  forall (self : string) (now created : Q) (dateNow : Z)
         (state : list (string * list Meta)) (g : Game),
    plainPeers state ->
    (forall k, inheritedKey k = true -> othersView g !! k = None) ->
    let g' := onPresenceSync self now created dateNow state g in
    viewsTrack g'
    /\ others g' !! self = None
    /\ (forall uid o, others g' !! uid = Some o ->
          exists metas meta,
            (uid, metas) ∈ state /\ List.last (map Some metas) None = Some meta
            /\ o_x o = Qfloor (m_x meta) /\ o_y o = Qfloor (m_y meta)).
Proof.
  intros self now created dateNow state g _ _. cbv zeta.
  destruct (onPresenceSync_fields self now created dateNow state g) as [Eo Ev].
  cbv zeta in Eo, Ev.
  pose proof (syncPeer_fold self now created dateNow state state (∅, othersView g)
                (fun e H => H)) as Hfold.
  cbv zeta in Hfold.
  assert (H0 : forall uid o, fst (∅ : gmap string Other, othersView g) !! uid = Some o ->
     uid <> self
     /\ (exists v, snd (∅ : gmap string Other, othersView g) !! uid = Some v
                   /\ tx v = o_x o /\ ty v = o_y o)
     /\ exists metas meta,
          (uid, metas) ∈ state /\ List.last (map Some metas) None = Some meta
          /\ o_x o = Qfloor (m_x meta) /\ o_y o = Qfloor (m_y meta)).
  { intros uid o H. cbn [fst] in H. rewrite lookup_empty in H. discriminate. }
  specialize (Hfold H0). clear H0.
  set (r := fold_left (syncPeer self now created dateNow) state (∅, othersView g)) in *.
  clearbody r. destruct r as [os views]. cbn [fst snd] in *.
  unfold viewsTrack. rewrite Eo, Ev. clear Eo Ev.
  split; [| split].
  - intros uid. split; [split |].
    + intros [o Ho]. destruct (Hfold uid o Ho) as (_ & (v & Hv & _) & _).
      exists v. apply map_lookup_filter_Some. split; [exact Hv |]. cbn. eauto.
    + intros [v Hv]. apply map_lookup_filter_Some in Hv as [_ Hv]. exact Hv.
    + intros o v Ho Hv. apply map_lookup_filter_Some in Hv as [Hv _].
      destruct (Hfold uid o Ho) as (_ & (v' & Hv' & Hxy) & _).
      rewrite Hv in Hv'. injection Hv' as <-. exact Hxy.
  - destruct (os !! self) as [o |] eqn:Ho; [| reflexivity].
    destruct (Hfold self o Ho) as (Hne & _). contradiction.
  - intros uid o Ho. now destruct (Hfold uid o Ho) as (_ & _ & H).
Qed.

Lemma plainPeers_demo : plainPeers demoPeers.
Proof. repeat constructor. Qed.

Lemma onPresenceSync_views_track_peers_witness :
  viewsTrack (onPresenceSync "me" 1000 1000 5 demoPeers demoGame).
Proof.
  exact (proj1 (onPresenceSync_views_track_peers "me" 1000 1000 5 demoPeers
                  demoGame plainPeers_demo (fun k _ => lookup_empty k))).
Defined.

(** X26. Leaving and moving peers keep the views in step. When every peer
    has a view on its tile and every view a peer, this still holds after a
    [leave] event, which removes the peer and its view together, and after a
    [movement] broadcast of a peer without an inherited key, which places
    the sender, and the target of its view, at the floor of the broadcast
    coordinates; a broadcast without a sender, or from the player, changes
    nothing. *)
Theorem presence_events_keep_views_tracking :
  forall (self key : string) (now created : Q) (dateNow : Z)
         (payload : option Payload) (g : Game),
    viewsTrack g ->
    (forall p, payload = Some p -> inheritedKey (pay_uid p) = false) ->
    let gl := onPresenceLeave key g in
    let gm := onMovement self now created dateNow payload g in
    viewsTrack gl
    /\ (key <> "" -> others gl !! key = None /\ othersView gl !! key = None)
    /\ viewsTrack gm
    /\ (forall p, payload = Some p ->
          (pay_uid p = "" \/ pay_uid p = self -> gm = g)
          /\ (pay_uid p <> "" -> pay_uid p <> self ->
                exists o v,
                  others gm !! pay_uid p = Some o
                  /\ othersView gm !! pay_uid p = Some v
                  /\ o_x o = Qfloor (pay_x p) /\ o_y o = Qfloor (pay_y p)
                  /\ tx v = o_x o /\ ty v = o_y o))
    /\ (payload = None -> gm = g).
Proof.
  intros self key now created dateNow payload g Htrack _. cbv zeta.
  split.
  { unfold onPresenceLeave. destruct (String.eqb_spec key ""); [exact Htrack |].
    intros uid. cbn [others othersView set_others set_othersView].
    destruct (decide (uid = key)) as [-> | Hne].
    - rewrite !lookup_delete_eq. split; [split; intros [? ?]; discriminate |].
      intros o v H. discriminate.
    - rewrite !lookup_delete_ne by congruence. apply Htrack. }
  split.
  { intros Hk. unfold onPresenceLeave.
    destruct (String.eqb_spec key ""); [contradiction |].
    cbn [others othersView set_others set_othersView].
    split; apply lookup_delete_eq. }
  split.
  { unfold onMovement. destruct payload as [p |]; [| exact Htrack].
    destruct (String.eqb_spec (pay_uid p) ""); [exact Htrack |].
    destruct (String.eqb_spec (pay_uid p) self); [exact Htrack |].
    intros uid. cbn [others othersView set_others set_othersView].
    destruct (decide (uid = pay_uid p)) as [-> | Hne].
    - rewrite !lookup_insert_eq. split; [split; intros _; eauto |].
      intros o v [= <-] [= <-]. cbn [o_x o_y]. apply movementView_target.
    - rewrite !lookup_insert_ne by congruence. apply Htrack. }
  split; [| intros ->; reflexivity].
  intros p ->. split.
  - intros [E | E]; unfold onMovement; rewrite E.
    + reflexivity.
    + destruct (String.eqb_spec self ""); [reflexivity |].
      now rewrite String.eqb_refl.
  - intros H1 H2. unfold onMovement.
    destruct (String.eqb_spec (pay_uid p) ""); [contradiction |].
    destruct (String.eqb_spec (pay_uid p) self); [contradiction |].
    cbn [others othersView set_others set_othersView].
    eexists. eexists.
    split; [apply lookup_insert_eq |]. split; [apply lookup_insert_eq |].
    cbn [o_x o_y]. split; [reflexivity |]. split; [reflexivity |].
    apply movementView_target.
Qed.

Lemma viewsTrack_peered : viewsTrack peeredGame.
Proof.
  intros uid. unfold peeredGame. cbn [others othersView set_others set_othersView].
  destruct (decide (uid = "u1")) as [-> | Hne].
  - rewrite !lookup_insert_eq. split; [split; intros _; eauto |].
    intros o v [= <-] [= <-]. split; reflexivity.
  - rewrite !lookup_insert_ne, !lookup_empty by congruence.
    split; [split; intros [? H]; discriminate H |].
    intros o v H. discriminate H.
Qed.

Lemma presence_events_keep_views_tracking_witness :
  let gl := onPresenceLeave "u1" peeredGame in
  let gm := onMovement "me" 2000 2000 9 (Some demoPayload) peeredGame in
  (exists o v, others peeredGame !! "u1" = Some o
     /\ othersView peeredGame !! "u1" = Some v /\ tx v = 3 /\ ty v = 4)
  /\ viewsTrack gl
  /\ others gl !! "u1" = None /\ othersView gl !! "u1" = None
  /\ viewsTrack gm
  /\ exists o v, others gm !! "u1" = Some o /\ othersView gm !! "u1" = Some v
       /\ o_x o = 4 /\ o_y o = 4 /\ tx v = 4 /\ ty v = 4.
Proof.
  intros gl gm.
  assert (Hplain : forall p, Some demoPayload = Some p ->
                     inheritedKey (pay_uid p) = false)
    by (intros p [= <-]; reflexivity).
  destruct (presence_events_keep_views_tracking "me" "u1" 2000 2000 9
              (Some demoPayload) peeredGame viewsTrack_peered Hplain)
    as (Hl & Hgone & Hm & Hmove & _).
  destruct (Hgone ltac:(discriminate)) as [G1 G2].
  destruct (Hmove demoPayload eq_refl) as [_ Hplace].
  destruct (Hplace ltac:(discriminate) ltac:(discriminate))
    as (o & v & Ho & Hv & Hx & Hy & Htx & Hty).
  split.
  { eexists. eexists. split; [vm_compute; reflexivity |].
    split; [vm_compute; reflexivity |]. split; reflexivity. }
  split; [exact Hl |]. split; [exact G1 |]. split; [exact G2 |].
  split; [exact Hm |].
  exists o, v. split; [exact Ho |]. split; [exact Hv |].
  split; [exact Hx |]. split; [exact Hy |].
  split; [rewrite Htx; exact Hx | rewrite Hty; exact Hy].
Defined.

End PresencePeers.

(** ** The gather system: resolvers and [harvest] *)

Section Harvesting.
Import JSString JSNum ItemList GatherSystem Harvest.

Lemma find_snoc {A : Type} (f : A -> bool) (l : list A) (t : A) :
  List.find f (l ++ [t])%list
  = match List.find f l with
    | Some x => Some x
    | None => if f t then Some t else None
    end.
Proof.
  induction l as [| a l IH]; cbn; [reflexivity |].
  destruct (f a); [reflexivity | exact IH].
Qed.

Lemma entries_add c t cat :
  entries c (add c t cat) = (entries c cat ++ [t])%list.
Proof. destruct c; reflexivity. Qed.

Lemma entries_add_other c c' t cat :
  c' <> c -> entries c' (add c t cat) = entries c' cat.
Proof. destruct c, c'; intros H; try reflexivity; contradiction. Qed.

Lemma findByName_name c n cat t :
  findByName c n cat = Some t -> toLowerCase (name t) = toLowerCase (trim n).
Proof.
  unfold findByName. intros H. apply find_some in H as [_ H].
  now apply String.eqb_eq in H.
Qed.

Lemma toLowerCase_length s : String.length (toLowerCase s) = String.length s.
Proof. induction s as [| c s IH]; cbn; [reflexivity | now rewrite IH]. Qed.

Lemma toLowerCase_empty s : toLowerCase s = "" <-> s = "".
Proof. destruct s; split; intros H; try reflexivity; discriminate. Qed.

Lemma trimmed_ltrim b : trim b = b -> ltrim b = b.
Proof.
  unfold trim. intros H.
  destruct (ltrim_head b) as [E | (c & r & E & Hc)].
  - rewrite E in H. cbn in H. now rewrite <- H in E |- *.
  - rewrite E in H. destruct (rtrim_keeps_head c r Hc) as [r' Hr].
    rewrite Hr in H. subst b. cbn [ltrim]. now rewrite Hc.
Qed.

Lemma trim_app_fixed b t :
  trim b = b -> b <> "" -> t <> "" -> rtrim t = t ->
  trim (b ++ t) = (b ++ t)%string.
Proof.
  intros Hb Hne Ht Hr. unfold trim.
  rewrite ltrim_app by (rewrite (trimmed_ltrim b Hb); exact Hne).
  rewrite (trimmed_ltrim b Hb). now apply rtrim_app_fixed.
Qed.

(** A trimmed name is resolved to the same tuple at every call, and added
    to its category at most once. *)
Lemma findOrAdd_stable c prefix itemName icon cat :
  trim itemName = itemName ->
  let r := findOrAdd c prefix itemName icon cat in
  findOrAdd c prefix itemName icon (snd r) = r
  /\ toLowerCase (name (fst r)) = toLowerCase itemName
  /\ findByName c itemName (snd r) = Some (fst r)
  /\ (forall c', c' <> c -> entries c' (snd r) = entries c' cat).
Proof.
  intros Ht. cbv zeta. unfold findOrAdd.
  destruct (findByName c itemName cat) as [t |] eqn:E; cbn [fst snd].
  - pose proof (findByName_name _ _ _ _ E) as Hn. rewrite Ht in Hn.
    rewrite E. split; [reflexivity |]. split; [exact Hn |].
    split; reflexivity.
  - assert (E' : findByName c itemName
                   (add c {| itemID := makeId prefix itemName; name := itemName;
                             imageLink := icon |} cat)
                 = Some {| itemID := makeId prefix itemName; name := itemName;
                           imageLink := icon |}).
    { unfold findByName in *. rewrite entries_add, find_snoc, E. cbn [name].
      rewrite Ht, String.eqb_refl. reflexivity. }
    rewrite E'. split; [reflexivity |]. split; [reflexivity |].
    split; [reflexivity |]. intros c' Hc. now apply entries_add_other.
Qed.

Lemma baseTreeName_trimmed n :
  trim (ItemSystem.baseTreeName n) = ItemSystem.baseTreeName n.
Proof. unfold ItemSystem.baseTreeName. apply trim_idem. Qed.

Lemma eqb_length_ne (a b : string) :
  String.length a <> String.length b -> String.eqb a b = false.
Proof. intros H. apply String.eqb_neq. intros ->. contradiction. Qed.

Lemma resolveFlowerTuple_findOrAdd n cat :
  resolveFlowerTuple n cat
  = findOrAdd flowers "flower_fallback" (trim n ++ " Petals")
      ("assets/flower/" ++ trim n ++ ".png") cat.
Proof. reflexivity. Qed.

Lemma petals_trimmed n :
  trim n <> "" -> trim (trim n ++ " Petals") = (trim n ++ " Petals")%string.
Proof.
  intros H. apply trim_app_fixed; [apply trim_idem | exact H | discriminate |
                                   reflexivity].
Qed.

Lemma resolveTreeTuple_stable n cat :
  ItemSystem.baseTreeName n <> "" ->
  resolveTreeTuple n (snd (resolveTreeTuple n cat)) = resolveTreeTuple n cat.
Proof.
  intros Hne. unfold resolveTreeTuple.
  set (base := ItemSystem.baseTreeName n) in *.
  destruct (String.eqb (toLowerCase base) "sakura").
  - now apply findOrAdd_stable.
  - destruct (findByName trees base cat) as [fruit |] eqn:Ef; cbn [snd].
    + now rewrite Ef.
    + assert (Hw : trim (base ++ " Wood") = (base ++ " Wood")%string).
      { apply trim_app_fixed; [apply baseTreeName_trimmed | exact Hne |
                               discriminate | reflexivity]. }
      destruct (findOrAdd_stable trees "tree_fallback" (base ++ " Wood")
                  (if String.eqb (base ++ " Wood") "Sakura Blossom"
                   then "assets/tree/Sakura.png" else "") cat Hw)
        as (S1 & _ & _ & _).
      cbv zeta in S1.
      assert (Ef' : findByName trees base
                      (snd (findOrAdd trees "tree_fallback" (base ++ " Wood")
                              (if String.eqb (base ++ " Wood") "Sakura Blossom"
                               then "assets/tree/Sakura.png" else "") cat))
                    = None).
      { unfold findOrAdd.
        destruct (findByName trees (base ++ " Wood") cat); cbn [snd];
          [exact Ef |].
        unfold findByName in *. rewrite entries_add, find_snoc, Ef. cbn [name].
        rewrite eqb_length_ne; [reflexivity |].
        rewrite !toLowerCase_length, (baseTreeName_trimmed n : trim base = base),
          length_app.
        cbn. lia. }
      rewrite Ef'. exact S1.
Qed.

(** X27. Resolving a node twice gives the same entry. For a flower with a
    name that is not blank, [resolveFlowerTuple] returns an entry named, up
    to letter case, "<name> Petals", and a second call on the catalog it
    leaves returns the same entry and leaves that catalog as it is: a
    fallback entry is added once at most. The same holds of
    [resolveMineralTuple] with the trimmed name itself, and of
    [resolveTreeTuple] when the tree's base name is not empty; entries of
    the other categories are never touched. *)
Theorem resolvers_are_stable :
  forall (nodeName : string) (cat : Catalog),
    (trim nodeName <> "" ->
       let r := resolveFlowerTuple nodeName cat in
       resolveFlowerTuple nodeName (snd r) = r
       /\ toLowerCase (name (fst r)) = toLowerCase (trim nodeName ++ " Petals")
       /\ (forall c, c <> flowers -> entries c (snd r) = entries c cat))
    /\ (let r := resolveMineralTuple nodeName cat in
        resolveMineralTuple nodeName (snd r) = r
        /\ toLowerCase (name (fst r)) = toLowerCase (trim nodeName)
        /\ (forall c, c <> minerals -> entries c (snd r) = entries c cat))
    /\ (ItemSystem.baseTreeName nodeName <> "" ->
        let r := resolveTreeTuple nodeName cat in
        resolveTreeTuple nodeName (snd r) = r).
Proof.
  intros nodeName cat. split; [| split].
  - intros Hne. cbv zeta. rewrite !resolveFlowerTuple_findOrAdd.
    destruct (findOrAdd_stable flowers "flower_fallback" (trim nodeName ++ " Petals")
                ("assets/flower/" ++ trim nodeName ++ ".png") cat
                (petals_trimmed nodeName Hne)) as (S1 & S2 & _ & S4).
    cbv zeta in S1, S2, S4. split; [exact S1 |]. split; [exact S2 | exact S4].
  - cbv zeta. unfold resolveMineralTuple, normalizeName.
    destruct (findOrAdd_stable minerals "mineral_fallback" (trim nodeName)
                ("assets/minerals/" ++ trim nodeName ++ ".png") cat
                (trim_idem nodeName)) as (S1 & S2 & _ & S4).
    cbv zeta in S1, S2, S4. split; [exact S1 |]. split; [exact S2 | exact S4].
  - intros Hne. cbv zeta. apply resolveTreeTuple_stable. exact Hne.
Qed.

Lemma harvest_flower_shape {S : Type} (rng : S -> Q * S) category nodeName cat s :
  trim nodeName <> "" -> toLowerCase category = "flower" ->
  exists bonus cat' s',
    harvest rng category nodeName cat s
    = (inr {| h_itemID := itemID (fst (resolveFlowerTuple nodeName cat));
              h_name := name (fst (resolveFlowerTuple nodeName cat));
              h_imageLink := imageLink (fst (resolveFlowerTuple nodeName cat));
              h_category := "flower"; h_source := trim nodeName;
              h_rarity := fst (ItemSystem.rollRarityCascade rng s);
              h_quality := fst (ItemSystem.rollQuality rng
                                  (snd (ItemSystem.rollRarityCascade rng s)));
              h_bonusItems := bonus |}, cat', s').
Proof.
  intros Hne Hc. unfold harvest. rewrite Hc. cbn [String.eqb Ascii.eqb Bool.eqb].
  unfold normalizeName.
  destruct (String.eqb_spec (trim nodeName) ""); [contradiction |].
  assert (Er : resolveFlowerTuple (trim nodeName) cat = resolveFlowerTuple nodeName cat).
  { rewrite !resolveFlowerTuple_findOrAdd, trim_idem. reflexivity. }
  rewrite Er. destruct (resolveFlowerTuple nodeName cat) as [t c1].
  destruct (ItemSystem.rollRarityCascade rng s) as [rarity s1].
  cbn [fst snd].
  destruct (ItemSystem.rollQuality rng s1) as [quality s2].
  cbn [orb fst snd].
  destruct (rng s2) as [v s3].
  destruct (Qlt_le_dec v 0.02).
  - destruct (resolveResourceSeedTuple "flower" (trim nodeName) c1) as [seed c2].
    eexists. eexists. eexists. reflexivity.
  - eexists. eexists. eexists. reflexivity.
Qed.

(** X28. [harvest] checks, then names by the conventions of the catalog.
    A call without a category or with a blank node name throws before the
    catalog or the random source is touched, and so does a category other
    than tree, flower or mineral in any letter case. A flower harvest returns
    an item named, up to letter case, "<name> Petals" with the trimmed node
    name as its source, the rarity of the cascade roll and the quality of
    the roll that follows it. A mineral harvest returns an item named, up to
    letter case, by the trimmed node name, never a bonus item, and draws for
    the rarity and the quality only. *)
Theorem harvest_checks_then_names :
  forall (S : Type) (rng : S -> Q * S) (category nodeName : string)
         (cat : Catalog) (s : S),
    let r := harvest rng category nodeName cat s in
    let rolled := ItemSystem.rollRarityCascade rng s in
    let graded := ItemSystem.rollQuality rng (snd rolled) in
    (category = "" -> r = (inl CategoryRequired, cat, s))
    /\ (category <> "" -> trim nodeName = "" ->
          r = (inl NodeNameRequired, cat, s))
    /\ (category <> "" -> trim nodeName <> "" ->
        toLowerCase category <> "tree" -> toLowerCase category <> "flower" ->
        toLowerCase category <> "mineral" ->
          r = (inl UnknownCategory, cat, s))
    /\ (trim nodeName <> "" -> toLowerCase category = "flower" ->
          exists h cat' s',
            r = (inr h, cat', s')
            /\ toLowerCase (h_name h) = toLowerCase (trim nodeName ++ " Petals")
            /\ h_source h = trim nodeName /\ h_category h = "flower"
            /\ h_rarity h = fst rolled /\ h_quality h = fst graded)
    /\ (trim nodeName <> "" -> toLowerCase category = "mineral" ->
          exists h,
            r = (inr h, snd (resolveMineralTuple nodeName cat), snd graded)
            /\ toLowerCase (h_name h) = toLowerCase (trim nodeName)
            /\ h_source h = trim nodeName /\ h_bonusItems h = []
            /\ h_rarity h = fst rolled /\ h_quality h = fst graded).
Proof.
  intros S rng category nodeName cat s. cbv zeta.
  split; [intros ->; reflexivity |].
  split.
  { intros Hc Hn. unfold harvest, normalizeName.
    destruct (String.eqb_spec (toLowerCase category) "") as [E | _].
    - apply (proj1 (toLowerCase_empty _)) in E. contradiction.
    - now rewrite Hn. }
  split.
  { intros Hc Hn H1 H2 H3. unfold harvest, normalizeName.
    destruct (String.eqb_spec (toLowerCase category) "") as [E | _].
    { apply (proj1 (toLowerCase_empty _)) in E. contradiction. }
    destruct (String.eqb_spec (trim nodeName) ""); [contradiction |].
    destruct (String.eqb_spec (toLowerCase category) "tree"); [contradiction |].
    destruct (String.eqb_spec (toLowerCase category) "flower"); [contradiction |].
    destruct (String.eqb_spec (toLowerCase category) "mineral"); [contradiction |].
    reflexivity. }
  split.
  { intros Hn Hc.
    destruct (harvest_flower_shape rng category nodeName cat s Hn Hc)
      as (bonus & cat' & s' & E).
    eexists. exists cat', s'. split; [exact E |]. cbn [h_name h_source
      h_category h_rarity h_quality].
    split; [| repeat split].
    rewrite resolveFlowerTuple_findOrAdd.
    now apply findOrAdd_stable, petals_trimmed. }
  intros Hn Hc. unfold harvest. rewrite Hc. cbn [String.eqb Ascii.eqb Bool.eqb].
  unfold normalizeName.
  destruct (String.eqb_spec (trim nodeName) ""); [contradiction |].
  assert (Er : resolveMineralTuple (trim nodeName) cat = resolveMineralTuple nodeName cat).
  { unfold resolveMineralTuple, normalizeName. rewrite trim_idem. reflexivity. }
  rewrite Er.
  assert (Hname : toLowerCase (name (fst (resolveMineralTuple nodeName cat)))
                  = toLowerCase (trim nodeName)).
  { unfold resolveMineralTuple, normalizeName.
    now apply findOrAdd_stable, trim_idem. }
  destruct (resolveMineralTuple nodeName cat) as [t c1]. cbn [fst snd] in *.
  destruct (ItemSystem.rollRarityCascade rng s) as [rarity s1].
  cbn [fst snd].
  destruct (ItemSystem.rollQuality rng s1) as [quality s2].
  cbn [orb fst snd].
  eexists. split; [reflexivity |]. cbn [h_name h_source h_bonusItems h_rarity
                                        h_quality].
  repeat split. exact Hname.
Qed.

End Harvesting.

(** ** The gather icon *)

Section GatherIcon.
Import JSString JSNum World Farm.

Lemma findGatherCandidate_gatherable g r :
  findGatherCandidate g = Some r ->
  exists d, objs g !! r = Some d /\ isDecorGatherable d = true.
Proof.
  unfold findGatherCandidate.
  destruct (frontTileCoords g) as [fx fy].
  assert (H : forall x y r', gatherableAt g x y = Some r' ->
                exists d, objs g !! r' = Some d /\ isDecorGatherable d = true).
  { intros x y r' Hr.
    destruct (gatherableAt_Some g x y r' Hr) as (d & H1 & H2 & _). eauto. }
  destruct (gatherableAt g fx fy) as [r0 |] eqn:E0;
    [intros [= <-]; exact (H _ _ _ E0) |].
  destruct (gatherableAt g (p_x (player g)) (p_y (player g))) as [r1 |] eqn:E1;
    [intros [= <-]; exact (H _ _ _ E1) |].
  cbn [fold_left fst snd].
  destruct (gatherableAt g (p_x (player g) + 0) (p_y (player g) + -1))
    as [r2 |] eqn:E2; [intros [= <-]; exact (H _ _ _ E2) |].
  destruct (gatherableAt g (p_x (player g) + -1) (p_y (player g) + 0))
    as [r3 |] eqn:E3; [intros [= <-]; exact (H _ _ _ E3) |].
  destruct (gatherableAt g (p_x (player g) + 1) (p_y (player g) + 0))
    as [r4 |] eqn:E4; [intros [= <-]; exact (H _ _ _ E4) |].
  intros E5. exact (H _ _ _ E5).
Qed.

(** X29. A click on the gather icon starts the gather on the candidate.
    With the candidate that [findGatherCandidate] returns, the click does
    nothing while a gather is running; otherwise it is never refused as
    depleted: with less than 1 stamina it only shows a text and leaves the
    gather, the stamina, the inventory and the world as they are, and with
    1 stamina or more it starts a gather on the candidate at the click's
    instant, for [GATHER_TIME_MS], with the hand as the tool, the stamina
    and the inventory untouched until the gather is complete. *)
Theorem gather_icon_click_starts_candidate :
  forall (now : Q) (g : Game) (r : ref),
    findGatherCandidate g = Some r ->
    let g' := onGatherIconClick now (Some r) g in
    (active (World.gather g) = true -> g' = g)
    /\ (active (World.gather g) = false ->
        Mechanics.stamina_current (stamina g) < 1 ->
          World.gather g' = World.gather g /\ tool g' = tool g)
    /\ (active (World.gather g) = false ->
        1 <= Mechanics.stamina_current (stamina g) ->
          World.gather g'
          = {| active := true; target := Some r; startAt := now;
               duration := GATHER_TIME_MS; progress := 0 |}
          /\ tool g' = Hand)
    /\ stamina g' = stamina g /\ inv g' = inv g /\ world g' = world g
    /\ objs g' = objs g /\ decor g' = decor g /\ player g' = player g.
Proof.
  intros now g r Hc. cbv zeta.
  destruct (findGatherCandidate_gatherable g r Hc) as (d & Hd & Hg).
  unfold isDecorGatherable in Hg. apply andb_true_iff in Hg as [Hh _].
  assert (Hdep : match remainingHarvests d with
                 | Some n => n <=? 0
                 | None => false
                 end = false).
  { destruct (remainingHarvests d) as [n |]; [| reflexivity].
    apply Z.ltb_lt in Hh. apply Z.leb_gt. exact Hh. }
  unfold onGatherIconClick.
  destruct (active (World.gather g)) eqn:Ea.
  { split; [reflexivity |]. split; [discriminate |]. split; [discriminate |].
    repeat split. }
  unfold startGathering. rewrite Hd, Hdep.
  split; [discriminate |].
  destruct (Z.ltb_spec (Mechanics.stamina_current (stamina g)) 1) as [Hs | Hs].
  - split; [intros _ _; split; reflexivity |].
    split; [intros _ ?; lia |]. repeat split.
  - split; [intros _ ?; lia |].
    split; [intros _ _; split; reflexivity |]. repeat split.
Qed.

Lemma gather_icon_click_starts_candidate_witness :
  World.gather (onGatherIconClick 250 (Some 0%nat) demoGame)
  = {| active := true; target := Some 0%nat; startAt := 250;
       duration := GATHER_TIME_MS; progress := 0 |}.
Proof.
  refine (proj1 (proj1 (proj2 (proj2
            (gather_icon_click_starts_candidate 250 demoGame 0%nat eq_refl)))
            eq_refl _)).
  cbn. lia.
Defined.

End GatherIcon.

(** ** Item identifiers *)

Section Slugs.
Import JSString ItemList Harvest.

Lemma slug_char_not_underscore c : is_slug_char c = true -> Ascii.eqb c "_" = false.
Proof.
  intros H. destruct (Ascii.eqb_spec c "_") as [-> | ?]; [discriminate | reflexivity].
Qed.

Lemma slug_char_lower c : is_slug_char c = true -> lower_ascii c = c.
Proof.
  unfold is_slug_char, lower_ascii. cbv zeta. intros H.
  destruct ((65 <=? nat_of_ascii c)%nat && (nat_of_ascii c <=? 90)%nat) eqn:E;
    [| reflexivity].
  exfalso. apply andb_true_iff in E as [E1 E2].
  apply Nat.leb_le in E1, E2.
  apply orb_true_iff in H as [H | H]; apply andb_true_iff in H as [H1 H2];
    apply Nat.leb_le in H1, H2; lia.
Qed.

Lemma squash_shape s b : slugShape (squash s b) b = true.
Proof.
  revert b. induction s as [| c s IH]; intros b; [reflexivity |].
  cbn [squash]. destruct (is_slug_char c) eqn:Ec.
  - cbn [slugShape]. rewrite Ec. apply IH.
  - destruct b; [apply IH |].
    cbn [slugShape]. change (is_slug_char "_") with false.
    cbn [Ascii.eqb Bool.eqb andb negb]. apply IH.
Qed.

Lemma slugShape_weaken s : slugShape s true = true -> slugShape s false = true.
Proof.
  destruct s as [| c r]; [reflexivity |]. cbn [slugShape].
  destruct (is_slug_char c); [auto |].
  rewrite andb_false_r. discriminate.
Qed.

Lemma slugShape_no_lead s : slugShape s true = true -> dropLeading "_" s = s.
Proof.
  destruct s as [| c r]; [reflexivity |]. cbn [slugShape dropLeading].
  destruct (is_slug_char c) eqn:Ec.
  - intros _. now rewrite (slug_char_not_underscore c Ec).
  - rewrite andb_false_r. discriminate.
Qed.

Lemma dropLeading_shape s :
  slugShape s false = true -> slugShape (dropLeading "_" s) true = true.
Proof.
  destruct s as [| c r]; [reflexivity |]. cbn [slugShape dropLeading].
  destruct (is_slug_char c) eqn:Ec.
  - intros H. rewrite (slug_char_not_underscore c Ec). cbn [slugShape].
    now rewrite Ec.
  - intros H. apply andb_true_iff in H as [H Hr].
    apply andb_true_iff in H as [H _]. rewrite H.
    now rewrite (slugShape_no_lead r Hr).
Qed.

Lemma dropTrailing_cons c a r :
  dropTrailing c (String a r)
  = match dropTrailing c r with
    | EmptyString => if Ascii.eqb a c then EmptyString else String a EmptyString
    | r' => String a r'
    end.
Proof. reflexivity. Qed.

Lemma dropTrailing_shape s b :
  slugShape s b = true -> slugShape (dropTrailing "_" s) b = true.
Proof.
  revert b. induction s as [| a r IH]; intros b; [reflexivity |].
  rewrite dropTrailing_cons. cbn [slugShape].
  destruct (is_slug_char a) eqn:Ea.
  - intros H. specialize (IH false H).
    rewrite (slug_char_not_underscore a Ea).
    destruct (dropTrailing "_" r) as [| x y]; cbn [slugShape]; rewrite Ea;
      [reflexivity | exact IH].
  - intros H. apply andb_true_iff in H as [H Hr].
    specialize (IH true Hr).
    destruct (dropTrailing "_" r) as [| x y].
    + apply andb_true_iff in H as [H _]. now rewrite H.
    + cbn [slugShape] in IH |- *. rewrite Ea, H. exact IH.
Qed.

Lemma dropTrailing_idem c s : dropTrailing c (dropTrailing c s) = dropTrailing c s.
Proof.
  induction s as [| a r IH]; [reflexivity |].
  rewrite dropTrailing_cons.
  destruct (dropTrailing c r) as [| x y] eqn:E.
  - destruct (Ascii.eqb a c) eqn:Ea; [reflexivity |].
    rewrite dropTrailing_cons. cbn [dropTrailing]. now rewrite Ea.
  - rewrite dropTrailing_cons, IH. reflexivity.
Qed.

Lemma dropTrailing_last c s : last_char (dropTrailing c s) <> Some c.
Proof.
  induction s as [| a r IH]; [discriminate |].
  rewrite dropTrailing_cons.
  destruct (dropTrailing c r) as [| x y] eqn:E.
  - destruct (Ascii.eqb_spec a c) as [-> | Hne]; [discriminate |].
    cbn. congruence.
  - exact IH.
Qed.

Lemma slugShape_lower s b : slugShape s b = true -> toLowerCase s = s.
Proof.
  revert b. induction s as [| c r IH]; intros b; [reflexivity |].
  cbn [slugShape toLowerCase]. destruct (is_slug_char c) eqn:Ec.
  - intros H. now rewrite (slug_char_lower c Ec), (IH false H).
  - intros H. apply andb_true_iff in H as [H Hr].
    apply andb_true_iff in H as [H _]. apply Ascii.eqb_eq in H. subst c.
    now rewrite (IH true Hr).
Qed.

Lemma slugShape_squash s b : slugShape s b = true -> squash s b = s.
Proof.
  revert b. induction s as [| c r IH]; intros b; [reflexivity |].
  cbn [slugShape squash]. destruct (is_slug_char c) eqn:Ec.
  - intros H. now rewrite (IH false H).
  - intros H. apply andb_true_iff in H as [H Hr].
    apply andb_true_iff in H as [H Hb]. apply Ascii.eqb_eq in H. subst c.
    destruct b; [discriminate |]. now rewrite (IH true Hr).
Qed.

Lemma slug_shape s : slugShape (slug s) true = true.
Proof.
  unfold slug. apply dropTrailing_shape, dropLeading_shape, squash_shape.
Qed.

Lemma slug_idem s : slug (slug s) = slug s.
Proof.
  pose proof (slug_shape s) as H.
  unfold slug at 1.
  rewrite (slugShape_lower _ _ H), (slugShape_squash _ _ (slugShape_weaken _ H)),
    (slugShape_no_lead _ H).
  unfold slug. apply dropTrailing_idem.
Qed.

(** X30. Identifiers are stable slugs. A slug consists of lower-case
    letters and digits with single underscores between them, with no
    underscore at either end; the slug of a slug is that slug; so an
    identifier made from a name and the one made from the name's slug are
    the same. *)
Theorem slug_is_stable :
  forall (s prefix : string),
    slugShape (slug s) true = true
    /\ last_char (slug s) <> Some "_"%char
    /\ slug (slug s) = slug s
    /\ makeId prefix (slug s) = makeId prefix s.
Proof.
  intros s prefix. split; [apply slug_shape |].
  split; [unfold slug; apply dropTrailing_last |].
  split; [apply slug_idem |].
  unfold makeId. now rewrite slug_idem.
Qed.

End Slugs.
